(** * VigiSaude Brasil: request cache, alert palette and municipality layers

    A shallow embedding of the API service (cache, cache keys, case
    series, national overview, lookup tables, alert palette), of the map
    component (zoom handler, visible-state resolver, municipality layer
    loader, disease switch, style and drawing of the state layer,
    sanitation opacity), of the aggregates of the cards and of the series
    of the main chart, followed by the properties proved about them. *)

From Stdlib Require Import ZArith QArith Qcanon String Ascii List Bool.
From Stdlib Require Import Reals Lra Lia Floats.
From Stdlib Require Import Sorted.
From stdpp Require Import gmap strings pretty list fin_maps.

Local Open Scope Z_scope.

(* stdpp's set_solver clears hypotheses that may already be gone. *)
#[local] Set Warnings "-clear-no-such-hyp".

(** ** JavaScript values that reach the modelled functions *)

(** A JS number: finite values are exact rationals (every finite double is
    one), compared by value, so that [+0] and [-0] coincide as they do for
    property keys and for [Array.prototype.includes]. *)
Inductive JsNumber : Type :=
  | JNaN
  | JInfinity (negative : bool)
  | JFinite (q : Qc).

(** The [nivel] field of an alert record as the palette receives it: a
    number, [null], or [undefined] when the field is absent. *)
Inductive JsLevel : Type :=
  | LNull
  | LUndefined
  | LNum (n : JsNumber).

#[global] Instance JsNumber_eq_dec : EqDecision JsNumber.
Proof. solve_decision. Defined.

#[global] Instance JsLevel_eq_dec : EqDecision JsLevel.
Proof. solve_decision. Defined.

Definition jsInt (z : Z) : JsNumber := JFinite (Q2Qc (inject_Z z)).
Definition levelInt (z : Z) : JsLevel := LNum (jsInt z).

(** What a promise settles to. *)
Inductive Settled (A : Type) : Type :=
  | Fulfilled (value : A)
  | Rejected (reason : string).
Arguments Fulfilled {A} value.
Arguments Rejected {A} reason.

(** ** services/api.js *)
Module Api.

(** [cacheKey(...args)] is [args.join('|')]; the components are taken as
    [join] renders them. *)
Definition cacheKey (args : list string) : string := String.concat "|" args.

(** Whether a rendered component contains the delimiter. *)
Fixpoint has_delimiter (s : string) : bool :=
  match s with
  | EmptyString => false
  | String c s' => if Ascii.eqb c "|" then true else has_delimiter s'
  end.

Section Cache.
Context {V : Type}.

(** [const cache = new Map()] *)
Local Abbreviation Cache := (gmap string V).

(** [cachedFetch] up to its [await]: either [cache.has(key)] and the
    stored value is returned without calling [fetcher], or [fetcher] is
    called and the call is suspended on its promise. *)
Inductive CallResult : Type :=
  | Hit (data : V)
  | Miss.

Definition cachedFetch_call (key : string) (cache : Cache) : CallResult :=
  match cache !! key with
  | Some data => Hit data
  | None => Miss
  end.

(** [cachedFetch] after its [await], once the promise of [fetcher()] has
    settled: a value is stored and returned, a rejection propagates and
    leaves the cache as it is. *)
Definition cachedFetch_resume (key : string) (outcome : Settled V)
    (cache : Cache) : Cache * Settled V :=
  match outcome with
  | Fulfilled data => (<[key := data]> cache, Fulfilled data)
  | Rejected e => (cache, Rejected e)
  end.

(** The cache together with the calls of [cachedFetch] suspended at
    their [await] (by key, oldest first), the number of times a fetcher
    has been invoked, and what the calls have returned so far. *)
Record Session : Type := {
  cache : Cache;
  inflight : list string;
  invoked : nat;
  returned : list (Settled V);
}.

(** One turn of the event loop as far as the cache is concerned: a call
    runs up to its [await] (or returns from the cache), or the [i]-th
    suspended call resumes with the settled outcome of its fetcher. *)
Inductive CacheEvent : Type :=
  | EvCall (key : string)
  | EvResume (i : nat) (outcome : Settled V).

Definition cache_step (s : Session) (ev : CacheEvent) : Session :=
  match ev with
  | EvCall key =>
      match cachedFetch_call key (cache s) with
      | Hit data =>
          {| cache := cache s; inflight := inflight s; invoked := invoked s;
             returned := returned s ++ [Fulfilled data] |}
      | Miss =>
          {| cache := cache s; inflight := inflight s ++ [key];
             invoked := S (invoked s); returned := returned s |}
      end
  | EvResume i outcome =>
      match inflight s !! i with
      | Some key =>
          let '(cache1, result) := cachedFetch_resume key outcome (cache s) in
          {| cache := cache1; inflight := delete i (inflight s);
             invoked := invoked s; returned := returned s ++ [result] |}
      | None => s
      end
  end.

Definition cache_run (s : Session) (evs : list CacheEvent) : Session :=
  fold_left cache_step evs s.

Definition new_session : Session :=
  {| cache := ∅; inflight := []; invoked := O; returned := [] |}.

End Cache.
Arguments CacheEvent V : clear implicits.
Arguments Session V : clear implicits.

(** A lens-like view of the part of a state that holds the cache, for
    fetchers that run to completion in one go and may themselves go
    through the cache. *)
Section CachedFetch.
Context {S V : Type}.
Variable get : S -> gmap string V.
Variable set : gmap string V -> S -> S.

(** [cachedFetch(key, fetcher)] with nothing interleaved between the
    call and its resumption. The [bool] tells whether [fetcher] ran. *)
Definition cachedFetch (key : string) (fetcher : S -> S * Settled V)
    (st : S) : S * Settled V * bool :=
  match cachedFetch_call key (get st) with
  | Hit data => (st, Fulfilled data, false)
  | Miss =>
      let '(st1, outcome) := fetcher st in
      let '(cache2, result) := cachedFetch_resume key outcome (get st1) in
      (set cache2 st1, result, true)
  end.
End CachedFetch.

(** *** InfoDengue series *)

(** One epidemiological-week observation, with the fields the modelled
    code reads. *)
Record AlertRecord : Type := {
  SE : Z;
  casos : Z;
  nivel : JsLevel;
}.

(** How the [alertcity] request ends: [fetch] rejects, the status is not
    ok, the body is not JSON, it is a JSON array of records, or it is JSON
    of another shape (on which [data.sort] is not a function). *)
Inductive Response : Type :=
  | NetworkError
  | HttpError
  | BadJson
  | JsonArray (data : list AlertRecord)
  | JsonOther.

(** The upstream service: the answer to the request with these query
    parameters (geocode, disease, ew_start, ew_end, ey_start, ey_end). *)
Definition Network : Type := Z -> string -> Z -> Z -> Z -> Z -> Response.

(** [data.sort((a, b) => a.SE - b.SE)]: a stable ascending sort on [SE];
    records are inserted from the last one on, each before the first
    record that is not below it. *)
Fixpoint insert_by_SE (r : AlertRecord) (l : list AlertRecord) : list AlertRecord :=
  match l with
  | [] => [r]
  | x :: l' => if Z.leb (SE r) (SE x) then r :: l else x :: insert_by_SE r l'
  end.

Definition sort_by_SE (l : list AlertRecord) : list AlertRecord :=
  foldr insert_by_SE [] l.

(** State capitals, as in the table of [fetchNationalOverview]. *)
Record Capital : Type := {
  name : string;
  geocode : Z;
  uf : string;
}.

(** [{ ...cap, data, latest }] *)
Record OverviewEntry : Type := {
  capital : Capital;
  data : list AlertRecord;
  latest : option AlertRecord;
}.

(** The module's [cache]. Its keys are 'states', 'municipios-...',
    'brazil-geo', 'disease|...' and 'national|...'; keys of different
    operations differ in their first character, so the one [Map] is kept
    here as one map per kind of value. Only the series and the overviews
    are needed below. *)
Record ApiCache : Type := {
  series : gmap string (list AlertRecord);
  overviews : gmap string (list OverviewEntry);
}.

Definition set_series (m : gmap string (list AlertRecord)) (c : ApiCache) : ApiCache :=
  {| series := m; overviews := overviews c |}.
Definition set_overviews (m : gmap string (list OverviewEntry)) (c : ApiCache) : ApiCache :=
  {| series := series c; overviews := m |}.

Definition disease_key (geocode : Z) (disease : string)
    (ewStart ewEnd eyStart eyEnd : Z) : string :=
  cacheKey ["disease"; pretty geocode; disease; pretty ewStart; pretty ewEnd;
            pretty eyStart; pretty eyEnd]%string.

(** The fetcher passed by [fetchDiseaseData]. *)
Definition disease_fetcher (net : Network) (geocode : Z) (disease : string)
    (ewStart ewEnd eyStart eyEnd : Z) (c : ApiCache)
    : ApiCache * Settled (list AlertRecord) :=
  (c, match net geocode disease ewStart ewEnd eyStart eyEnd with
      | NetworkError => Rejected "Failed to fetch"
      | HttpError => Rejected ("Falha ao carregar dados de " ++ disease)
      | BadJson => Rejected "SyntaxError"
      | JsonArray data => Fulfilled (sort_by_SE data)
      | JsonOther => Rejected "TypeError"
      end%string).

Definition fetchDiseaseData (net : Network) (geocode : Z) (disease : string)
    (ewStart ewEnd eyStart eyEnd : Z) (c : ApiCache)
    : ApiCache * Settled (list AlertRecord) :=
  fst (cachedFetch series set_series
         (disease_key geocode disease ewStart ewEnd eyStart eyEnd)
         (disease_fetcher net geocode disease ewStart ewEnd eyStart eyEnd) c).

Definition mkCapital (n : string) (g : Z) (u : string) : Capital :=
  {| name := n; geocode := g; uf := u |}.

Definition capitals : list Capital :=
  [ mkCapital "São Paulo" 3550308 "SP"; mkCapital "Rio de Janeiro" 3304557 "RJ";
    mkCapital "Belo Horizonte" 3106200 "MG"; mkCapital "Salvador" 2927408 "BA";
    mkCapital "Brasília" 5300108 "DF"; mkCapital "Fortaleza" 2304400 "CE";
    mkCapital "Manaus" 1302603 "AM"; mkCapital "Curitiba" 4106902 "PR";
    mkCapital "Recife" 2611606 "PE"; mkCapital "Goiânia" 5208707 "GO";
    mkCapital "Belém" 1501402 "PA"; mkCapital "Porto Alegre" 4314902 "RS";
    mkCapital "São Luís" 2111300 "MA"; mkCapital "Maceió" 2704302 "AL";
    mkCapital "Campo Grande" 5002704 "MS"; mkCapital "Natal" 2408102 "RN";
    mkCapital "Teresina" 2211001 "PI"; mkCapital "João Pessoa" 2507507 "PB";
    mkCapital "Aracaju" 2800308 "SE"; mkCapital "Cuiabá" 5103403 "MT";
    mkCapital "Florianópolis" 4205407 "SC"; mkCapital "Vitória" 3205309 "ES";
    mkCapital "Porto Velho" 1100205 "RO"; mkCapital "Macapá" 1600303 "AP";
    mkCapital "Rio Branco" 1200401 "AC"; mkCapital "Boa Vista" 1400100 "RR";
    mkCapital "Palmas" 1721000 "TO" ]%string.

(** What [new Date()] contributes: the year and the number of whole days
    since its first of January. *)
Record Clock : Type := {
  currentYear : Z;
  dayOfYear : Z;
}.

(** [Math.min(Math.ceil(dayOfYear / 7), 52)] *)
Definition currentEW (now : Clock) : Z := Z.min ((dayOfYear now + 6) / 7) 52.
(** [Math.max(1, currentEW - 4)] *)
Definition startEW (now : Clock) : Z := Z.max 1 (currentEW now - 4).

(** [data.length > 0 ? data[data.length - 1] : null] *)
Definition latest_of (data : list AlertRecord) : option AlertRecord := last data.

(** The async arrow mapped over [capitals], with its [try]/[catch]. *)
Definition capital_task (net : Network) (now : Clock) (disease : string)
    (cap : Capital) (c : ApiCache) : ApiCache * Settled OverviewEntry :=
  let '(c1, outcome) :=
    fetchDiseaseData net (geocode cap) disease (startEW now) (currentEW now)
      (currentYear now) (currentYear now) c in
  (c1, match outcome with
       | Fulfilled data =>
           Fulfilled {| capital := cap; data := data; latest := latest_of data |}
       | Rejected _ =>
           Fulfilled {| capital := cap; data := []; latest := None |}
       end).

(** [Promise.allSettled(capitals.map(...))]: every task runs, and each
    outcome is kept in its position. *)
Fixpoint allSettled_tasks (net : Network) (now : Clock) (disease : string)
    (caps : list Capital) (c : ApiCache)
    : ApiCache * list (Settled OverviewEntry) :=
  match caps with
  | [] => (c, [])
  | cap :: caps' =>
      let '(c1, r) := capital_task net now disease cap c in
      let '(c2, rs) := allSettled_tasks net now disease caps' c1 in
      (c2, r :: rs)
  end.

(** [results.filter(r => r.status === 'fulfilled').map(r => r.value)] *)
Fixpoint fulfilled_values {A : Type} (results : list (Settled A)) : list A :=
  match results with
  | [] => []
  | Fulfilled v :: rs => v :: fulfilled_values rs
  | Rejected _ :: rs => fulfilled_values rs
  end.

Definition national_key (disease : string) : string :=
  cacheKey ["national"; disease]%string.

(** The fetcher passed by [fetchNationalOverview]. *)
Definition national_fetcher (net : Network) (now : Clock) (disease : string)
    (c : ApiCache) : ApiCache * Settled (list OverviewEntry) :=
  let '(c1, results) := allSettled_tasks net now disease capitals c in
  (c1, Fulfilled (fulfilled_values results)).

Definition fetchNationalOverview (net : Network) (now : Clock) (disease : string)
    (c : ApiCache) : ApiCache * Settled (list OverviewEntry) :=
  fst (cachedFetch overviews set_overviews (national_key disease)
         (national_fetcher net now disease) c).

(** The calls the rest of the application makes on these two operations. *)
Inductive ApiCall : Type :=
  | CallDisease (geocode : Z) (disease : string) (ewStart ewEnd eyStart eyEnd : Z)
  | CallNational (disease : string).

Definition api_step (net : Network) (now : Clock) (c : ApiCache) (call : ApiCall)
    : ApiCache :=
  match call with
  | CallDisease g d ws we ys ye => fst (fetchDiseaseData net g d ws we ys ye c)
  | CallNational d => fst (fetchNationalOverview net now d c)
  end.

Definition empty_cache : ApiCache := {| series := ∅; overviews := ∅ |}.

(** The caches a session can reach: each call may see another answer of
    the network and another date. *)
Inductive reachable : ApiCache -> Prop :=
  | reachable_empty : reachable empty_cache
  | reachable_step c net now call :
      reachable c -> reachable (api_step net now c call).

(** The entry the async arrow yields for a capital, from the outcome of
    its [fetchDiseaseData]. *)
Definition entry_for (cap : Capital) (outcome : Settled (list AlertRecord))
    : OverviewEntry :=
  match outcome with
  | Fulfilled records => {| capital := cap; data := records; latest := latest_of records |}
  | Rejected _ => {| capital := cap; data := []; latest := None |}
  end.

(** What every stored overview satisfies. *)
Definition overview_ok (entries : list OverviewEntry) : Prop :=
  map capital entries = capitals
  /\ Forall (fun e => latest e = latest_of (data e)) entries.

(** ... in a cache. *)
Definition overviews_ok (c : ApiCache) : Prop :=
  forall key entries, overviews c !! key = Some entries -> overview_ok entries.

(** [getAlertColorHex]: the object literal
    [{ 1: '#22c55e', 2: '#eab308', 3: '#f97316', 4: '#ef4444' }] read at
    the property key of [nivel]. A number's key is one of "1".."4" exactly
    when its value is that integer; the keys "null", "undefined", "NaN",
    "Infinity" and "-Infinity" name no property of the object. *)
Definition colors (nivel : JsLevel) : option string :=
  match nivel with
  | LNum (JFinite q) =>
      if decide (q = Q2Qc (inject_Z 1)) then Some "#22c55e"%string
      else if decide (q = Q2Qc (inject_Z 2)) then Some "#eab308"%string
      else if decide (q = Q2Qc (inject_Z 3)) then Some "#f97316"%string
      else if decide (q = Q2Qc (inject_Z 4)) then Some "#ef4444"%string
      else None
  | _ => None
  end.

(** [a || b] on a looked-up colour: [undefined] and the empty string are
    falsy. *)
Definition or_else (a : option string) (b : option string) : option string :=
  match a with
  | Some s => if decide (s = ""%string) then b else a
  | None => b
  end.

(** [return colors[nivel] || colors[1]]; [None] stands for [undefined]. *)
Definition getAlertColorHex (nivel : JsLevel) : option string :=
  or_else (colors nivel) (colors (levelInt 1)).

End Api.

(** ** components/map.js *)
Module MapView.

Definition MUNICIPIO_ZOOM_THRESHOLD : Z := 6.

(** UF codes, as [codarea] gives them in the IBGE GeoJSON. *)
Definition UF_IDS : list Z :=
  [11; 12; 13; 14; 15; 16; 17; 21; 22; 23; 24; 25; 26; 27; 28; 29;
   31; 32; 33; 35; 41; 42; 43; 50; 51; 52; 53].

(** The [alertMap] a bulk alert lookup resolves to: municipality geocode
    to its latest record. *)
Abbreviation AlertMap := (gmap Z Api.AlertRecord).

Record Style : Type := {
  fillColor : option string;
  fillOpacity : Q;
}.

(** The [style] callback of a municipality layer, for the feature whose
    [Number(feature.properties.codarea)] is [geocode]. *)
Definition municipio_style (alertMap : AlertMap) (geocode : Z) : Style :=
  match alertMap !! geocode with
  | Some alert =>
      {| fillColor := Api.getAlertColorHex (Api.nivel alert); fillOpacity := 0.6 |}
  | None =>
      {| fillColor := Some "rgba(30, 41, 59, 0.4)"%string; fillOpacity := 0.25 |}
  end.

Section Component.
(** Leaflet's bounds and the GeoJSON documents are left abstract. *)
Context {Bounds GeoJSON : Type}.
(** [bounds.intersects(layerBounds)]; [None] when the call throws. *)
Variable intersects : Bounds -> Bounds -> option bool.
(** The table [MAJOR_CITIES_BY_UF] imported from the API service: the
    curated municipalities of a unit, if it has any. *)
Variable MAJOR_CITIES_BY_UF : Z -> option (list Z).
(** Whether [L.geoJSON(geojson, options)] returns normally. *)
Variable renders : GeoJSON -> bool.

(** *** State layers and the visible-state resolver *)

(** [layer.feature]: its [properties] object may be missing; otherwise
    the field carries [Number(feature.properties.codarea)]. *)
Inductive Feature : Type :=
  | NoProperties
  | Properties (codarea : JsNumber).

(** [layer.getBounds]: absent, throwing when called, or returning. *)
Inductive GetBounds : Type :=
  | NoGetBounds
  | GetBoundsThrows
  | GetBoundsReturns (layerBounds : Bounds).

Record StateLayer : Type := {
  feature : option Feature;
  getBounds : GetBounds;
}.

(** [UF_IDS.includes(ufId)], returning the code that matched. *)
Definition UF_IDS_includes (ufId : JsNumber) : option Z :=
  List.find (fun id => bool_decide (ufId = jsInt id)) UF_IDS.

(** The body of the [try] block for one layer: what is pushed, if
    anything, or the exception. *)
Definition visible_try (bounds : Bounds) (f : Feature) (gb : GetBounds)
    : Settled (option Z) :=
  match gb with
  | NoGetBounds => Rejected "TypeError"
  | GetBoundsThrows => Rejected "Error"
  | GetBoundsReturns layerBounds =>
      match intersects bounds layerBounds with
      | None => Rejected "TypeError"
      | Some false => Fulfilled None
      | Some true =>
          match f with
          | NoProperties => Rejected "TypeError"
          | Properties codarea => Fulfilled (UF_IDS_includes codarea)
          end
      end
  end.

(** The callback of [geoLayer.eachLayer]: the guard, then the [try]
    with its empty [catch]. *)
Definition visible_each (bounds : Bounds) (visible : list Z) (layer : StateLayer)
    : list Z :=
  match feature layer, getBounds layer with
  | None, _ => visible
  | _, NoGetBounds => visible
  | Some f, gb =>
      match visible_try bounds f gb with
      | Fulfilled (Some ufId) => visible ++ [ufId]
      | Fulfilled None => visible
      | Rejected _ => visible
      end
  end.

Definition getVisibleUFs (bounds : Bounds) (geoLayer : option (list StateLayer))
    : list Z :=
  match geoLayer with
  | None => []
  | Some layers => fold_left (visible_each bounds) layers []
  end.

(** What one layer contributes to [visible]. *)
Definition pushed (bounds : Bounds) (layer : StateLayer) : list Z :=
  visible_each bounds [] layer.

(** *** Municipality layers *)

(** A layer built by [L.geoJSON(geojson, ...)]: Leaflet's stamp, the
    document, and the [alertMap] its [style] closes over. [styledFor]
    records the disease the [alertMap] was requested for. *)
Record MunicipioLayer : Type := {
  stamp : nat;
  geojson : GeoJSON;
  alertMap : AlertMap;
  styledFor : string;
}.

(** A call of [loadMunicipioLayer] suspended at its [await], with the
    arguments of the two requests it issued. *)
Record Suspended : Type := {
  s_ufId : Z;
  s_cities : list Z;
  s_disease : string;
}.

Inductive Request : Type :=
  | StateGeoJSON (ufId : Z)
  | BulkMunicipioAlerts (cities : list Z) (disease : string).

(** The module-level variables, the part of the Leaflet map the
    component reads and writes, and the requests issued so far. *)
Record State : Type := {
  zoom : Z;
  viewport : Bounds;
  geoLayer : option (list StateLayer);
  currentDisease : string;
  loadedMunicipioLayers : gmap Z MunicipioLayer;
  loadingStates : gset Z;
  municipioAlertCache : gmap Z AlertMap;
  onMap : gset nat;
  suspended : list Suspended;
  requests : list Request;
  nextStamp : nat;
}.

Definition set_view (z : Z) (b : Bounds) (s : State) : State :=
  {| zoom := z; viewport := b; geoLayer := geoLayer s;
     currentDisease := currentDisease s;
     loadedMunicipioLayers := loadedMunicipioLayers s;
     loadingStates := loadingStates s;
     municipioAlertCache := municipioAlertCache s; onMap := onMap s;
     suspended := suspended s; requests := requests s;
     nextStamp := nextStamp s |}.

Definition set_geoLayer (g : option (list StateLayer)) (s : State) : State :=
  {| zoom := zoom s; viewport := viewport s; geoLayer := g;
     currentDisease := currentDisease s;
     loadedMunicipioLayers := loadedMunicipioLayers s;
     loadingStates := loadingStates s;
     municipioAlertCache := municipioAlertCache s; onMap := onMap s;
     suspended := suspended s; requests := requests s;
     nextStamp := nextStamp s |}.

Definition set_currentDisease (d : string) (s : State) : State :=
  {| zoom := zoom s; viewport := viewport s; geoLayer := geoLayer s;
     currentDisease := d;
     loadedMunicipioLayers := loadedMunicipioLayers s;
     loadingStates := loadingStates s;
     municipioAlertCache := municipioAlertCache s; onMap := onMap s;
     suspended := suspended s; requests := requests s;
     nextStamp := nextStamp s |}.

Definition set_loaded (m : gmap Z MunicipioLayer) (s : State) : State :=
  {| zoom := zoom s; viewport := viewport s; geoLayer := geoLayer s;
     currentDisease := currentDisease s;
     loadedMunicipioLayers := m;
     loadingStates := loadingStates s;
     municipioAlertCache := municipioAlertCache s; onMap := onMap s;
     suspended := suspended s; requests := requests s;
     nextStamp := nextStamp s |}.

Definition set_loading (l : gset Z) (s : State) : State :=
  {| zoom := zoom s; viewport := viewport s; geoLayer := geoLayer s;
     currentDisease := currentDisease s;
     loadedMunicipioLayers := loadedMunicipioLayers s;
     loadingStates := l;
     municipioAlertCache := municipioAlertCache s; onMap := onMap s;
     suspended := suspended s; requests := requests s;
     nextStamp := nextStamp s |}.

Definition set_alertCache (c : gmap Z AlertMap) (s : State) : State :=
  {| zoom := zoom s; viewport := viewport s; geoLayer := geoLayer s;
     currentDisease := currentDisease s;
     loadedMunicipioLayers := loadedMunicipioLayers s;
     loadingStates := loadingStates s;
     municipioAlertCache := c; onMap := onMap s;
     suspended := suspended s; requests := requests s;
     nextStamp := nextStamp s |}.

Definition set_onMap (o : gset nat) (s : State) : State :=
  {| zoom := zoom s; viewport := viewport s; geoLayer := geoLayer s;
     currentDisease := currentDisease s;
     loadedMunicipioLayers := loadedMunicipioLayers s;
     loadingStates := loadingStates s;
     municipioAlertCache := municipioAlertCache s; onMap := o;
     suspended := suspended s; requests := requests s;
     nextStamp := nextStamp s |}.

Definition set_suspended (l : list Suspended) (s : State) : State :=
  {| zoom := zoom s; viewport := viewport s; geoLayer := geoLayer s;
     currentDisease := currentDisease s;
     loadedMunicipioLayers := loadedMunicipioLayers s;
     loadingStates := loadingStates s;
     municipioAlertCache := municipioAlertCache s; onMap := onMap s;
     suspended := l; requests := requests s;
     nextStamp := nextStamp s |}.

Definition set_requests (l : list Request) (s : State) : State :=
  {| zoom := zoom s; viewport := viewport s; geoLayer := geoLayer s;
     currentDisease := currentDisease s;
     loadedMunicipioLayers := loadedMunicipioLayers s;
     loadingStates := loadingStates s;
     municipioAlertCache := municipioAlertCache s; onMap := onMap s;
     suspended := suspended s; requests := l;
     nextStamp := nextStamp s |}.

Definition set_nextStamp (n : nat) (s : State) : State :=
  {| zoom := zoom s; viewport := viewport s; geoLayer := geoLayer s;
     currentDisease := currentDisease s;
     loadedMunicipioLayers := loadedMunicipioLayers s;
     loadingStates := loadingStates s;
     municipioAlertCache := municipioAlertCache s; onMap := onMap s;
     suspended := suspended s; requests := requests s;
     nextStamp := n |}.

(** The state [initMap] leaves: zoom 4, nothing loaded or loading. *)
Definition init (b : Bounds) : State :=
  {| zoom := 4; viewport := b; geoLayer := None;
     currentDisease := "dengue";
     loadedMunicipioLayers := ∅; loadingStates := ∅;
     municipioAlertCache := ∅; onMap := ∅;
     suspended := []; requests := []; nextStamp := O |}.

(** [loadMunicipioLayer(ufId)] up to its [await]: the two guards, then
    the unit enters [loadingStates] and both requests are issued with
    the disease current at that moment. *)
Definition loadMunicipioLayer_call (s : State) (ufId : Z) : State :=
  if bool_decide (is_Some (loadedMunicipioLayers s !! ufId))
     || bool_decide (ufId ∈ loadingStates s)
  then s
  else
    match MAJOR_CITIES_BY_UF ufId with
    | None => s
    | Some cities =>
        let pending :=
          {| s_ufId := ufId; s_cities := cities; s_disease := currentDisease s |} in
        set_requests
          (requests s ++ [StateGeoJSON ufId;
                          BulkMunicipioAlerts cities (currentDisease s)])
          (set_suspended (suspended s ++ [pending])
             (set_loading ({[ufId]} ∪ loadingStates s) s))
    end.

(** [loadMunicipioLayer] from its [await] on, once [Promise.all] has
    settled: the [try] body, the [catch], and the [finally]. *)
Definition loadMunicipioLayer_resume (p : Suspended)
    (outcome : Settled (GeoJSON * AlertMap)) (s : State) : State :=
  let ufId := s_ufId p in
  let s_try :=
    match outcome with
    | Rejected _ => s
    | Fulfilled (gj, am) =>
        let s1 := set_alertCache (<[ufId := am]> (municipioAlertCache s)) s in
        if renders gj then
          let layer :=
            {| stamp := nextStamp s1; geojson := gj; alertMap := am;
               styledFor := s_disease p |} in
          set_loaded (<[ufId := layer]> (loadedMunicipioLayers s1))
            (set_onMap ({[stamp layer]} ∪ onMap s1)
               (set_nextStamp (S (nextStamp s1)) s1))
        else s1
    end in
  set_loading (loadingStates s_try ∖ {[ufId]}) s_try.

(** [Object.keys(loadedMunicipioLayers)] *)
Definition loaded_keys (s : State) : list Z :=
  (map_to_list (loadedMunicipioLayers s)).*1.

(** The loop body shared by [removeMunicipioLayers] and [setMapDisease]:
    [map.removeLayer] and [delete loadedMunicipioLayers[ufId]]. *)
Definition remove_layer (s : State) (ufId : Z) : State :=
  match loadedMunicipioLayers s !! ufId with
  | Some layer =>
      set_loaded (delete ufId (loadedMunicipioLayers s))
        (set_onMap (onMap s ∖ {[stamp layer]}) s)
  | None => s
  end.

Definition removeMunicipioLayers (s : State) : State :=
  fold_left remove_layer (loaded_keys s) s.

(** [handleZoomChange]; the restyling of the state layer is left out. *)
Definition handleZoomChange (s : State) : State :=
  if bool_decide (MUNICIPIO_ZOOM_THRESHOLD <= zoom s) then
    fold_left loadMunicipioLayer_call
      (getVisibleUFs (viewport s) (geoLayer s)) s
  else removeMunicipioLayers s.

(** The loop body of [setMapDisease]. *)
Definition clear_unit (s : State) (ufId : Z) : State :=
  let s1 := remove_layer s ufId in
  set_alertCache (delete ufId (municipioAlertCache s1)) s1.

Definition setMapDisease (disease : string) (s : State) : State :=
  let s1 := set_currentDisease disease s in
  let s2 := fold_left clear_unit (loaded_keys s1) s1 in
  if bool_decide (MUNICIPIO_ZOOM_THRESHOLD <= zoom s2) then handleZoomChange s2
  else s2.

(** *** Turns of the event loop *)

Inductive Event : Type :=
  | ViewChange (z : Z) (b : Bounds)
  | SetDisease (disease : string)
  | StateLayerBuilt (layers : list StateLayer)
  | Settle (i : nat) (outcome : Settled (GeoJSON * AlertMap)).

(** One turn: a [zoomend]/[moveend] with the map's new view, a disease
    switch, [loadGeoJSON] replacing the state layer, or the [i]-th
    suspended call resuming. *)
Definition step (s : State) (ev : Event) : State :=
  match ev with
  | ViewChange z b => handleZoomChange (set_view z b s)
  | SetDisease d => setMapDisease d s
  | StateLayerBuilt layers => set_geoLayer (Some layers) s
  | Settle i outcome =>
      match suspended s !! i with
      | Some p =>
          loadMunicipioLayer_resume p outcome
            (set_suspended (delete i (suspended s)) s)
      | None => s
      end
  end.

Definition run (s : State) (evs : list Event) : State := fold_left step evs s.

(** *** Notions used in the statements *)

(** A unit on which [loadMunicipioLayer] returns at once. *)
Definition skipped (s : State) (ufId : Z) : Prop :=
  is_Some (loadedMunicipioLayers s !! ufId) \/ ufId ∈ loadingStates s
  \/ MAJOR_CITIES_BY_UF ufId = None.

(** The units in [loadingStates] are those of the suspended calls, one
    call each, and none of them has a layer. *)
Definition consistent (s : State) : Prop :=
  NoDup (s_ufId <$> suspended s)
  /\ (forall u, u ∈ loadingStates s <-> u ∈ s_ufId <$> suspended s)
  /\ (forall u, u ∈ loadingStates s -> loadedMunicipioLayers s !! u = None).

End Component.

(** [getSanitationOpacity]: the literals are the doubles nearest to 0.35
    and 0.4, as JavaScript reads them, and the operations are those of
    binary64. *)
Definition getSanitationOpacity (percent : float) : float :=
  (0x1.6666666666666p-2 + (percent / 100) * 0x1.999999999999ap-2)%float.

End MapView.

(** ** A concrete session, for the examples *)
Module Scenario.
Import MapView.

(** Bounds in whole degrees, with Leaflet's [LatLngBounds.intersects]. *)
Record Box : Type := { south : Z; west : Z; north : Z; east : Z }.

Definition box_intersects (a b : Box) : option bool :=
  Some ((south a <=? north b) && (south b <=? north a)
        && (west a <=? east b) && (west b <=? east a)).

(** A curated table with one unit: São Paulo and Campinas for UF 35. *)
Definition major_cities (ufId : Z) : option (list Z) :=
  if ufId =? 35 then Some [3550308; 3509502] else None.

(** Documents are the lists of municipality codes they draw. *)
Definition renders_all (gj : list Z) : bool := true.

Definition brazil : Box := {| south := -34; west := -74; north := 6; east := -34 |}.
Definition sp_box : Box := {| south := -26; west := -54; north := -19; east := -44 |}.
Definition am_box : Box := {| south := -10; west := -74; north := 3; east := -56 |}.
Definition over_sp : Box := {| south := -25; west := -49; north := -22; east := -45 |}.

Definition state_layer (code : Z) (b : Box) : StateLayer :=
  {| feature := Some (Properties (jsInt code)); getBounds := GetBoundsReturns b |}.

Definition states : list (@StateLayer Box) :=
  [state_layer 35 sp_box; state_layer 13 am_box].

Definition record (week level : Z) : Api.AlertRecord :=
  {| Api.SE := week; Api.casos := 10; Api.nivel := levelInt level |}.

(** What the bulk lookup answers for dengue in the two cities. *)
Definition dengue_alerts : AlertMap :=
  {[ 3550308 := record 202510 4; 3509502 := record 202510 3 ]}.

Definition sp_geojson : list Z := [3550308; 3509502; 3548500].

Definition step' := step box_intersects major_cities renders_all.
Definition run' := run box_intersects major_cities renders_all.

(** The state layer is drawn, then the user zooms to level 7 over São
    Paulo. *)
Definition zoomed_in : State :=
  run' (init brazil) [StateLayerBuilt states; ViewChange 7 over_sp].

(** ... the disease is switched while the requests for UF 35 are in
    flight, and then they are answered. *)
Definition late_answer : State :=
  run' zoomed_in
    [SetDisease "zika"; Settle 0 (Fulfilled (sp_geojson, dengue_alerts))].

(** ... or the requests are answered first, and then the user zooms out. *)
Definition loaded_35 : State :=
  run' zoomed_in [Settle 0 (Fulfilled (sp_geojson, dengue_alerts))].

Definition zoomed_out : State := run' loaded_35 [ViewChange 4 brazil].
End Scenario.

(** ** Binary64 and the reals

    Notions used to state what the operations of [SpecFloat] compute. *)
Module Binary64.
Local Open Scope R_scope.

Local Abbreviation fexp := (SpecFloat.fexp prec emax).

(** Powers of two and the value of a mantissa at an exponent. *)
Definition pow2 (e : Z) : R := powerRZ 2 e.

Definition F2R (m e : Z) : R := IZR m * pow2 e.

(** Number of binary digits. *)
Definition dig (m : Z) : Z := Zdigits2 m.
Arguments dig : simpl never.

(** Where a real lies with respect to the grid point [m * 2^e] and the
    next one. *)
Definition located (x : R) (m e : Z) (l : location) : Prop :=
  match l with
  | loc_Exact => x = F2R m e
  | loc_Inexact Lt => F2R m e < x < F2R m e + pow2 e / 2
  | loc_Inexact Eq => x = F2R m e + pow2 e / 2
  | loc_Inexact Gt => F2R m e + pow2 e / 2 < x < F2R m e + pow2 e
  end.

(** The mantissa and exponent are those the format has at this
    magnitude. *)
Definition canon (m e : Z) : Prop := fexp (dig m + e) = e.

(** The non-negative numbers of the format, the exponent being unbounded
    above. *)
Definition inF (v : R) : Prop :=
  v = 0 \/ exists m e, (0 < m)%Z /\ canon m e /\ v = F2R m e.

(** [v] is at least as close to [x] as any number of the format. *)
Definition nearest (x v : R) : Prop :=
  forall g, inF g -> Rabs (v - x) <= Rabs (g - x).

(** A pair on the grid of the format: canonical, or zero at the least
    exponent. *)
Definition on_grid (m e : Z) : Prop :=
  (0 <= m)%Z /\ ((0 < m)%Z -> canon m e) /\ (m = 0%Z -> e = (-1074)%Z).

(** What the rounded result denotes: [v] is its value when it is zero or
    finite, and a lower bound when it is the infinity of an overflow. *)
Definition result_is (r : spec_float) (v : R) : Prop :=
  match r with
  | S754_zero _ => v = 0
  | S754_finite false m e => v = F2R (Z.pos m) e /\ bounded prec emax m e = true
  | S754_infinity false => pow2 1024 <= v
  | _ => False
  end.

(** The value of a float, infinities and NaN counting for zero. *)
Definition SF2R (f : spec_float) : R :=
  match f with
  | S754_finite s m e => F2R (cond_Zopp s (Z.pos m)) e
  | _ => 0
  end.

(** A zero of either sign or a positive finite float of binary64. *)
Definition nonneg (f : spec_float) : Prop :=
  match f with
  | S754_zero _ => True
  | S754_finite false m e => bounded prec emax m e = true
  | _ => False
  end.

(** A positive finite float with a full mantissa. *)
Definition normal (c : spec_float) : Prop :=
  match c with
  | S754_finite false m e => bounded prec emax m e = true /\ dig (Z.pos m) = 53%Z
  | _ => False
  end.

(** The constants of the opacity scale: 100, the doubles nearest to 0.4
    and 0.35, and 0.75. *)
Definition c100 : spec_float := S754_finite false 7036874417766400 (-46).
Definition c04 : spec_float := S754_finite false 7205759403792794 (-54).
Definition c035 : spec_float := S754_finite false 6305039478318694 (-54).
Definition c075 : spec_float := S754_finite false 6755399441055744 (-53).

(** The opacity on the floats of the specification. *)
Definition opacitySF (a : spec_float) : spec_float :=
  SF64add c035 (SF64mul (SF64div a c100) c04).

End Binary64.

(** ** JavaScript comparisons on level values *)

(** [ToNumber]: [null] is 0 and [undefined] is NaN. *)
Definition toNumber (v : JsLevel) : JsNumber :=
  match v with
  | LNull => jsInt 0
  | LUndefined => JNaN
  | LNum n => n
  end.

(** [a < b] on numbers; [None] is the undefined outcome of a comparison
    with NaN. *)
Definition js_lt (a b : JsNumber) : option bool :=
  match a, b with
  | JNaN, _ => None
  | _, JNaN => None
  | JInfinity na, JInfinity nb => Some (na && negb nb)
  | JInfinity na, JFinite _ => Some na
  | JFinite _, JInfinity nb => Some (negb nb)
  | JFinite p, JFinite q => Some (bool_decide (p < q)%Qc)
  end.

(** [a > b] is [b < a], false when undefined. *)
Definition js_gt (a b : JsLevel) : bool :=
  match js_lt (toNumber b) (toNumber a) with
  | Some true => true
  | _ => false
  end.

(** [a >= b] is the negation of [a < b], false when undefined. *)
Definition js_ge (a b : JsLevel) : bool :=
  match js_lt (toNumber a) (toNumber b) with
  | Some false => true
  | _ => false
  end.

(** ** services/api.js: the other keys and the lookup tables *)
Module ApiTables.

(** The keys [fetchStates], [fetchMunicipios] and [fetchBrazilGeoJSON]
    pass to [cachedFetch]; [ufId] is taken as the template literal
    renders it. *)
Definition states_key : string := "states".
Definition municipios_key (ufId : string) : string := "municipios-" ++ ufId.
Definition brazil_geo_key : string := "brazil-geo".

(** An object literal with integer keys, read at the property key of a
    number: the key of a number is the numeral of an integer exactly when
    the number is that integer. *)
Definition at_number {A : Type} (table : list (Z * A)) (n : JsNumber) : option A :=
  snd <$> List.find (fun entry => bool_decide (n = jsInt entry.1)) table.

(** ... and at the key of a level value: "null" and "undefined" name no
    property of such a literal. *)
Definition at_level {A : Type} (table : list (Z * A)) (nivel : JsLevel) : option A :=
  match nivel with
  | LNum n => at_number table n
  | _ => None
  end.

(** [a || b] where [a] is a looked-up string. *)
Definition str_or (a : option string) (b : string) : string :=
  match a with
  | Some s => if decide (s = ""%string) then b else s
  | None => b
  end.

(** The [map] of [getUFAbbreviation]. *)
Definition uf_abbreviations : list (Z * string) :=
  [ (11, "RO"); (12, "AC"); (13, "AM"); (14, "RR"); (15, "PA"); (16, "AP"); (17, "TO");
    (21, "MA"); (22, "PI"); (23, "CE"); (24, "RN"); (25, "PB"); (26, "PE"); (27, "AL");
    (28, "SE"); (29, "BA");
    (31, "MG"); (32, "ES"); (33, "RJ"); (35, "SP");
    (41, "PR"); (42, "SC"); (43, "RS");
    (50, "MS"); (51, "MT"); (52, "GO"); (53, "DF") ]%string.

(** [return map[ufId] || ''] *)
Definition getUFAbbreviation (ufId : JsNumber) : string :=
  str_or (at_number uf_abbreviations ufId) "".

(** The abbreviations of the 27 units, in the order of [UF_IDS]. *)
Definition state_abbreviations : list string :=
  (fun ufId => getUFAbbreviation (jsInt ufId)) <$> MapView.UF_IDS.

(** The [regions] of [getRegionForUF], in the order of the literal. *)
Definition regions : list (string * list string) :=
  [ ("norte", ["AC"; "AM"; "AP"; "PA"; "RO"; "RR"; "TO"]);
    ("nordeste", ["AL"; "BA"; "CE"; "MA"; "PB"; "PE"; "PI"; "RN"; "SE"]);
    ("sudeste", ["ES"; "MG"; "RJ"; "SP"]);
    ("sul", ["PR"; "RS"; "SC"]);
    ("centro-oeste", ["DF"; "GO"; "MS"; "MT"]) ]%string.

(** The loop over [Object.entries(regions)] returns the first region
    whose list includes the abbreviation, and 'all' after the loop. *)
Definition getRegionForUF (ufAbbr : string) : string :=
  match List.find (fun entry => bool_decide (ufAbbr ∈ entry.2)) regions with
  | Some entry => entry.1
  | None => "all"
  end.

(** One row of [getSanitationData]; the percentages and the index are
    doubles. *)
Record Sanitation : Type := mkSanitation {
  coletaEsgoto : float;
  tratamentoEsgoto : float;
  idh : float;
  nome : string;
}.

(* The decimal literals below denote the nearest doubles, as they do in
   JavaScript. *)
#[local] Set Warnings "-inexact-float".

Definition sanitation_rows : list (string * Sanitation) :=
  [ ("AC", mkSanitation 14.4 20.8 0.663 "Acre");
    ("AL", mkSanitation 29.6 30.1 0.631 "Alagoas");
    ("AM", mkSanitation 14.2 33.5 0.674 "Amazonas");
    ("AP", mkSanitation 6.1 11.8 0.708 "Amapá");
    ("BA", mkSanitation 35.8 52.4 0.660 "Bahia");
    ("CE", mkSanitation 29.9 42.1 0.682 "Ceará");
    ("DF", mkSanitation 90.5 82.3 0.824 "Distrito Federal");
    ("ES", mkSanitation 57.4 51.7 0.740 "Espírito Santo");
    ("GO", mkSanitation 58.0 67.3 0.735 "Goiás");
    ("MA", mkSanitation 13.7 17.8 0.639 "Maranhão");
    ("MG", mkSanitation 71.4 46.5 0.731 "Minas Gerais");
    ("MS", mkSanitation 46.5 62.8 0.729 "Mato Grosso do Sul");
    ("MT", mkSanitation 36.2 63.7 0.725 "Mato Grosso");
    ("PA", mkSanitation 8.4 15.2 0.646 "Pará");
    ("PB", mkSanitation 36.7 43.2 0.658 "Paraíba");
    ("PE", mkSanitation 32.8 39.5 0.673 "Pernambuco");
    ("PI", mkSanitation 12.8 22.1 0.646 "Piauí");
    ("PR", mkSanitation 74.4 83.1 0.749 "Paraná");
    ("RJ", mkSanitation 65.3 41.8 0.761 "Rio de Janeiro");
    ("RN", mkSanitation 26.9 34.7 0.684 "Rio Grande do Norte");
    ("RO", mkSanitation 7.5 13.9 0.690 "Rondônia");
    ("RR", mkSanitation 22.6 41.2 0.707 "Roraima");
    ("RS", mkSanitation 33.2 44.6 0.746 "Rio Grande do Sul");
    ("SC", mkSanitation 30.8 46.2 0.774 "Santa Catarina");
    ("SE", mkSanitation 23.0 36.8 0.665 "Sergipe");
    ("SP", mkSanitation 89.6 73.4 0.783 "São Paulo");
    ("TO", mkSanitation 27.4 55.3 0.699 "Tocantins") ]%string%float.

(** [getSanitationData()] as the object it returns, read at a string key. *)
Definition getSanitationData : gmap string Sanitation := list_to_map sanitation_rows.

(** One entry of the [levels] of [getAlertLevel]. *)
Record AlertLevel : Type := mkAlertLevel {
  label : string;
  color : string;
  bg : string;
  class : string;
}.

Definition levels : list (Z * AlertLevel) :=
  [ (1, mkAlertLevel "Verde" "var(--alert-green)" "rgba(34, 197, 94, 0.15)" "badge--green");
    (2, mkAlertLevel "Atenção" "var(--alert-yellow)" "rgba(234, 179, 8, 0.15)" "badge--yellow");
    (3, mkAlertLevel "Alerta" "var(--alert-orange)" "rgba(249, 115, 22, 0.15)" "badge--orange");
    (4, mkAlertLevel "Emergência" "var(--alert-red)" "rgba(239, 68, 68, 0.15)" "badge--red")
  ]%string.

(** [return levels[nivel] || levels[1]]; an entry is an object, hence
    truthy. *)
Definition getAlertLevel (nivel : JsLevel) : option AlertLevel :=
  match at_level levels nivel with
  | Some entry => Some entry
  | None => at_level levels (levelInt 1)
  end.

End ApiTables.

(** ** components/map.js: popups and the style of the state layer *)
Module StateMap.
Import ApiTables.

(** The two literals of the popups, [alertInfo] and [alertClass]. *)
Definition alertInfo : list (Z * string) :=
  [ (1, "Verde"); (2, "Atenção"); (3, "Alerta"); (4, "Emergência") ]%string.
Definition alertClass : list (Z * string) :=
  [ (1, "badge--green"); (2, "badge--yellow"); (3, "badge--orange"); (4, "badge--red")
  ]%string.

(** [alertInfo[d.nivel] || 'Verde'] and
    [alertClass[d.nivel] || 'badge--green'] *)
Definition popup_label (nivel : JsLevel) : string :=
  str_or (at_level alertInfo nivel) "Verde".
Definition popup_class (nivel : JsLevel) : string :=
  str_or (at_level alertClass nivel) "badge--green".

#[local] Set Warnings "-inexact-float".

(** [getSanitationColor] *)
Definition getSanitationColor (percent : float) : string :=
  if (80 <=? percent)%float then "#06b6d4"
  else if (60 <=? percent)%float then "#22d3ee"
  else if (40 <=? percent)%float then "#67e8f9"
  else if (20 <=? percent)%float then "#f59e0b"
  else "#ef4444".

(** [currentMapLayer], one of the three values the module gives it:
    'disease', 'coletaEsgoto' or 'tratamentoEsgoto'. *)
Inductive MapLayer : Type :=
  | DiseaseLayer
  | ColetaEsgotoLayer
  | TratamentoEsgotoLayer.

(** [sanitation[currentMapLayer]] on a sanitation layer. *)
Definition layer_value (layer : MapLayer) (s : Sanitation) : option float :=
  match layer with
  | DiseaseLayer => None
  | ColetaEsgotoLayer => Some (coletaEsgoto s)
  | TratamentoEsgotoLayer => Some (tratamentoEsgoto s)
  end.

(** [v || 0] on a number that may be missing: zero and NaN are falsy. *)
Definition or_zero (v : option float) : float :=
  match v with
  | Some x => if is_zero x || is_nan x then 0%float else x
  | None => 0%float
  end.

(** [diseaseByUF]: the entries with a latest record, by their [uf]; a
    later entry replaces an earlier one with the same [uf]. *)
Definition diseaseByUF_each (m : gmap string Api.OverviewEntry)
    (cap : Api.OverviewEntry) : gmap string Api.OverviewEntry :=
  match Api.latest cap with
  | Some _ => <[Api.uf (Api.capital cap) := cap]> m
  | None => m
  end.

Definition diseaseByUF (capitalData : list Api.OverviewEntry)
    : gmap string Api.OverviewEntry :=
  fold_left diseaseByUF_each capitalData ∅.

(** What the [style] callback returns, without the constant stroke. *)
Record StateStyle : Type := {
  fillColor : option string;
  fillOpacity : float;
}.

(** [currentRegion !== 'all' && region !== currentRegion] *)
Definition outside_region (currentRegion region : string) : bool :=
  negb (String.eqb currentRegion "all") && negb (String.eqb region currentRegion).

(** The [style] callback of [loadGeoJSON], for the feature whose
    [Number(feature.properties.codarea)] is [codarea]; [zoom] is
    [map.getZoom()]. *)
Definition state_style (currentRegion : string) (currentMapLayer : MapLayer)
    (byUF : gmap string Api.OverviewEntry) (zoom : Z) (codarea : JsNumber)
    : StateStyle :=
  let ufAbbr := getUFAbbreviation codarea in
  let region := getRegionForUF ufAbbr in
  let sanitation := getSanitationData !! ufAbbr in
  let outside := outside_region currentRegion region in
  let base :=
    {| fillColor := Some "#1e293b"%string;
       fillOpacity := if outside then 0.15%float else 0.6%float |} in
  let styled :=
    match currentMapLayer with
    | DiseaseLayer =>
        match byUF !! ufAbbr with
        | Some capData =>
            match Api.latest capData with
            | Some d =>
                {| fillColor := Api.getAlertColorHex (Api.nivel d);
                   fillOpacity := if outside then 0.15%float else 0.55%float |}
            | None => base
            end
        | None => base
        end
    | _ =>
        match sanitation with
        | Some s =>
            let val := or_zero (layer_value currentMapLayer s) in
            {| fillColor := Some (getSanitationColor val);
               fillOpacity :=
                 if outside then 0.15%float else MapView.getSanitationOpacity val |}
        | None => base
        end
    end in
  if bool_decide (MapView.MUNICIPIO_ZOOM_THRESHOLD <= zoom)
  then {| fillColor := fillColor styled; fillOpacity := 0.1%float |}
  else styled.

End StateMap.

(** ** components/cards.js: what the cards and the summary aggregate *)
Module Cards.

(** The body of [nationalData.forEach] in [renderCards], as far as
    [maxLevel] goes. *)
Definition maxLevel_each (maxLevel : JsLevel) (cap : Api.OverviewEntry) : JsLevel :=
  match Api.latest cap with
  | Some d => if js_gt (Api.nivel d) maxLevel then Api.nivel d else maxLevel
  | None => maxLevel
  end.

(** [maxLevel] after the aggregation; [None] stands for a [nationalData]
    that is [null] or not an array. *)
Definition maxLevel (nationalData : option (list Api.OverviewEntry)) : JsLevel :=
  match nationalData with
  | Some caps => fold_left maxLevel_each caps (levelInt 1)
  | None => levelInt 1
  end.

(** [getAlertLevel(maxLevel)], whose label and class the badge shows. *)
Definition card_badge (nationalData : option (list Api.OverviewEntry))
    : option ApiTables.AlertLevel :=
  ApiTables.getAlertLevel (maxLevel nationalData).

(** The body of [nationalData.forEach] in [updateNationalSummary], as
    far as [alertCities] goes. *)
Definition alertCities_each (alertCities : nat) (cap : Api.OverviewEntry) : nat :=
  match Api.latest cap with
  | Some d => if js_ge (Api.nivel d) (levelInt 3) then S alertCities else alertCities
  | None => alertCities
  end.

(** [alertCities] as [updateNationalSummary] writes it; [None] when the
    function returns before writing anything. *)
Definition alertCities (nationalData : option (list Api.OverviewEntry)) : option nat :=
  match nationalData with
  | None => None
  | Some [] => None
  | Some caps => Some (fold_left alertCities_each caps O)
  end.

(** What the two aggregations keep, [M] being [maxLevel] and [n] the
    number of alert cities after the same entries: [M] is at least 1, no
    level seen so far exceeds it, it is 1 or one of these levels, and it
    is at least 3 exactly when a city has been counted. *)
Definition aggregates_agree (seen : list Api.OverviewEntry) (M : JsLevel) (n : nat)
    : Prop :=
  js_lt (toNumber M) (jsInt 1) = Some false
  /\ (forall cap d, cap ∈ seen -> Api.latest cap = Some d ->
         js_gt (Api.nivel d) M = false)
  /\ (M = levelInt 1
      \/ exists cap d, cap ∈ seen /\ Api.latest cap = Some d /\ M = Api.nivel d)
  /\ ((0 < n)%nat <-> js_ge M (levelInt 3) = true).

End Cards.

(** ** components/charts.js: labels and the series of the main chart *)
Module Charts.

Definition CHART_COLORS : list string :=
  [ "#38bdf8"; "#f59e0b"; "#34d399"; "#ec4899"; "#a78bfa";
    "#fb923c"; "#22d3ee"; "#f472b6"; "#4ade80"; "#c084fc" ]%string.

(** Whether a string holds a character. *)
Fixpoint holds (c : ascii) (s : string) : bool :=
  match s with
  | EmptyString => false
  | String x s' => if Ascii.eqb x c then true else holds c s'
  end.

(** [formatSE]: [Math.floor(se / 100)] and [se % 100], whose sign is
    that of [se]. *)
Definition formatSE (se : Z) : string :=
  let year := se / 100 in
  let week := Z.rem se 100 in
  ("SE " ++ pretty week ++ "/" ++ pretty year)%string.

Definition formatSEShort (se : Z) : string :=
  ("SE " ++ pretty (Z.rem se 100))%string.

(** The fields of a dataset of the main chart that depend on the data. *)
Record Dataset : Type := {
  label : string;
  data : list Z;
  borderColor : option string;
  fill : bool;
}.

(** [d.casos || 0] *)
Definition casos_or_zero (d : Api.AlertRecord) : Z :=
  if decide (Api.casos d = 0) then 0 else Api.casos d.

(** The variables of the loop of [renderMainChart]. *)
Record Loop : Type := {
  datasets : list Dataset;
  labels : list string;
  colorIdx : nat;
}.

(** The body of [for (const [locationName, data] of datasetsMap)]. *)
Definition main_each (acc : Loop) (entry : string * list Api.AlertRecord) : Loop :=
  let '(locationName, series) := entry in
  match series with
  | [] => acc
  | _ :: _ =>
      let labels' :=
        if bool_decide (length (labels acc) = O)
        then (fun d => formatSEShort (Api.SE d)) <$> series
        else labels acc in
      let color := CHART_COLORS !! (colorIdx acc mod length CHART_COLORS)%nat in
      {| datasets :=
           datasets acc ++
           [ {| label := locationName;
                data := casos_or_zero <$> series;
                borderColor := color;
                fill := bool_decide (length (datasets acc) = O) |} ];
         labels := labels';
         colorIdx := S (colorIdx acc) |}
  end.

(** What [renderMainChart] hands to [new Chart]: the labels and the
    datasets; [None] when it returns without drawing a chart. The map is
    the list of its entries in insertion order. *)
Definition renderMainChart (datasetsMap : option (list (string * list Api.AlertRecord)))
    : option (list string * list Dataset) :=
  match datasetsMap with
  | None => None
  | Some [] => None
  | Some entries =>
      let acc := fold_left main_each entries
                   {| datasets := []; labels := []; colorIdx := O |} in
      match datasets acc with
      | [] => None
      | _ :: _ => Some (labels acc, datasets acc)
      end
  end.

(** The dataset made for the [i]-th series that is not empty. *)
Definition dataset_of (i : nat) (entry : string * list Api.AlertRecord) : Dataset :=
  {| label := entry.1; data := casos_or_zero <$> entry.2;
     borderColor := CHART_COLORS !! (i mod 10)%nat; fill := bool_decide (i = O) |}.

(** The labels taken from the first drawn series. *)
Definition labels_of (shown : list (string * list Api.AlertRecord)) : list string :=
  match shown with
  | [] => []
  | entry :: _ => (fun d => formatSEShort (Api.SE d)) <$> entry.2
  end.

(** The series that are drawn: those that are not empty. *)
Definition drawn (entries : list (string * list Api.AlertRecord))
    : list (string * list Api.AlertRecord) :=
  filter (fun entry => entry.2 <> []) entries.

(** The loop variables after the entries [seen]. *)
Definition loop_after (seen : list (string * list Api.AlertRecord)) (acc : Loop) : Prop :=
  datasets acc = imap dataset_of (drawn seen)
  /\ labels acc = labels_of (drawn seen)
  /\ colorIdx acc = length (drawn seen).

End Charts.

(** ** components/map.js: notions about the municipality layers *)
Module LayerNotions.
Import MapView.

Section Notions.
Context {Bounds GeoJSON : Type}.
Variable intersects : Bounds -> Bounds -> option bool.
Variable MAJOR_CITIES_BY_UF : Z -> option (list Z).
Variable renders : GeoJSON -> bool.
Implicit Types (s : @State Bounds GeoJSON).

(** The municipality layers on the map are those of the table: a stamp
    is on the map exactly when it is the stamp of the layer of some unit,
    stamps are older than the next one, and no two units share one. *)
Definition tracked s : Prop :=
  (forall n, n ∈ onMap s
             <-> exists ufId layer,
                   loadedMunicipioLayers s !! ufId = Some layer /\ stamp layer = n)
  /\ (forall ufId layer,
        loadedMunicipioLayers s !! ufId = Some layer -> (stamp layer < nextStamp s)%nat)
  /\ (forall u1 u2 layer1 layer2,
        loadedMunicipioLayers s !! u1 = Some layer1 ->
        loadedMunicipioLayers s !! u2 = Some layer2 ->
        stamp layer1 = stamp layer2 -> u1 = u2).

(** A suspended call holds the cities the table gives for its unit. *)
Definition cities_known s : Prop :=
  forall p, p ∈ suspended s -> MAJOR_CITIES_BY_UF (s_ufId p) = Some (s_cities p).

(** The loaded layers and the requests in flight are for the current
    disease. *)
Definition for_current_disease s : Prop :=
  (forall ufId layer,
      loadedMunicipioLayers s !! ufId = Some layer -> styledFor layer = currentDisease s)
  /\ (forall p, p ∈ suspended s -> s_disease p = currentDisease s).

(** Turns in which the disease is switched only while no call of
    [loadMunicipioLayer] is suspended. *)
Fixpoint quiet_switches s (evs : list (@Event Bounds GeoJSON)) : Prop :=
  match evs with
  | [] => True
  | ev :: evs' =>
      match ev with
      | SetDisease _ => suspended s = []
      | _ => True
      end
      /\ quiet_switches (step intersects MAJOR_CITIES_BY_UF renders s ev) evs'
  end.

End Notions.
End LayerNotions.

(** ** components/map.js: drawing the state layer *)
Module StateLayerLoader.

Section Loader.
Context {GeoJSON : Type}.
(** Whether [L.geoJSON(geojson, options)] returns normally. *)
Variable renders : GeoJSON -> bool.

(** The part of the component [loadGeoJSON] works on: [geoLayer] (the
    stamp of the layer and the capital data its callbacks close over),
    the state layers on the map, [lastCapitalData], [currentMapLayer],
    and the calls of [loadGeoJSON] suspended at their [await], each with
    its [capitalData]. *)
Record Loader : Type := {
  geoLayer : option (nat * list Api.OverviewEntry);
  onMap : gset nat;
  lastCapitalData : list Api.OverviewEntry;
  currentMapLayer : StateMap.MapLayer;
  pending : list (list Api.OverviewEntry);
  nextStamp : nat;
}.

(** The state [initMap] leaves. *)
Definition init : Loader :=
  {| geoLayer := None; onMap := ∅; lastCapitalData := [];
     currentMapLayer := StateMap.DiseaseLayer; pending := []; nextStamp := O |}.

(** [loadGeoJSON(capitalData)] up to [await fetchBrazilGeoJSON()]. *)
Definition loadGeoJSON_call (capitalData : list Api.OverviewEntry) (s : Loader) : Loader :=
  {| geoLayer := geoLayer s; onMap := onMap s; lastCapitalData := capitalData;
     currentMapLayer := currentMapLayer s; pending := pending s ++ [capitalData];
     nextStamp := nextStamp s |}.

(** [loadGeoJSON] from its [await] on: a rejection, or an exception
    while the layer is built, goes to the [catch]. *)
Definition loadGeoJSON_resume (capitalData : list Api.OverviewEntry)
    (outcome : Settled GeoJSON) (s : Loader) : Loader :=
  match outcome with
  | Rejected _ => s
  | Fulfilled geojson =>
      let removed :=
        match geoLayer s with
        | Some (old, _) => onMap s ∖ {[old]}
        | None => onMap s
        end in
      if renders geojson then
        {| geoLayer := Some (nextStamp s, capitalData);
           onMap := {[nextStamp s]} ∪ removed;
           lastCapitalData := lastCapitalData s;
           currentMapLayer := currentMapLayer s; pending := pending s;
           nextStamp := S (nextStamp s) |}
      else
        {| geoLayer := geoLayer s; onMap := removed;
           lastCapitalData := lastCapitalData s;
           currentMapLayer := currentMapLayer s; pending := pending s;
           nextStamp := nextStamp s |}
  end.

(** [setMapLayer(layer)], without the legend. *)
Definition setMapLayer (layer : StateMap.MapLayer) (s : Loader) : Loader :=
  let s1 :=
    {| geoLayer := geoLayer s; onMap := onMap s; lastCapitalData := lastCapitalData s;
       currentMapLayer := layer; pending := pending s; nextStamp := nextStamp s |} in
  match geoLayer s1 with
  | Some _ => loadGeoJSON_call (lastCapitalData s1) s1
  | None => s1
  end.

(** [updateMapColors(capitalData)] *)
Definition updateMapColors (capitalData : list Api.OverviewEntry) (s : Loader) : Loader :=
  match geoLayer s with
  | Some _ => loadGeoJSON_call capitalData s
  | None => s
  end.

Inductive LoaderEvent : Type :=
  | LoadGeoJSON (capitalData : list Api.OverviewEntry)
  | SetMapLayer (layer : StateMap.MapLayer)
  | UpdateMapColors (capitalData : list Api.OverviewEntry)
  | Resume (i : nat) (outcome : Settled GeoJSON).

(** One turn of the event loop: one of the three exported operations,
    or the [i]-th suspended call resuming. *)
Definition loader_step (s : Loader) (ev : LoaderEvent) : Loader :=
  match ev with
  | LoadGeoJSON capitalData => loadGeoJSON_call capitalData s
  | SetMapLayer layer => setMapLayer layer s
  | UpdateMapColors capitalData => updateMapColors capitalData s
  | Resume i outcome =>
      match pending s !! i with
      | Some capitalData =>
          loadGeoJSON_resume capitalData outcome
            {| geoLayer := geoLayer s; onMap := onMap s;
               lastCapitalData := lastCapitalData s;
               currentMapLayer := currentMapLayer s;
               pending := delete i (pending s); nextStamp := nextStamp s |}
      | None => s
      end
  end.

Definition loader_run (s : Loader) (evs : list LoaderEvent) : Loader :=
  fold_left loader_step evs s.

(** Only the layer [geoLayer] refers to can be on the map. *)
Definition single_layer (s : Loader) : Prop :=
  forall n, n ∈ onMap s -> exists capitalData, geoLayer s = Some (n, capitalData).

End Loader.
End StateLayerLoader.

(** ** Properties *)

(** Zooming from level 4 to level 7 over São Paulo issues one geometry
    request and one bulk alert request, both for UF 35. *)
Example zoomed_in_requests :
  MapView.requests Scenario.zoomed_in
  = [MapView.StateGeoJSON 35; MapView.BulkMunicipioAlerts [3550308; 3509502] "dengue"].
Proof. vm_compute. reflexivity. Qed.

(** *** Cache keys *)

Section CacheKey.
Import Api.

Lemma has_delimiter_app (a b : string) :
  has_delimiter (a ++ b) = has_delimiter a || has_delimiter b.
Proof.
  induction a as [|c a IH]; simpl; [reflexivity|].
  destruct (Ascii.eqb c "|"); [reflexivity | exact IH].
Qed.

Lemma append_nil_l (x : string) : ("" ++ x)%string = x.
Proof. reflexivity. Qed.

Lemma append_cons_l (c : ascii) (a x : string) :
  (String c a ++ x)%string = String c (a ++ x)%string.
Proof. reflexivity. Qed.

Ltac push_append H :=
  repeat (rewrite append_nil_l in H || rewrite append_cons_l in H).

(** A delimiter-free component is recovered from what follows it. *)
Lemma delimited_prefix_inj (a b x y : string) :
  has_delimiter a = false -> has_delimiter b = false ->
  (a ++ "|" ++ x = b ++ "|" ++ y)%string -> a = b /\ x = y.
Proof.
  revert b. induction a as [|c a IH]; intros [|d b] Ha Hb Heq;
    push_append Heq; simpl in Ha, Hb.
  - injection Heq as ->. done.
  - injection Heq as <- _. simpl in Hb. discriminate.
  - injection Heq as -> _. simpl in Ha. discriminate.
  - injection Heq as -> Heq.
    destruct (Ascii.eqb d "|"); [discriminate|].
    destruct (IH b Ha Hb Heq) as [-> ->]. done.
Qed.

Lemma cacheKey_cons (a b : string) (l : list string) :
  cacheKey (a :: b :: l) = (a ++ "|" ++ cacheKey (b :: l))%string.
Proof. reflexivity. Qed.

Lemma cacheKey_single (a : string) : cacheKey [a] = a.
Proof. reflexivity. Qed.

Lemma has_delimiter_joined (a x : string) :
  has_delimiter (a ++ "|" ++ x) = true.
Proof.
  rewrite has_delimiter_app. apply orb_true_iff. right. reflexivity.
Qed.

Lemma cacheKey_inj_nonempty (a b : string) (l1 l2 : list string) :
  forallb (fun s => negb (has_delimiter s)) (a :: l1) = true ->
  forallb (fun s => negb (has_delimiter s)) (b :: l2) = true ->
  cacheKey (a :: l1) = cacheKey (b :: l2) -> a :: l1 = b :: l2.
Proof.
  revert a b l2. induction l1 as [|a' l1 IH]; intros a b [|b' l2] H1 H2 Heq;
    cbn [forallb] in H1, H2;
    apply andb_prop in H1 as [Ha H1]; apply andb_prop in H2 as [Hb H2];
    apply negb_true_iff in Ha, Hb;
    rewrite ?cacheKey_single, ?cacheKey_cons in Heq.
  - by subst.
  - subst a. by rewrite has_delimiter_joined in Ha.
  - subst b. by rewrite has_delimiter_joined in Hb.
  - destruct (delimited_prefix_inj _ _ _ _ Ha Hb Heq) as [-> Hrest].
    by rewrite (IH _ _ _ H1 H2 Hrest).
Qed.

(** Keys of case series and keys of national overviews never coincide. *)
Lemma disease_key_not_national (g : Z) (d : string) (ws we ys ye : Z) (d' : string) :
  disease_key g d ws we ys ye <> national_key d'.
Proof.
  unfold disease_key, national_key. rewrite !cacheKey_cons.
  intros H. push_append H. discriminate H.
Qed.

(** C6, as stated, fails: a component holding the delimiter makes two
    different component sequences share a key. *)
Lemma cacheKey_collision :
  ~ (cacheKey ["disease"; "a|b"; "c"]%string = cacheKey ["disease"; "a"; "b|c"]%string
     <-> ["disease"; "a|b"; "c"]%string = ["disease"; "a"; "b|c"]%string).
Proof. intros [H _]. specialize (H eq_refl). discriminate H. Qed.

(** C6, amended: equal component sequences always give equal keys, and
    two non-empty sequences whose rendered components hold no '|' have
    equal keys only if they are equal. *)
Theorem cacheKey_eq_iff (l1 l2 : list string) :
  l1 <> [] -> l2 <> [] ->
  forallb (fun s => negb (has_delimiter s)) l1 = true ->
  forallb (fun s => negb (has_delimiter s)) l2 = true ->
  (cacheKey l1 = cacheKey l2 <-> l1 = l2).
Proof.
  intros Hn1 Hn2 H1 H2. split; [|by intros ->].
  destruct l1 as [|a l1]; [done|]. destruct l2 as [|b l2]; [done|].
  by apply cacheKey_inj_nonempty.
Qed.

Lemma cacheKey_eq_iff_witness :
  cacheKey ["disease"; "3550308"; "dengue"]%string
    = cacheKey ["disease"; "3550308"; "zika"]%string
  <-> ["disease"; "3550308"; "dengue"]%string = ["disease"; "3550308"; "zika"]%string.
Proof.
  apply cacheKey_eq_iff; [discriminate | discriminate | reflexivity | reflexivity].
Defined.

End CacheKey.

(** *** Alert palette *)

Section Palette.
Import Api.

(** C7: levels 1 to 4 map to green, yellow, orange and red, and every
    other level (null, undefined, NaN, infinities, zero, negative and
    fractional numbers) maps to the green of level 1. *)
Theorem getAlertColorHex_palette :
  getAlertColorHex (levelInt 1) = Some "#22c55e"%string
  /\ getAlertColorHex (levelInt 2) = Some "#eab308"%string
  /\ getAlertColorHex (levelInt 3) = Some "#f97316"%string
  /\ getAlertColorHex (levelInt 4) = Some "#ef4444"%string
  /\ (forall nivel : JsLevel,
        nivel <> levelInt 1 -> nivel <> levelInt 2 ->
        nivel <> levelInt 3 -> nivel <> levelInt 4 ->
        getAlertColorHex nivel = Some "#22c55e"%string).
Proof.
  repeat split; try (vm_compute; reflexivity).
  intros nivel H1 H2 H3 H4.
  assert (Hnone : colors nivel = None).
  { destruct nivel as [| |[| |q]]; try reflexivity.
    unfold colors. repeat case_decide; subst; try reflexivity.
    - by destruct H1. - by destruct H2. - by destruct H3. - by destruct H4. }
  unfold getAlertColorHex. rewrite Hnone. vm_compute. reflexivity.
Qed.

Lemma getAlertColorHex_palette_witness :
  getAlertColorHex LNull = Some "#22c55e"%string
  /\ getAlertColorHex LUndefined = Some "#22c55e"%string
  /\ getAlertColorHex (levelInt 0) = Some "#22c55e"%string
  /\ getAlertColorHex (levelInt (-2)) = Some "#22c55e"%string
  /\ getAlertColorHex (LNum (JFinite (Q2Qc (5 # 2)))) = Some "#22c55e"%string
  /\ getAlertColorHex (LNum JNaN) = Some "#22c55e"%string.
Proof.
  destruct getAlertColorHex_palette as (_ & _ & _ & _ & H).
  repeat split; apply H; apply (bool_decide_unpack _); vm_compute; exact I.
Defined.

End Palette.

(** *** Request cache *)

Section RequestCache.
Import Api.
Context {V : Type}.
Implicit Types (s : Session V) (key : string) (evs : list (CacheEvent V)).

Lemma cache_run_cons s ev evs :
  cache_run s (ev :: evs) = cache_run (cache_step s ev) evs.
Proof. reflexivity. Qed.

(** A turn never removes an entry. *)
Lemma cache_step_keeps_key s key ev :
  is_Some (cache s !! key) -> is_Some (cache (cache_step s ev) !! key).
Proof.
  intros Hkey. destruct ev as [k|i [data|e]]; simpl.
  - destruct (cachedFetch_call k (cache s)); exact Hkey.
  - destruct (inflight s !! i) as [k|]; simpl; [|exact Hkey].
    rewrite lookup_insert. case_decide; [by eexists | exact Hkey].
  - destruct (inflight s !! i); exact Hkey.
Qed.

Lemma cache_run_keeps_key evs s key :
  is_Some (cache s !! key) -> is_Some (cache (cache_run s evs) !! key).
Proof.
  revert s. induction evs as [|ev evs IH]; intros s Hkey; [exact Hkey|].
  rewrite cache_run_cons. apply IH. by apply cache_step_keeps_key.
Qed.

(** With no call for [key] in flight, a stored value stays as it is. *)
Lemma cache_step_keeps_value s key v ev :
  cache s !! key = Some v -> key ∉ inflight s ->
  cache (cache_step s ev) !! key = Some v /\ key ∉ inflight (cache_step s ev).
Proof.
  intros Hkey Hfree. destruct ev as [k|i outcome]; simpl.
  - unfold cachedFetch_call. destruct (cache s !! k) as [d|] eqn:Hk; simpl; [done|].
    split; [done|]. rewrite elem_of_app, list_elem_of_singleton.
    intros [?| ->]; [done|congruence].
  - destruct (inflight s !! i) as [k|] eqn:Hi; [|done].
    assert (k <> key) as Hne.
    { intros ->. apply Hfree. by eapply list_elem_of_lookup_2. }
    assert (key ∉ delete i (inflight s)) as Hfree'.
    { intros Hin. apply Hfree. by eapply list_elem_of_delete_inv. }
    destruct outcome as [data|e]; simpl; [|done].
    by rewrite lookup_insert_ne.
Qed.

Lemma cache_run_keeps_value evs s key v :
  cache s !! key = Some v -> key ∉ inflight s ->
  cache (cache_run s evs) !! key = Some v.
Proof.
  revert s. induction evs as [|ev evs IH]; intros s Hkey Hfree; [exact Hkey|].
  rewrite cache_run_cons.
  destruct (cache_step_keeps_value s key v ev Hkey Hfree) as [Hkey' Hfree'].
  by apply IH.
Qed.

(** A call on a cache that holds the key returns the stored value and
    invokes no fetcher. *)
Lemma cache_step_hit s key v :
  cache s !! key = Some v ->
  returned (cache_step s (EvCall key)) = returned s ++ [Fulfilled v]
  /\ invoked (cache_step s (EvCall key)) = invoked s
  /\ inflight (cache_step s (EvCall key)) = inflight s.
Proof. intros Hkey. simpl. unfold cachedFetch_call. by rewrite Hkey. Qed.

End RequestCache.




(** *** National overview *)

Section NationalOverview.
Import Api.
Implicit Types (c : ApiCache) (net : Network) (now : Clock) (disease : string).

Lemma fetchDiseaseData_overviews net g disease ws we ys ye c :
  overviews (fst (fetchDiseaseData net g disease ws we ys ye c)) = overviews c.
Proof.
  unfold fetchDiseaseData, cachedFetch, cachedFetch_call.
  destruct (series c !! _); [reflexivity|].
  unfold disease_fetcher. by destruct (net g disease ws we ys ye).
Qed.

Lemma capital_task_spec net now disease cap c :
  exists c1 outcome,
    fetchDiseaseData net (geocode cap) disease (startEW now) (currentEW now)
      (currentYear now) (currentYear now) c = (c1, outcome)
    /\ capital_task net now disease cap c = (c1, Fulfilled (entry_for cap outcome))
    /\ overviews c1 = overviews c.
Proof.
  unfold capital_task.
  pose proof (fetchDiseaseData_overviews net (geocode cap) disease (startEW now)
                (currentEW now) (currentYear now) (currentYear now) c) as Hov.
  destruct (fetchDiseaseData _ _ _ _ _ _ _ c) as [c1 outcome].
  exists c1, outcome. by destruct outcome.
Qed.

(** Each task settles fulfilled, in the position of its capital. *)
Lemma allSettled_tasks_spec net now disease caps c :
  exists c' entries,
    allSettled_tasks net now disease caps c = (c', Fulfilled <$> entries)
    /\ overviews c' = overviews c
    /\ Forall2 (fun cap e =>
          exists c0 c1 outcome,
            fetchDiseaseData net (geocode cap) disease (startEW now) (currentEW now)
              (currentYear now) (currentYear now) c0 = (c1, outcome)
            /\ e = entry_for cap outcome) caps entries.
Proof.
  revert c. induction caps as [|cap caps IH]; intros c.
  - exists c, []. repeat split. constructor.
  - destruct (capital_task_spec net now disease cap c) as (c1 & o & Hf & Ht & Hov).
    destruct (IH c1) as (c2 & es & Hall & Hov2 & Hes).
    exists c2, (entry_for cap o :: es). simpl. rewrite Ht, Hall.
    repeat split; [congruence|]. constructor; [|exact Hes]. by exists c, c1, o.
Qed.

Lemma fulfilled_values_fmap {A : Type} (l : list A) :
  fulfilled_values (Fulfilled <$> l) = l.
Proof. induction l as [|x l IH]; simpl; [reflexivity | f_equal; exact IH]. Qed.

Lemma entry_for_capital cap outcome : capital (entry_for cap outcome) = cap.
Proof. by destruct outcome. Qed.

Lemma entry_for_latest cap outcome :
  latest (entry_for cap outcome) = latest_of (data (entry_for cap outcome)).
Proof. by destruct outcome. Qed.

Lemma national_fetcher_spec net now disease c :
  exists c' entries,
    national_fetcher net now disease c = (c', Fulfilled entries)
    /\ overviews c' = overviews c
    /\ overview_ok entries
    /\ Forall2 (fun cap e =>
          exists c0 c1 outcome,
            fetchDiseaseData net (geocode cap) disease (startEW now) (currentEW now)
              (currentYear now) (currentYear now) c0 = (c1, outcome)
            /\ e = entry_for cap outcome) capitals entries.
Proof.
  unfold national_fetcher.
  destruct (allSettled_tasks_spec net now disease capitals c)
    as (c' & entries & Hall & Hov & Hes).
  exists c', entries. rewrite Hall. cbv beta iota. rewrite fulfilled_values_fmap.
  repeat split; try done.
  - clear Hall. induction Hes as [|cap e caps es (c0 & c1 & o & _ & ->) _ IH];
      simpl; [reflexivity|]. by rewrite entry_for_capital, IH.
  - clear Hall. induction Hes as [|cap e caps es (c0 & c1 & o & _ & ->) _ IH];
      constructor; [apply entry_for_latest | exact IH].
Qed.

Lemma fetchNationalOverview_keeps_ok net now disease c :
  overviews_ok c -> overviews_ok (fst (fetchNationalOverview net now disease c)).
Proof.
  intros Hok. unfold fetchNationalOverview, cachedFetch, cachedFetch_call.
  destruct (overviews c !! national_key disease) as [entries|] eqn:Hhit; [exact Hok|].
  destruct (national_fetcher_spec net now disease c)
    as (c' & entries & -> & Hov & Hentries & _).
  cbn [cachedFetch_resume fst snd]. intros key es.
  unfold set_overviews. cbn [overviews].
  rewrite lookup_insert, Hov.
  case_decide; [intros [= <-]; exact Hentries | apply Hok].
Qed.

Lemma reachable_overviews_ok c : reachable c -> overviews_ok c.
Proof.
  induction 1 as [|c net now call _ IH].
  - intros key entries Hkey. simpl in Hkey. by rewrite lookup_empty in Hkey.
  - destruct call as [g d ws we ys ye|d]; simpl.
    + intros key entries. rewrite fetchDiseaseData_overviews. apply IH.
    + by apply fetchNationalOverview_keeps_ok.
Qed.



End NationalOverview.

(** *** Visible-state resolver *)

Section VisibleUFs.
Import MapView.
Context {Bounds : Type}.
Variable intersects : Bounds -> Bounds -> option bool.
Implicit Types (bounds : Bounds) (layer : @StateLayer Bounds) (ufId : Z).

Local Abbreviation pushed := (pushed intersects).

Lemma visible_each_pushed bounds visible layer :
  visible_each intersects bounds visible layer = visible ++ pushed bounds layer.
Proof.
  unfold MapView.pushed, visible_each, visible_try.
  repeat case_match; rewrite ?app_nil_r; reflexivity.
Qed.

Lemma fold_visible_each bounds layers visible :
  fold_left (visible_each intersects bounds) layers visible
  = visible ++ concat (pushed bounds <$> layers).
Proof.
  revert visible. induction layers as [|layer layers IH]; intros visible; simpl.
  - by rewrite app_nil_r.
  - by rewrite IH, visible_each_pushed, <- app_assoc.
Qed.

Lemma UF_IDS_includes_Some n ufId :
  UF_IDS_includes n = Some ufId -> ufId ∈ UF_IDS /\ n = jsInt ufId.
Proof.
  unfold UF_IDS_includes. intros H. apply find_some in H as [Hin Heq].
  split; [by apply list_elem_of_In|]. by apply bool_decide_eq_true in Heq.
Qed.

Lemma pushed_inv bounds layer ufId :
  ufId ∈ pushed bounds layer ->
  ufId ∈ UF_IDS
  /\ feature layer = Some (Properties (jsInt ufId))
  /\ exists layerBounds,
       getBounds layer = GetBoundsReturns layerBounds
       /\ intersects bounds layerBounds = Some true.
Proof.
  unfold MapView.pushed, visible_each.
  destruct (feature layer) as [f|]; [|by intros ?%elem_of_nil].
  destruct (getBounds layer) as [| |lb]; simpl; try by intros ?%elem_of_nil.
  destruct (intersects bounds lb) as [[|]|] eqn:Hint; try by intros ?%elem_of_nil.
  destruct f as [|n]; [by intros ?%elem_of_nil|].
  destruct (UF_IDS_includes n) as [u|] eqn:Hinc; [|by intros ?%elem_of_nil].
  intros ->%list_elem_of_singleton.
  apply UF_IDS_includes_Some in Hinc as [Hin ->]. eauto.
Qed.

(** C9: whatever the viewport and the drawn state features, every code
    the resolver returns is one of the 27 UF codes and belongs to a drawn
    feature whose bounding box intersects the viewport; a layer with no
    feature, no properties, no [getBounds] or a throwing [getBounds] is
    passed over, the result being the one obtained without it. *)
Theorem getVisibleUFs_sound bounds (geoLayer : option (list StateLayer)) :
  length UF_IDS = 27%nat
  /\ (forall ufId,
        ufId ∈ getVisibleUFs intersects bounds geoLayer ->
        ufId ∈ UF_IDS
        /\ exists layers layer layerBounds,
             geoLayer = Some layers /\ layer ∈ layers
             /\ feature layer = Some (Properties (jsInt ufId))
             /\ getBounds layer = GetBoundsReturns layerBounds
             /\ intersects bounds layerBounds = Some true)
  /\ (forall before layer after,
        geoLayer = Some (before ++ layer :: after) ->
        feature layer = None \/ feature layer = Some NoProperties
        \/ getBounds layer = NoGetBounds \/ getBounds layer = GetBoundsThrows ->
        getVisibleUFs intersects bounds geoLayer
        = getVisibleUFs intersects bounds (Some (before ++ after))).
Proof.
  split; [reflexivity|]. split.
  - intros ufId Hin. destruct geoLayer as [layers|]; [|by apply elem_of_nil in Hin].
    simpl in Hin. rewrite fold_visible_each in Hin. simpl in Hin.
    apply list_elem_of_In, in_concat in Hin as (l & Hmem & Hl).
    apply list_elem_of_In, list_elem_of_fmap in Hmem as (layer & -> & Hlayer).
    apply list_elem_of_In in Hl.
    apply pushed_inv in Hl as (HUF & Hfeat & lb & Hgb & Hint).
    split; [exact HUF|]. by exists layers, layer, lb.
  - intros before layer after -> Hbad. simpl.
    rewrite !fold_visible_each, !fmap_app, !concat_app, fmap_cons.
    cbn [concat].
    assert (pushed bounds layer = []) as ->; [|reflexivity].
    unfold MapView.pushed, visible_each.
    destruct Hbad as [-> | [-> | [-> | ->]]]; try reflexivity.
    + destruct (getBounds layer) as [| |lb]; try reflexivity. simpl.
      by destruct (intersects bounds lb) as [[|]|].
    + by destruct (feature layer).
    + by destruct (feature layer).
Qed.

End VisibleUFs.

Lemma getVisibleUFs_sound_witness :
  let broken : @MapView.StateLayer Scenario.Box :=
    {| MapView.feature := Some (MapView.Properties (jsInt 13));
       MapView.getBounds := MapView.GetBoundsThrows |} in
  (35 ∈ MapView.UF_IDS)
  /\ MapView.getVisibleUFs Scenario.box_intersects Scenario.over_sp
       (Some ([Scenario.state_layer 35 Scenario.sp_box] ++ broken :: []))
     = MapView.getVisibleUFs Scenario.box_intersects Scenario.over_sp
         (Some ([Scenario.state_layer 35 Scenario.sp_box] ++ [])).
Proof.
  intros broken.
  destruct (getVisibleUFs_sound Scenario.box_intersects Scenario.over_sp
              (Some ([Scenario.state_layer 35 Scenario.sp_box] ++ broken :: [])))
    as (_ & Hsound & Hskip).
  split.
  - apply (Hsound 35). vm_compute. apply list_elem_of_here.
  - apply (Hskip [Scenario.state_layer 35 Scenario.sp_box] broken [] eq_refl).
    right. right. right. reflexivity.
Defined.

(** *** Municipality layer manager *)

Section LayerManager.
Import MapView.
Context {Bounds GeoJSON : Type}.
Variable intersects : Bounds -> Bounds -> option bool.
Variable MAJOR_CITIES_BY_UF : Z -> option (list Z).
Variable renders : GeoJSON -> bool.

Local Abbreviation State := (@State Bounds GeoJSON).
Local Abbreviation call := (@loadMunicipioLayer_call Bounds GeoJSON MAJOR_CITIES_BY_UF).
Local Abbreviation resume := (@loadMunicipioLayer_resume Bounds GeoJSON renders).
Local Abbreviation handle := (handleZoomChange intersects MAJOR_CITIES_BY_UF).
Local Abbreviation step := (step intersects MAJOR_CITIES_BY_UF renders).
Local Abbreviation run := (run intersects MAJOR_CITIES_BY_UF renders).
Local Abbreviation skipped := (@skipped Bounds GeoJSON MAJOR_CITIES_BY_UF).
Local Abbreviation consistent := (@consistent Bounds GeoJSON).
Implicit Types (s : State) (ufId : Z).

(** **** The teardown loops *)

Lemma remove_layer_loaded s k ufId :
  loadedMunicipioLayers (remove_layer s k) !! ufId
  = if decide (k = ufId) then None else loadedMunicipioLayers s !! ufId.
Proof.
  unfold remove_layer. destruct (loadedMunicipioLayers s !! k) eqn:Hk; simpl.
  - by rewrite lookup_delete.
  - case_decide; congruence.
Qed.

Lemma remove_layer_frame s k :
  municipioAlertCache (remove_layer s k) = municipioAlertCache s
  /\ loadingStates (remove_layer s k) = loadingStates s
  /\ suspended (remove_layer s k) = suspended s
  /\ requests (remove_layer s k) = requests s
  /\ currentDisease (remove_layer s k) = currentDisease s
  /\ zoom (remove_layer s k) = zoom s
  /\ viewport (remove_layer s k) = viewport s
  /\ geoLayer (remove_layer s k) = geoLayer s
  /\ onMap (remove_layer s k) ⊆ onMap s.
Proof.
  unfold remove_layer. destruct (loadedMunicipioLayers s !! k); simpl;
    repeat split; set_solver.
Qed.

Lemma fold_remove_layer_loaded keys s ufId :
  loadedMunicipioLayers (fold_left remove_layer keys s) !! ufId
  = if decide (ufId ∈ keys) then None else loadedMunicipioLayers s !! ufId.
Proof.
  revert s. induction keys as [|k keys IH]; intros s; simpl.
  - reflexivity.
  - rewrite IH, remove_layer_loaded.
    repeat case_decide; try done; set_solver.
Qed.

Lemma fold_remove_layer_frame keys s :
  municipioAlertCache (fold_left remove_layer keys s) = municipioAlertCache s
  /\ loadingStates (fold_left remove_layer keys s) = loadingStates s
  /\ suspended (fold_left remove_layer keys s) = suspended s
  /\ requests (fold_left remove_layer keys s) = requests s
  /\ currentDisease (fold_left remove_layer keys s) = currentDisease s
  /\ zoom (fold_left remove_layer keys s) = zoom s
  /\ viewport (fold_left remove_layer keys s) = viewport s
  /\ geoLayer (fold_left remove_layer keys s) = geoLayer s
  /\ onMap (fold_left remove_layer keys s) ⊆ onMap s.
Proof.
  revert s. induction keys as [|k keys IH]; intros s; simpl; [done|].
  destruct (IH (remove_layer s k)) as (-> & -> & -> & -> & -> & -> & -> & -> & Hsub).
  destruct (remove_layer_frame s k) as (-> & -> & -> & -> & -> & -> & -> & -> & Hsub').
  repeat split. set_solver.
Qed.

(** A layer that was in the table when the loop reached its key is off
    the map afterwards. *)
Lemma fold_remove_layer_off_map keys s ufId layer :
  loadedMunicipioLayers s !! ufId = Some layer -> ufId ∈ keys ->
  stamp layer ∉ onMap (fold_left remove_layer keys s).
Proof.
  revert s. induction keys as [|k keys IH]; intros s Hl Hin; simpl.
  - by apply elem_of_nil in Hin.
  - destruct (decide (k = ufId)) as [->|Hne].
    + destruct (fold_remove_layer_frame keys (remove_layer s ufId))
        as (_ & _ & _ & _ & _ & _ & _ & _ & Hsub).
      intros Hon. apply Hsub in Hon. revert Hon.
      unfold remove_layer. rewrite Hl. simpl. set_solver.
    + apply IH; [|set_solver].
      rewrite remove_layer_loaded. by case_decide.
Qed.

Lemma loaded_keys_spec s ufId :
  ufId ∈ loaded_keys s <-> is_Some (loadedMunicipioLayers s !! ufId).
Proof.
  unfold loaded_keys. rewrite list_elem_of_fmap. split.
  - intros ([k layer] & -> & Hin). apply elem_of_map_to_list in Hin. by eexists.
  - intros [layer Hl]. exists (ufId, layer). split; [done|].
    by apply elem_of_map_to_list.
Qed.

Lemma removeMunicipioLayers_loaded s :
  loadedMunicipioLayers (removeMunicipioLayers s) = ∅.
Proof.
  apply map_empty. intros ufId. unfold removeMunicipioLayers.
  rewrite fold_remove_layer_loaded. case_decide as Hin; [done|].
  destruct (loadedMunicipioLayers s !! ufId) eqn:Hl; [|done].
  exfalso. apply Hin, loaded_keys_spec. by eexists.
Qed.

(** C3, amended: when a view change leaves the zoom below the threshold,
    the table of loaded layers is emptied and every layer it held is taken
    off the map, no request is issued, and the municipality alert cache is
    left as it was. *)
Theorem zoom_out_removes_layers_keeps_alert_cache s (z : Z) (b : Bounds) :
  z < MUNICIPIO_ZOOM_THRESHOLD ->
  let s' := step s (ViewChange z b) in
  loadedMunicipioLayers s' = ∅
  /\ (forall ufId layer,
        loadedMunicipioLayers s !! ufId = Some layer -> stamp layer ∉ onMap s')
  /\ requests s' = requests s
  /\ municipioAlertCache s' = municipioAlertCache s.
Proof.
  intros Hz s'. subst s'. simpl. unfold handleZoomChange. simpl.
  rewrite bool_decide_eq_false_2 by lia.
  split; [apply removeMunicipioLayers_loaded|]. split.
  - intros ufId layer Hl. unfold removeMunicipioLayers.
    apply (fold_remove_layer_off_map _ _ ufId); [exact Hl|].
    apply loaded_keys_spec. by eexists.
  - unfold removeMunicipioLayers.
    destruct (fold_remove_layer_frame (loaded_keys (set_view z b s)) (set_view z b s))
      as (Hc & _ & _ & Hr & _).
    split; [exact Hr | exact Hc].
Qed.

(** **** The loader *)

Lemma call_skipped s ufId : skipped s ufId -> call s ufId = s.
Proof.
  intros Hskip. unfold loadMunicipioLayer_call.
  destruct (bool_decide (is_Some (loadedMunicipioLayers s !! ufId))
            || bool_decide (ufId ∈ loadingStates s)) eqn:Hguard; [done|].
  apply orb_false_iff in Hguard as [Hl%bool_decide_eq_false Hg%bool_decide_eq_false].
  by destruct Hskip as [?|[?| ->]].
Qed.

Lemma call_frame s ufId :
  loadedMunicipioLayers (call s ufId) = loadedMunicipioLayers s
  /\ municipioAlertCache (call s ufId) = municipioAlertCache s
  /\ onMap (call s ufId) = onMap s
  /\ currentDisease (call s ufId) = currentDisease s
  /\ zoom (call s ufId) = zoom s
  /\ viewport (call s ufId) = viewport s
  /\ geoLayer (call s ufId) = geoLayer s
  /\ loadingStates s ⊆ loadingStates (call s ufId).
Proof.
  unfold loadMunicipioLayer_call.
  destruct (_ || _); [done|]. destruct (MAJOR_CITIES_BY_UF ufId); [|done].
  simpl. repeat split. set_solver.
Qed.

(** After the call, the unit is one on which a further call returns at
    once, and so is every unit that already was. *)
Lemma call_makes_skipped s ufId : skipped (call s ufId) ufId.
Proof.
  unfold MapView.skipped, loadMunicipioLayer_call.
  destruct (bool_decide (is_Some (loadedMunicipioLayers s !! ufId))) eqn:Hl; simpl.
  { left. by apply bool_decide_eq_true in Hl. }
  destruct (bool_decide (ufId ∈ loadingStates s)) eqn:Hg; simpl.
  { right. left. by apply bool_decide_eq_true in Hg. }
  destruct (MAJOR_CITIES_BY_UF ufId) eqn:Hc; [|by right; right].
  right. left. simpl. set_solver.
Qed.

Lemma call_keeps_skipped s ufId u : skipped s u -> skipped (call s ufId) u.
Proof.
  destruct (call_frame s ufId) as (Hl & _ & _ & _ & _ & _ & _ & Hsub).
  unfold MapView.skipped. rewrite Hl. intros [?|[?|?]]; [by left | | by right; right].
  right. left. by apply Hsub.
Qed.

Lemma fold_call_frame ufIds s :
  zoom (fold_left call ufIds s) = zoom s
  /\ viewport (fold_left call ufIds s) = viewport s
  /\ geoLayer (fold_left call ufIds s) = geoLayer s.
Proof.
  revert s. induction ufIds as [|u ufIds IH]; intros s; simpl; [done|].
  destruct (IH (call s u)) as (-> & -> & ->).
  by destruct (call_frame s u) as (_ & _ & _ & _ & -> & -> & -> & _).
Qed.

Lemma fold_call_skipped ufIds s u :
  skipped s u \/ u ∈ ufIds -> skipped (fold_left call ufIds s) u.
Proof.
  revert s. induction ufIds as [|k ufIds IH]; intros s; simpl.
  - intros [?|Hin]; [done | by apply elem_of_nil in Hin].
  - intros [Hs|Hin]; apply IH.
    + left. by apply call_keeps_skipped.
    + apply elem_of_cons in Hin as [->|Hin]; [left; apply call_makes_skipped | by right].
Qed.

Lemma fold_call_all_skipped ufIds s :
  (forall u, u ∈ ufIds -> skipped s u) -> fold_left call ufIds s = s.
Proof.
  induction ufIds as [|k ufIds IH]; intros Hall; simpl; [done|].
  rewrite call_skipped by (apply Hall; set_solver).
  apply IH. intros u Hu. apply Hall. set_solver.
Qed.

Lemma removeMunicipioLayers_idem s :
  removeMunicipioLayers (removeMunicipioLayers s) = removeMunicipioLayers s.
Proof.
  unfold removeMunicipioLayers at 1.
  assert (loaded_keys (removeMunicipioLayers s) = []) as ->; [|done].
  unfold loaded_keys. by rewrite removeMunicipioLayers_loaded, map_to_list_empty.
Qed.

(** C4: the evaluation run a second time, with nothing in between, leaves
    the state as the first run left it, so it issues no request and
    suspends no call; and on a unit that is loaded or in the loading set
    the loader returns at once, leaving the state as it is. *)
Theorem handleZoomChange_idempotent s :
  handleZoomChange intersects MAJOR_CITIES_BY_UF
    (handleZoomChange intersects MAJOR_CITIES_BY_UF s)
  = handleZoomChange intersects MAJOR_CITIES_BY_UF s
  /\ requests (handleZoomChange intersects MAJOR_CITIES_BY_UF
                (handleZoomChange intersects MAJOR_CITIES_BY_UF s))
     = requests (handleZoomChange intersects MAJOR_CITIES_BY_UF s)
  /\ suspended (handleZoomChange intersects MAJOR_CITIES_BY_UF
                 (handleZoomChange intersects MAJOR_CITIES_BY_UF s))
     = suspended (handleZoomChange intersects MAJOR_CITIES_BY_UF s)
  /\ (forall ufId,
        is_Some (loadedMunicipioLayers s !! ufId) \/ ufId ∈ loadingStates s ->
        loadMunicipioLayer_call MAJOR_CITIES_BY_UF s ufId = s).
Proof.
  assert (Hidem : handle (handle s) = handle s).
  { destruct (decide (MUNICIPIO_ZOOM_THRESHOLD <= zoom s)) as [Hz|Hz].
    - set (vis := getVisibleUFs intersects (viewport s) (geoLayer s)).
      assert (handle s = fold_left call vis s) as ->.
      { unfold handleZoomChange. by rewrite bool_decide_eq_true_2. }
      destruct (fold_call_frame vis s) as (Hzoom & Hview & Hgeo).
      unfold handleZoomChange.
      rewrite Hzoom, Hview, Hgeo, bool_decide_eq_true_2 by done. fold vis.
      apply fold_call_all_skipped. intros u Hu.
      apply fold_call_skipped. by right.
    - assert (handle s = removeMunicipioLayers s) as ->.
      { unfold handleZoomChange. by rewrite bool_decide_eq_false_2. }
      unfold handleZoomChange.
      assert (zoom (removeMunicipioLayers s) = zoom s) as ->.
      { unfold removeMunicipioLayers.
        by destruct (fold_remove_layer_frame (loaded_keys s) s)
          as (_ & _ & _ & _ & _ & -> & _). }
      rewrite bool_decide_eq_false_2 by done. apply removeMunicipioLayers_idem. }
  rewrite Hidem. repeat split.
  intros ufId Hskip. apply call_skipped. unfold MapView.skipped. tauto.
Qed.

(** **** Loaded and loading units *)

Lemma consistent_init (b : Bounds) : consistent (init b).
Proof.
  repeat split; simpl; try set_solver. constructor.
Qed.

(** Only the suspended calls, the loading set and the absence of layers
    matter. *)
Lemma consistent_shrink s s' :
  suspended s' = suspended s -> loadingStates s' = loadingStates s ->
  (forall u, loadedMunicipioLayers s !! u = None ->
             loadedMunicipioLayers s' !! u = None) ->
  consistent s -> consistent s'.
Proof.
  intros Hs Hg Hl (Hnd & Hiff & Hdisj). unfold MapView.consistent.
  rewrite Hs, Hg. repeat split; try done; try apply Hiff. auto.
Qed.

Lemma consistent_call s ufId : consistent s -> consistent (call s ufId).
Proof.
  intros (Hnd & Hiff & Hdisj). unfold loadMunicipioLayer_call.
  destruct (bool_decide (is_Some (loadedMunicipioLayers s !! ufId))) eqn:Hl;
    simpl; [done|].
  destruct (bool_decide (ufId ∈ loadingStates s)) eqn:Hg; simpl; [done|].
  destruct (MAJOR_CITIES_BY_UF ufId) as [cities|]; [|done].
  apply bool_decide_eq_false in Hl, Hg.
  unfold MapView.consistent. simpl. rewrite fmap_app. simpl. repeat split.
  - apply NoDup_app. split; [exact Hnd|]. split; [|apply NoDup_singleton].
    intros u Hu ->%list_elem_of_singleton. by apply Hg, Hiff.
  - rewrite elem_of_union, elem_of_singleton, elem_of_app, list_elem_of_singleton.
    rewrite Hiff. tauto.
  - rewrite elem_of_app, list_elem_of_singleton, elem_of_union, elem_of_singleton.
    rewrite Hiff. tauto.
  - intros u [->%elem_of_singleton|Hu]%elem_of_union; [|by apply Hdisj].
    by apply eq_None_not_Some.
Qed.

Lemma consistent_fold_call ufIds s :
  consistent s -> consistent (fold_left call ufIds s).
Proof.
  revert s. induction ufIds as [|u ufIds IH]; intros s Hs; simpl; [done|].
  by apply IH, consistent_call.
Qed.

Lemma consistent_removeMunicipioLayers s :
  consistent s -> consistent (removeMunicipioLayers s).
Proof.
  unfold removeMunicipioLayers.
  destruct (fold_remove_layer_frame (loaded_keys s) s) as (_ & Hg & Hs & _).
  apply consistent_shrink; [exact Hs | exact Hg|].
  intros u Hu. rewrite fold_remove_layer_loaded. by case_decide.
Qed.

Lemma consistent_handle s : consistent s -> consistent (handle s).
Proof.
  intros Hs. unfold handleZoomChange. case_bool_decide.
  - by apply consistent_fold_call.
  - by apply consistent_removeMunicipioLayers.
Qed.

Lemma consistent_clear_unit s ufId : consistent s -> consistent (clear_unit s ufId).
Proof.
  unfold clear_unit.
  destruct (remove_layer_frame s ufId) as (_ & Hg & Hs & _).
  apply consistent_shrink; simpl; [exact Hs | exact Hg|].
  intros u Hu. rewrite remove_layer_loaded. by case_decide.
Qed.

Lemma consistent_fold_clear_unit ufIds s :
  consistent s -> consistent (fold_left clear_unit ufIds s).
Proof.
  revert s. induction ufIds as [|u ufIds IH]; intros s Hs; simpl; [done|].
  by apply IH, consistent_clear_unit.
Qed.

Lemma consistent_setMapDisease disease s :
  consistent s -> consistent (setMapDisease intersects MAJOR_CITIES_BY_UF disease s).
Proof.
  intros Hs. unfold setMapDisease.
  assert (consistent (fold_left clear_unit (loaded_keys (set_currentDisease disease s))
                        (set_currentDisease disease s))) as Hs2.
  { apply consistent_fold_clear_unit. revert Hs. by apply consistent_shrink. }
  case_bool_decide; [by apply consistent_handle | exact Hs2].
Qed.

Lemma consistent_settle s i p outcome :
  suspended s !! i = Some p -> consistent s ->
  consistent (resume p outcome (set_suspended (delete i (suspended s)) s)).
Proof.
  intros Hi (Hnd & Hiff & Hdisj).
  assert (Hothers : forall u,
            u ∈ s_ufId <$> delete i (suspended s)
            <-> u ∈ loadingStates s /\ u <> s_ufId p).
  { intros u. rewrite Hiff, (delete_take_drop (suspended s) i).
    pose proof (take_drop_middle (suspended s) i p Hi) as Hsplit.
    set (l1 := take i (suspended s)) in *.
    set (l2 := drop (S i) (suspended s)) in *.
    rewrite <- Hsplit in Hnd |- *. clear Hsplit.
    rewrite fmap_app, fmap_cons in Hnd. rewrite !fmap_app, fmap_cons.
    apply NoDup_app in Hnd as (_ & Hleft & Hright%NoDup_cons).
    destruct Hright as [Hright _].
    rewrite !elem_of_app, elem_of_cons.
    split.
    - intros [Hu|Hu]; (split; [tauto|]); intros ->.
      + by apply (Hleft (s_ufId p)); [|left].
      + done.
    - intros [[Hu|[Hu|Hu]] Hne]; tauto. }
  set (s0 := set_suspended (delete i (suspended s)) s).
  assert (Hnd0 : NoDup (s_ufId <$> suspended s0)).
  { simpl. rewrite list_fmap_delete.
    eapply sublist_NoDup; [exact Hnd | apply sublist_delete]. }
  unfold loadMunicipioLayer_resume.
  destruct outcome as [[gj am]|e]; [destruct (renders gj)|];
    unfold MapView.consistent; simpl; (split; [exact Hnd0|]); split.
  - intros u. rewrite Hothers. set_solver.
  - intros u [Hu Hne%not_elem_of_singleton]%elem_of_difference.
    rewrite lookup_insert_ne by done. by apply Hdisj.
  - intros u. rewrite Hothers. set_solver.
  - intros u [Hu _]%elem_of_difference. by apply Hdisj.
  - intros u. rewrite Hothers. set_solver.
  - intros u [Hu _]%elem_of_difference. by apply Hdisj.
Qed.

Lemma consistent_step s ev : consistent s -> consistent (step s ev).
Proof.
  intros Hs. destruct ev as [z b|d|layers|i outcome]; simpl.
  - apply consistent_handle. revert Hs. by apply consistent_shrink.
  - by apply consistent_setMapDisease.
  - revert Hs. by apply consistent_shrink.
  - destruct (suspended s !! i) as [p|] eqn:Hi; [|exact Hs].
    by apply consistent_settle.
Qed.

Lemma consistent_run evs s : consistent s -> consistent (run s evs).
Proof.
  revert s. induction evs as [|ev evs IH]; intros s Hs; simpl; [done|].
  by apply IH, consistent_step.
Qed.

(** C2: after any sequence of turns from the initial state, no unit is at
    once in the table of loaded layers and in the loading set. *)
Theorem loaded_loading_disjoint (b : Bounds) (evs : list Event) :
  dom (loadedMunicipioLayers (run (init b) evs))
  ## loadingStates (run (init b) evs).
Proof.
  destruct (consistent_run evs (init b) (consistent_init b)) as (_ & _ & Hdisj).
  apply elem_of_disjoint. intros u Hl%elem_of_dom Hg.
  apply Hdisj in Hg. rewrite Hg in Hl. by destruct Hl.
Qed.

End LayerManager.

(** C3, as stated, fails: after UF 35 is loaded and the user zooms out to
    level 4, the layer is gone but the alert cache still holds the entry
    of UF 35. *)
Lemma zoom_out_keeps_alert_cache :
  is_Some (MapView.loadedMunicipioLayers Scenario.loaded_35 !! 35)
  /\ MapView.zoom Scenario.zoomed_out = 4
  /\ MapView.loadedMunicipioLayers Scenario.zoomed_out !! 35 = None
  /\ MapView.municipioAlertCache Scenario.zoomed_out !! 35 = Some Scenario.dengue_alerts.
Proof. vm_compute. repeat split. by eexists. Qed.

Lemma zoom_out_removes_layers_keeps_alert_cache_witness :
  MapView.loadedMunicipioLayers Scenario.zoomed_out = ∅
  /\ MapView.municipioAlertCache Scenario.zoomed_out
     = MapView.municipioAlertCache Scenario.loaded_35.
Proof.
  destruct (zoom_out_removes_layers_keeps_alert_cache Scenario.box_intersects
              Scenario.major_cities Scenario.renders_all Scenario.loaded_35 4
              Scenario.brazil) as (Hl & _ & _ & Hc); [reflexivity|].
  split; [exact Hl | exact Hc].
Defined.

Lemma handleZoomChange_idempotent_witness :
  MapView.handleZoomChange Scenario.box_intersects Scenario.major_cities
    (MapView.handleZoomChange Scenario.box_intersects Scenario.major_cities
       Scenario.zoomed_in)
  = MapView.handleZoomChange Scenario.box_intersects Scenario.major_cities
      Scenario.zoomed_in
  /\ MapView.loadMunicipioLayer_call Scenario.major_cities Scenario.zoomed_in 35
     = Scenario.zoomed_in.
Proof.
  destruct (handleZoomChange_idempotent Scenario.box_intersects Scenario.major_cities
              Scenario.zoomed_in) as (Hidem & _ & _ & Hskip).
  split; [exact Hidem|]. apply Hskip. right.
  apply (bool_decide_unpack _). vm_compute. exact I.
Defined.

(** C1 on the code: UF 35 is requested for dengue, the disease is switched
    to zika while the requests are in flight, and they are then answered.
    The switch finds UF 35 in the loading set and requests nothing for zika;
    the late answer is committed as it is: the layer of UF 35, built from the
    dengue alerts (São Paulo in the red of dengue level 4), is put on the
    map and into the table, and the alert cache gets the dengue alerts,
    while the current disease is zika. A further evaluation changes
    nothing, UF 35 counting as loaded. *)
Theorem stale_answer_applied_after_disease_switch :
  let s := Scenario.late_answer in
  35 ∈ MapView.loadingStates Scenario.zoomed_in
  /\ MapView.currentDisease s = "zika"%string
  /\ (exists layer,
        MapView.loadedMunicipioLayers s !! 35 = Some layer
        /\ MapView.styledFor layer = "dengue"%string
        /\ MapView.alertMap layer = Scenario.dengue_alerts
        /\ MapView.municipio_style (MapView.alertMap layer) 3550308
           = {| MapView.fillColor := Some "#ef4444"%string;
                MapView.fillOpacity := 0.6 |}
        /\ MapView.stamp layer ∈ MapView.onMap s)
  /\ MapView.municipioAlertCache s !! 35 = Some Scenario.dengue_alerts
  /\ MapView.requests s
     = [MapView.StateGeoJSON 35;
        MapView.BulkMunicipioAlerts [3550308; 3509502] "dengue"]
  /\ MapView.handleZoomChange Scenario.box_intersects Scenario.major_cities s = s.
Proof.
  split; [apply (bool_decide_unpack _); vm_compute; exact I|].
  split; [vm_compute; reflexivity|]. split.
  - eexists. split; [vm_compute; reflexivity|].
    split; [reflexivity|]. split; [reflexivity|].
    split; [vm_compute; reflexivity|].
    apply (bool_decide_unpack _). vm_compute. exact I.
  - split; [vm_compute; reflexivity|]. split; vm_compute; reflexivity.
Qed.

(** *** Sanitation opacity

    The operations of binary64 are those of the specification of floats
    ([SpecFloat]); the rounding is related to the reals first. *)

Section FloatRounding.
Import Binary64.
Local Open Scope R_scope.

Local Abbreviation fexp := (SpecFloat.fexp prec emax).
Local Abbreviation emin := (SpecFloat.emin prec emax).

Lemma pow2_pos e : 0 < pow2 e.
Proof. apply powerRZ_lt. lra. Qed.

Lemma pow2_add a b : pow2 (a + b) = pow2 a * pow2 b.
Proof. apply powerRZ_add. lra. Qed.

Lemma pow2_0 : pow2 0 = 1.
Proof. reflexivity. Qed.

Lemma pow2_succ e : pow2 (e + 1) = 2 * pow2 e.
Proof. rewrite pow2_add. unfold pow2 at 2. simpl. lra. Qed.

Lemma pow2_IZR n : (0 <= n)%Z -> pow2 n = IZR (2 ^ n).
Proof.
  intros Hn. unfold pow2. rewrite <- (Z2Nat.id n Hn) at 1 2.
  rewrite <- pow_powerRZ, <- pow_IZR. reflexivity.
Qed.

Lemma pow2_ge_1 n : (0 <= n)%Z -> 1 <= pow2 n.
Proof.
  intros Hn. rewrite pow2_IZR by exact Hn. apply IZR_le.
  pose proof (Z.pow_pos_nonneg 2 n ltac:(lia) Hn). lia.
Qed.

Lemma pow2_le a b : (a <= b)%Z -> pow2 a <= pow2 b.
Proof.
  intros Hab. replace b with (a + (b - a))%Z by lia. rewrite pow2_add.
  pose proof (pow2_pos a). pose proof (pow2_ge_1 (b - a) ltac:(lia)). nra.
Qed.

Lemma pow2_lt a b : (a < b)%Z -> pow2 a < pow2 b.
Proof.
  intros Hab. replace b with (a + 1 + (b - a - 1))%Z by lia.
  rewrite pow2_add, pow2_succ.
  pose proof (pow2_pos a). pose proof (pow2_ge_1 (b - a - 1) ltac:(lia)). nra.
Qed.

Lemma F2R_shift m e n : (0 <= n)%Z -> F2R (m * 2 ^ n) e = F2R m (e + n).
Proof.
  intros Hn. unfold F2R. rewrite mult_IZR, <- pow2_IZR, pow2_add by exact Hn. ring.
Qed.

Lemma F2R_le m1 m2 e : (m1 <= m2)%Z -> F2R m1 e <= F2R m2 e.
Proof. intros H. unfold F2R. apply IZR_le in H. pose proof (pow2_pos e). nra. Qed.

Lemma F2R_lt m1 m2 e : (m1 < m2)%Z -> F2R m1 e < F2R m2 e.
Proof. intros H. unfold F2R. apply IZR_lt in H. pose proof (pow2_pos e). nra. Qed.

Lemma F2R_lt_inv m1 m2 e : F2R m1 e < F2R m2 e -> (m1 < m2)%Z.
Proof.
  intros H. destruct (Z_lt_le_dec m1 m2) as [?|Hle]; [assumption|].
  apply (F2R_le _ _ e) in Hle. lra.
Qed.

Lemma digits2_pos_bounds p :
  (2 ^ (Zpos (digits2_pos p) - 1) <= Zpos p < 2 ^ Zpos (digits2_pos p))%Z.
Proof.
  induction p as [p IH|p IH|]; simpl digits2_pos.
  - rewrite Pos2Z.inj_succ. replace (Z.succ (Z.pos (digits2_pos p)) - 1)%Z
      with (Z.succ (Z.pos (digits2_pos p) - 1))%Z by lia.
    rewrite !Z.pow_succ_r by lia. lia.
  - rewrite Pos2Z.inj_succ. replace (Z.succ (Z.pos (digits2_pos p)) - 1)%Z
      with (Z.succ (Z.pos (digits2_pos p) - 1))%Z by lia.
    rewrite !Z.pow_succ_r by lia. lia.
  - simpl. lia.
Qed.

Lemma dig_bounds m : (0 < m)%Z -> (2 ^ (dig m - 1) <= m < 2 ^ dig m)%Z /\ (1 <= dig m)%Z.
Proof.
  intros Hm. destruct m as [|p|p]; try lia. unfold dig. simpl.
  split; [apply digits2_pos_bounds | lia].
Qed.

Lemma dig_nonneg m : (0 <= m)%Z -> (0 <= dig m)%Z.
Proof. destruct m; unfold dig; simpl; lia. Qed.

Lemma dig_unique m d : (2 ^ (d - 1) <= m < 2 ^ d)%Z -> (1 <= d)%Z -> dig m = d.
Proof.
  intros Hb Hd. assert (0 < m)%Z as Hm.
  { pose proof (Z.pow_pos_nonneg 2 (d - 1) ltac:(lia) ltac:(lia)). lia. }
  destruct (dig_bounds m Hm) as [Hb' Hd'].
  destruct (Z.lt_trichotomy (dig m) d) as [Hlt|[Heq|Hgt]]; [|exact Heq|].
  - assert (2 ^ dig m <= 2 ^ (d - 1))%Z by (apply Z.pow_le_mono_r; lia). lia.
  - assert (2 ^ d <= 2 ^ (dig m - 1))%Z by (apply Z.pow_le_mono_r; lia). lia.
Qed.

Lemma dig_mul_pow2 m n : (0 < m)%Z -> (0 <= n)%Z -> dig (m * 2 ^ n) = (dig m + n)%Z.
Proof.
  intros Hm Hn. destruct (dig_bounds m Hm) as [Hb Hd].
  apply dig_unique; [|lia].
  replace (dig m + n - 1)%Z with (dig m - 1 + n)%Z by lia.
  rewrite !Z.pow_add_r by lia.
  pose proof (Z.pow_pos_nonneg 2 n ltac:(lia) Hn). nia.
Qed.

Lemma dig_div_pow2 m n :
  (0 < m)%Z -> (0 <= n < dig m)%Z -> dig (m / 2 ^ n) = (dig m - n)%Z.
Proof.
  intros Hm Hn. destruct (dig_bounds m Hm) as [Hb Hd].
  pose proof (Z.pow_pos_nonneg 2 n ltac:(lia) ltac:(lia)) as Hp.
  apply dig_unique; [|lia]. split.
  - apply Z.div_le_lower_bound; [lia|].
    rewrite <- Z.pow_add_r by lia. replace (n + (dig m - n - 1))%Z with (dig m - 1)%Z by lia. lia.
  - apply Z.div_lt_upper_bound; [lia|].
    rewrite <- Z.pow_add_r by lia. replace (n + (dig m - n))%Z with (dig m) by lia. lia.
Qed.

Lemma div_pow2_small m n : (0 <= m)%Z -> (dig m <= n)%Z -> (m / 2 ^ n = 0)%Z.
Proof.
  intros Hm Hn.
  assert (0 < 2 ^ n)%Z as Hp.
  { apply Z.pow_pos_nonneg; [lia|]. pose proof (dig_nonneg m Hm). lia. }
  destruct (Z.eq_dec m 0%Z) as [->|Hne]; [apply Z.div_0_l; lia|].
  destruct (dig_bounds m ltac:(lia)) as [Hb Hd].
  apply Z.div_small. split; [lia|].
  assert (2 ^ dig m <= 2 ^ n)%Z by (apply Z.pow_le_mono_r; lia). lia.
Qed.

Lemma dig_mono a b : (0 <= a <= b)%Z -> (dig a <= dig b)%Z.
Proof.
  intros [Ha Hab]. destruct (Z.eq_dec a 0%Z) as [->|Hne]; [apply dig_nonneg; lia|].
  destruct (dig_bounds a ltac:(lia)) as [Hba Hda].
  destruct (dig_bounds b ltac:(lia)) as [Hbb Hdb].
  destruct (Z_lt_le_dec (dig b) (dig a)) as [Hlt|?]; [|assumption].
  assert (2 ^ dig b <= 2 ^ (dig a - 1))%Z by (apply Z.pow_le_mono_r; lia). lia.
Qed.

Lemma located_range x m e l :
  located x m e l -> F2R m e <= x < F2R (m + 1) e.
Proof.
  pose proof (pow2_pos e).
  destruct l as [|[| |]]; unfold located, F2R; rewrite plus_IZR; lra.
Qed.

Lemma located_exact x m e l :
  located x m e l -> x = F2R m e -> l = loc_Exact.
Proof.
  pose proof (pow2_pos e). destruct l as [|[| |]]; unfold located; intros; [reflexivity|exfalso; lra..].
Qed.

Lemma shr_1_spec mrs e x :
  (0 <= shr_m mrs)%Z ->
  located x (shr_m mrs) e (loc_of_shr_record mrs) ->
  located x (shr_m (shr_1 mrs)) (e + 1) (loc_of_shr_record (shr_1 mrs))
  /\ shr_m (shr_1 mrs) = (shr_m mrs / 2)%Z.
Proof.
  destruct mrs as [m r s]. simpl shr_m. intros Hm.
  pose proof (pow2_pos e) as Hp.
  destruct m as [|[p|p|]|p]; [| | | |lia]; destruct r, s;
    cbn [shr_1 shr_m loc_of_shr_record orb];
    unfold located, F2R; rewrite pow2_succ;
    try change (Z.pos p~1) with (2 * Z.pos p + 1)%Z;
    try change (Z.pos p~0) with (2 * Z.pos p)%Z;
    rewrite ?plus_IZR, ?mult_IZR; intros Hloc;
    (split; [lra | first [reflexivity
                         | apply Z.div_unique with 0%Z; lia
                         | apply Z.div_unique with 1%Z; lia]]).
Qed.

Lemma iter_shr_1_spec p : forall mrs e x,
  (0 <= shr_m mrs)%Z ->
  located x (shr_m mrs) e (loc_of_shr_record mrs) ->
  located x (shr_m (SpecFloat.iter_pos shr_1 p mrs)) (e + Z.pos p)
    (loc_of_shr_record (SpecFloat.iter_pos shr_1 p mrs))
  /\ shr_m (SpecFloat.iter_pos shr_1 p mrs) = (shr_m mrs / 2 ^ Z.pos p)%Z.
Proof.
  induction p as [p IH|p IH|]; intros mrs e x Hm Hloc; simpl SpecFloat.iter_pos.
  - destruct (shr_1_spec mrs e x Hm Hloc) as [H1 E1].
    assert (0 <= shr_m (shr_1 mrs))%Z as Hm1 by (rewrite E1; apply Z.div_pos; lia).
    destruct (IH _ _ _ Hm1 H1) as [H2 E2].
    assert (0 <= shr_m (SpecFloat.iter_pos shr_1 p (shr_1 mrs)))%Z as Hm2.
    { rewrite E2. apply Z.div_pos; [lia|]. apply Z.pow_pos_nonneg; lia. }
    destruct (IH _ _ _ Hm2 H2) as [H3 E3].
    split.
    + replace (e + Z.pos p~1)%Z with (e + 1 + Z.pos p + Z.pos p)%Z by lia. exact H3.
    + rewrite E3, E2, E1.
      rewrite !Z.div_div by (try apply Z.pow_pos_nonneg; lia).
      f_equal. rewrite <- Z.pow_add_r, <- Z.pow_succ_r by lia. f_equal. lia.
  - destruct (IH _ _ _ Hm Hloc) as [H2 E2].
    assert (0 <= shr_m (SpecFloat.iter_pos shr_1 p mrs))%Z as Hm2.
    { rewrite E2. apply Z.div_pos; [lia|]. apply Z.pow_pos_nonneg; lia. }
    destruct (IH _ _ _ Hm2 H2) as [H3 E3].
    split.
    + replace (e + Z.pos p~0)%Z with (e + Z.pos p + Z.pos p)%Z by lia. exact H3.
    + rewrite E3, E2.
      rewrite !Z.div_div by (try apply Z.pow_pos_nonneg; lia).
      f_equal. rewrite <- Z.pow_add_r by lia. f_equal. lia.
  - destruct (shr_1_spec mrs e x Hm Hloc) as [H1 E1]. split; [exact H1|].
    rewrite E1. reflexivity.
Qed.

Lemma loc_of_shr_record_of_loc m l :
  loc_of_shr_record (shr_record_of_loc m l) = l
  /\ shr_m (shr_record_of_loc m l) = m.
Proof. destruct l as [|[| |]]; split; reflexivity. Qed.

(** The first shift of the rounding: the grid is coarsened to the one the
    format has at this magnitude. *)
Lemma shr_fexp_spec m e l x :
  (0 <= m)%Z -> located x m e l ->
  let n := (fexp (dig m + e) - e)%Z in
  let m' := shr_m (fst (shr_fexp prec emax m e l)) in
  let e' := snd (shr_fexp prec emax m e l) in
  let l' := loc_of_shr_record (fst (shr_fexp prec emax m e l)) in
  located x m' e' l'
  /\ ((0 < n)%Z -> m' = (m / 2 ^ n)%Z /\ e' = (e + n)%Z)
  /\ ((n <= 0)%Z -> m' = m /\ e' = e /\ l' = l).
Proof.
  intros Hm Hloc n m' e' l'. subst m' e' l'. unfold shr_fexp, shr.
  fold (dig m). fold n.
  destruct (loc_of_shr_record_of_loc m l) as [El Em].
  destruct n as [|p|p] eqn:Hn; simpl fst; simpl snd.
  - rewrite El, Em. repeat split; try lia. exact Hloc.
  - destruct (iter_shr_1_spec p (shr_record_of_loc m l) e x) as [H1 E1].
    + rewrite Em. exact Hm.
    + rewrite El, Em. exact Hloc.
    + rewrite Em in E1. repeat split; try lia; assumption.
  - rewrite El, Em. repeat split; try lia. exact Hloc.
Qed.

Lemma fexp_eq k : fexp k = Z.max (k - 53) (-1074).
Proof. reflexivity. Qed.

Lemma F2R_lt_pow2 m e : (0 < m)%Z -> F2R m e < pow2 (dig m + e).
Proof.
  intros Hm. destruct (dig_bounds m Hm) as [[_ Hb] Hd].
  rewrite pow2_add, (pow2_IZR (dig m)) by lia. unfold F2R.
  apply IZR_lt in Hb. pose proof (pow2_pos e). nra.
Qed.

Lemma F2R_ge_pow2 m e : (0 < m)%Z -> pow2 (dig m - 1 + e) <= F2R m e.
Proof.
  intros Hm. destruct (dig_bounds m Hm) as [[Hb _] Hd].
  rewrite pow2_add, (pow2_IZR (dig m - 1)) by lia. unfold F2R.
  apply IZR_le in Hb. pose proof (pow2_pos e). nra.
Qed.

Lemma F2R_nonneg m e : (0 <= m)%Z -> 0 <= F2R m e.
Proof. intros Hm. unfold F2R. apply IZR_le in Hm. pose proof (pow2_pos e). nra. Qed.

Lemma F2R_succ m e : F2R (m + 1) e = F2R m e + pow2 e.
Proof. unfold F2R. rewrite plus_IZR. ring. Qed.

(** On the grid of a canonical pair no number of the format lies strictly
    between two neighbours. *)
Lemma grid_gap m e g :
  (0 <= m)%Z -> ((0 < m)%Z -> canon m e) -> (m = 0%Z -> e = (-1074)%Z) ->
  inF g -> g <= F2R m e \/ F2R (m + 1) e <= g.
Proof.
  intros Hm Hcanon Hzero [->|(mg & eg & Hmg & Hcg & ->)].
  { left. by apply F2R_nonneg. }
  unfold canon in *. rewrite fexp_eq in Hcg.
  destruct (Z_le_gt_dec e eg) as [Hle|Hgt].
  - replace eg with (e + (eg - e))%Z by lia.
    rewrite <- F2R_shift by lia.
    destruct (Z_le_gt_dec (mg * 2 ^ (eg - e)) m) as [Hk|Hk].
    + left. by apply F2R_le.
    + right. apply F2R_le. lia.
  - left. assert (0 < m)%Z as Hpos by lia.
    specialize (Hcanon Hpos). rewrite fexp_eq in Hcanon.
    pose proof (F2R_lt_pow2 mg eg Hmg) as Hup.
    pose proof (F2R_ge_pow2 m e Hpos) as Hlow.
    assert (pow2 (dig mg + eg) <= pow2 (dig m - 1 + e)) by (apply pow2_le; lia).
    lra.
Qed.

Lemma round_nearest_even_spec x m e l :
  located x m e l ->
  let m1 := round_nearest_even m l in
  (m1 = m \/ m1 = (m + 1)%Z)
  /\ (forall g, g <= F2R m e \/ F2R (m + 1) e <= g ->
                Rabs (F2R m1 e - x) <= Rabs (g - x)).
Proof.
  intros Hloc m1. subst m1. pose proof (pow2_pos e) as Hp.
  assert (Hcases : forall m1 g,
            (m1 = m /\ x <= F2R m e + pow2 e / 2) \/
            (m1 = (m + 1)%Z /\ F2R m e + pow2 e / 2 <= x) ->
            F2R m e <= x <= F2R m e + pow2 e ->
            g <= F2R m e \/ F2R (m + 1) e <= g ->
            Rabs (F2R m1 e - x) <= Rabs (g - x)).
  { intros m1 g Hm1 Hx Hg. rewrite F2R_succ in Hg.
    destruct Hm1 as [[-> Hm1]|[-> Hm1]]; rewrite ?F2R_succ;
      unfold Rabs; do 2 destruct (Rcase_abs _); lra. }
  pose proof (located_range x m e l Hloc) as Hr. rewrite F2R_succ in Hr.
  destruct l as [|[| |]]; unfold located in Hloc; simpl round_nearest_even.
  - split; [by left|]. intros g. apply Hcases; [left; split; [reflexivity|lra] | lra].
  - destruct (Z.even m); (split; [tauto|]); intros g; apply Hcases; try lra.
    + left. split; [reflexivity|lra].
    + right. split; [reflexivity|lra].
  - split; [by left|]. intros g. apply Hcases; [left; split; [reflexivity|lra] | lra].
  - split; [by right|]. intros g. apply Hcases; [right; split; [reflexivity|lra] | lra].
Qed.

Lemma shr_fexp_on_grid m e l x :
  (0 <= m)%Z -> located x m e l -> (e <= fexp (dig m + e))%Z ->
  let m' := shr_m (fst (shr_fexp prec emax m e l)) in
  let e' := snd (shr_fexp prec emax m e l) in
  let l' := loc_of_shr_record (fst (shr_fexp prec emax m e l)) in
  located x m' e' l' /\ on_grid m' e'.
Proof.
  intros Hm Hloc Hpre m' e' l'.
  destruct (shr_fexp_spec m e l x Hm Hloc) as (Hloc' & Hshift & Hkeep).
  fold m' e' l' in Hloc', Hshift, Hkeep. split; [exact Hloc'|].
  pose proof (dig_nonneg m Hm) as Hd. unfold on_grid, canon.
  rewrite fexp_eq in *.
  destruct (Z_lt_le_dec 0 (Z.max (dig m + e - 53) (-1074) - e)) as [Hn|Hn].
  - destruct (Hshift Hn) as [Em Ee].
    set (n := (Z.max (dig m + e - 53) (-1074) - e)%Z) in *.
    assert (0 < 2 ^ n)%Z as Hp by (apply Z.pow_pos_nonneg; lia).
    split; [rewrite Em; apply Z.div_pos; lia|]. split.
    + intros Hpos. rewrite ?fexp_eq.
      assert (0 < m)%Z as Hmpos.
      { destruct (Z.eq_dec m 0%Z) as [->|]; [|lia].
        rewrite Z.div_0_l in Em by lia. lia. }
      assert (n < dig m)%Z as Hlt.
      { destruct (Z_lt_le_dec n (dig m)) as [|Hge]; [assumption|].
        rewrite (div_pow2_small m n) in Em by lia. lia. }
      rewrite Em, dig_div_pow2 by lia. lia.
    + intros Hz.
      destruct (Z.eq_dec m 0%Z) as [->|Hne].
      { change (dig 0) with 0%Z in *. lia. }
      assert (dig m <= n)%Z as Hge.
      { destruct (Z_lt_le_dec n (dig m)) as [Hlt|]; [|assumption].
        pose proof (dig_div_pow2 m n ltac:(lia) ltac:(lia)) as Hdd.
        rewrite <- Em, Hz in Hdd. change (dig 0) with 0%Z in Hdd. lia. }
      lia.
  - destruct (Hkeep Hn) as (Em & Ee & _). rewrite Em, Ee.
    split; [exact Hm|]. split.
    + intros _. rewrite ?fexp_eq. lia.
    + intros ->. change (dig 0) with 0%Z in *. lia.
Qed.

(** The second shift of the rounding: it renormalises the rounded
    mantissa, losing nothing. *)
Lemma shr_fexp_after_round m m1 e :
  on_grid m e -> m1 = m \/ m1 = (m + 1)%Z ->
  let m2 := shr_m (fst (shr_fexp prec emax m1 e loc_Exact)) in
  let e2 := snd (shr_fexp prec emax m1 e loc_Exact) in
  F2R m2 e2 = F2R m1 e /\ on_grid m2 e2.
Proof.
  intros (Hm & Hcanon & Hzero) Hm1 m2 e2.
  assert (0 <= m1)%Z as Hm1pos by lia.
  destruct (shr_fexp_spec m1 e loc_Exact (F2R m1 e) Hm1pos eq_refl)
    as (Hloc & Hshift & Hkeep).
  fold m2 e2 in Hloc, Hshift, Hkeep.
  unfold on_grid, canon in *. rewrite fexp_eq in *.
  pose proof (dig_nonneg m1 Hm1pos) as Hd1.
  assert (dig m <= dig m1)%Z as Hmono by (apply dig_mono; lia).
  destruct (Z_lt_le_dec 0 (Z.max (dig m1 + e - 53) (-1074) - e)) as [Hn|Hn].
  - (* a carry into the next binade *)
    destruct (Hshift Hn) as [Em Ee].
    assert (0 < m)%Z as Hmpos.
    { destruct (Z.eq_dec m 0%Z) as [->|]; [|lia].
      specialize (Hzero eq_refl). destruct Hm1 as [->| ->].
      - change (dig 0) with 0%Z in Hn. lia.
      - change (dig (0 + 1)) with 1%Z in Hn. lia. }
    specialize (Hcanon Hmpos). rewrite ?fexp_eq in Hcanon.
    destruct (dig_bounds m Hmpos) as [Hb Hd].
    assert (m1 = (m + 1)%Z) as -> by (destruct Hm1 as [->|]; [lia|assumption]).
    destruct (dig_bounds (m + 1) ltac:(lia)) as [Hb1 _].
    assert (dig (m + 1) = dig m + 1)%Z as Hcarry.
    { assert (dig (m + 1) <= dig m + 1)%Z; [|lia].
      destruct (Z_le_gt_dec (dig (m + 1)) (dig m + 1)) as [|Hgt]; [assumption|].
      assert (2 ^ (dig m + 1) <= 2 ^ (dig (m + 1) - 1))%Z
        by (apply Z.pow_le_mono_r; lia).
      rewrite Z.pow_add_r in * by lia. lia. }
    assert ((m + 1) = 2 ^ dig m)%Z as Hpow.
    { rewrite Hcarry in Hb1. replace (dig m + 1 - 1)%Z with (dig m) in Hb1 by lia. lia. }
    assert (Z.max (dig (m + 1) + e - 53) (-1074) - e = 1)%Z as Hone by lia.
    rewrite Hone in *. change (2 ^ 1)%Z with 2%Z in Em.
    assert (m2 = 2 ^ (dig m - 1))%Z as Hm2.
    { rewrite Em, Hpow. replace (dig m) with (dig m - 1 + 1)%Z at 1 by lia.
      rewrite Z.pow_add_r by lia. change (2 ^ 1)%Z with 2%Z.
      apply Z.div_mul. lia. }
    assert (0 < m2)%Z as Hm2pos by (rewrite Hm2; apply Z.pow_pos_nonneg; lia).
    split.
    + rewrite Ee, <- F2R_shift by lia. f_equal. rewrite Hm2, Hpow.
      replace (dig m) with (dig m - 1 + 1)%Z at 2 by lia.
      rewrite Z.pow_add_r by lia. reflexivity.
    + split; [lia|]. split; [|lia]. intros _. rewrite ?fexp_eq.
      assert (dig m2 = dig m) as ->.
      { rewrite Hm2. apply dig_unique; [|lia].
        split; [lia|]. apply Z.pow_lt_mono_r; lia. }
      lia.
  - destruct (Hkeep Hn) as (Em & Ee & _). rewrite Em, Ee.
    split; [reflexivity|]. split; [exact Hm1pos|]. split.
    + intros Hpos. rewrite ?fexp_eq.
      destruct (Z.eq_dec m 0%Z) as [->|Hne]; [specialize (Hzero eq_refl); lia|].
      specialize (Hcanon ltac:(lia)). rewrite ?fexp_eq in Hcanon. lia.
    + intros ->. destruct Hm1 as [<-|]; [|lia]. by apply Hzero.
Qed.

(** The rounding of a located non-negative real gives a number of the
    format that is nearest to it. *)
Lemma binary_round_aux_spec m e l x :
  (0 <= m)%Z -> located x m e l -> (e <= fexp (dig m + e))%Z ->
  exists v, inF v /\ nearest x v
            /\ result_is (binary_round_aux prec emax false m e l) v.
Proof.
  intros Hm Hloc Hpre.
  destruct (shr_fexp_on_grid m e l x Hm Hloc Hpre) as [Hloc1 Hgrid1].
  unfold binary_round_aux.
  destruct (shr_fexp prec emax m e l) as [mrs1 e1]. cbn [fst snd] in Hloc1, Hgrid1.
  set (m' := shr_m mrs1) in *. set (l' := loc_of_shr_record mrs1) in *.
  destruct (round_nearest_even_spec x m' e1 l' Hloc1) as [Hm1 Hnear].
  set (m1 := round_nearest_even m' l') in *.
  destruct (shr_fexp_after_round m' m1 e1 Hgrid1 Hm1) as [Hval Hgrid2].
  destruct (shr_fexp prec emax m1 e1 loc_Exact) as [mrs2 e2]. cbn [fst snd] in Hval, Hgrid2.
  set (m2 := shr_m mrs2) in *.
  exists (F2R m1 e1). destruct Hgrid2 as (Hm2 & Hcanon2 & Hzero2).
  split; [|split].
  - rewrite <- Hval. destruct (Z.eq_dec m2 0%Z) as [->|Hne].
    + left. unfold F2R. lra.
    + right. exists m2, e2. split; [lia|]. split; [apply Hcanon2; lia | reflexivity].
  - intros g Hg. apply Hnear.
    destruct Hgrid1 as (? & ? & ?). by apply grid_gap.
  - rewrite <- Hval. destruct m2 as [|p|p]; [| |lia].
    + unfold result_is, F2R. lra.
    + specialize (Hcanon2 ltac:(lia)). unfold canon in Hcanon2.
      destruct (Z.leb_spec e2 (emax - prec)) as [Hle|Hgt]; unfold result_is.
      * split; [reflexivity|]. unfold bounded, canonical_mantissa.
        change (Z.pos (digits2_pos p)) with (dig (Z.pos p)).
        rewrite Hcanon2, Z.eqb_refl. simpl. by apply Z.leb_le.
      * rewrite fexp_eq in Hcanon2. change (emax - prec)%Z with 971%Z in Hgt.
        pose proof (F2R_ge_pow2 (Z.pos p) e2 ltac:(lia)) as Hlow.
        assert (pow2 1024 <= pow2 (dig (Z.pos p) - 1 + e2)) by (apply pow2_le; lia).
        lra.
Qed.

(** **** Consequences of being nearest *)

Lemma nearest_le_upper x v g : nearest x v -> inF g -> x <= g -> v <= g.
Proof.
  intros Hn Hg Hx. specialize (Hn g Hg). revert Hn.
  unfold Rabs. do 2 destruct (Rcase_abs _); lra.
Qed.

Lemma nearest_ge_lower x v g : nearest x v -> inF g -> g <= x -> g <= v.
Proof.
  intros Hn Hg Hx. specialize (Hn g Hg). revert Hn.
  unfold Rabs. do 2 destruct (Rcase_abs _); lra.
Qed.

Lemma nearest_mono x1 x2 v1 v2 :
  nearest x1 v1 -> nearest x2 v2 -> inF v1 -> inF v2 -> x1 < x2 -> v1 <= v2.
Proof.
  intros H1 H2 Hv1 Hv2 Hx. specialize (H1 v2 Hv2). specialize (H2 v1 Hv1).
  revert H1 H2. unfold Rabs. do 4 destruct (Rcase_abs _); lra.
Qed.

(** **** Values of non-negative floats *)

Lemma bounded_canon m e :
  bounded prec emax m e = true -> canon (Z.pos m) e /\ (e <= 971)%Z.
Proof.
  unfold bounded, canonical_mantissa. intros [Hc He]%andb_prop.
  apply Z.eqb_eq in Hc. apply Z.leb_le in He. split; [exact Hc | exact He].
Qed.

Lemma nonneg_inF f : nonneg f -> inF (SF2R f) /\ 0 <= SF2R f.
Proof.
  destruct f as [s|s| |[|] m e]; simpl; try tauto.
  - intros _. split; [by left | lra].
  - intros [Hc He]%bounded_canon. split; [|apply F2R_nonneg; lia].
    right. exists (Z.pos m), e. split; [lia|]. split; [exact Hc | reflexivity].
Qed.

Lemma result_nonneg r v :
  result_is r v -> v < pow2 1024 -> nonneg r /\ SF2R r = v.
Proof.
  destruct r as [s|[|]| |[|] m e]; simpl; intros H Hv;
    try (exfalso; tauto); try (exfalso; lra).
  - subst v. split; [exact I | reflexivity].
  - destruct H as [-> Hb]. split; [exact Hb | reflexivity].
Qed.

Lemma canon_unique m1 e1 m2 e2 :
  (0 < m1)%Z -> (0 < m2)%Z -> canon m1 e1 -> canon m2 e2 ->
  F2R m1 e1 = F2R m2 e2 -> m1 = m2 /\ e1 = e2.
Proof.
  intros H1 H2 C1 C2 Heq. unfold canon in *.
  pose proof (F2R_lt_pow2 m1 e1 H1). pose proof (F2R_ge_pow2 m1 e1 H1).
  pose proof (F2R_lt_pow2 m2 e2 H2). pose proof (F2R_ge_pow2 m2 e2 H2).
  assert (dig m1 + e1 = dig m2 + e2)%Z as Hmag.
  { destruct (Z.lt_trichotomy (dig m1 + e1) (dig m2 + e2)) as [Hlt|[?|Hgt]];
      [|assumption|].
    - assert (pow2 (dig m1 + e1) <= pow2 (dig m2 - 1 + e2)) by (apply pow2_le; lia). lra.
    - assert (pow2 (dig m2 + e2) <= pow2 (dig m1 - 1 + e1)) by (apply pow2_le; lia). lra. }
  assert (e1 = e2) as <- by congruence. split; [|reflexivity].
  unfold F2R in Heq. pose proof (pow2_pos e1).
  apply eq_IZR. nra.
Qed.

Lemma nonneg_eq a b :
  nonneg a -> nonneg b -> SF2R a = SF2R b ->
  a = b \/ (exists s s', a = S754_zero s /\ b = S754_zero s').
Proof.
  destruct a as [s|s| |[|] m e], b as [s'|s'| |[|] m' e']; simpl; try tauto.
  - intros _ _ _. right. eauto.
  - intros _ [_ _]%bounded_canon Heq.
    pose proof (F2R_ge_pow2 (Z.pos m') e' ltac:(lia)).
    pose proof (pow2_pos (dig (Z.pos m') - 1 + e')). lra.
  - intros [_ _]%bounded_canon _ Heq.
    pose proof (F2R_ge_pow2 (Z.pos m) e ltac:(lia)).
    pose proof (pow2_pos (dig (Z.pos m) - 1 + e)). lra.
  - intros [C _]%bounded_canon [C' _]%bounded_canon Heq.
    destruct (canon_unique (Z.pos m) e (Z.pos m') e' ltac:(lia) ltac:(lia) C C' Heq)
      as [[= ->] ->].
    by left.
Qed.

(** On non-negative floats the comparison of the format is the one of
    the values. *)
Lemma SFcompare_nonneg a b :
  nonneg a -> nonneg b ->
  match SFcompare a b with
  | Some Lt => SF2R a < SF2R b
  | Some Eq => SF2R a = SF2R b
  | Some Gt => SF2R b < SF2R a
  | None => False
  end.
Proof.
  destruct a as [s|s| |[|] m e], b as [s'|s'| |[|] m' e']; simpl; try tauto.
  - intros _ [_ _]%bounded_canon.
    pose proof (F2R_ge_pow2 (Z.pos m') e' ltac:(lia)).
    pose proof (pow2_pos (dig (Z.pos m') - 1 + e')). lra.
  - intros [_ _]%bounded_canon _.
    pose proof (F2R_ge_pow2 (Z.pos m) e ltac:(lia)).
    pose proof (pow2_pos (dig (Z.pos m) - 1 + e)). lra.
  - intros [C _]%bounded_canon [C' _]%bounded_canon.
    unfold canon in *. rewrite fexp_eq in *.
    pose proof (F2R_lt_pow2 (Z.pos m) e ltac:(lia)).
    pose proof (F2R_ge_pow2 (Z.pos m) e ltac:(lia)).
    pose proof (F2R_lt_pow2 (Z.pos m') e' ltac:(lia)).
    pose proof (F2R_ge_pow2 (Z.pos m') e' ltac:(lia)).
    destruct (Z.compare_spec e e') as [->|Hlt|Hgt].
    + change (Pos.compare_cont Eq m m') with (Pos.compare m m').
      destruct (Pos.compare_spec m m') as [->|Hm|Hm].
      * reflexivity.
      * apply F2R_lt. lia.
      * apply F2R_lt. lia.
    + assert (pow2 (dig (Z.pos m) + e) <= pow2 (dig (Z.pos m') - 1 + e'))
        by (apply pow2_le; lia). lra.
    + assert (pow2 (dig (Z.pos m') + e') <= pow2 (dig (Z.pos m) - 1 + e))
        by (apply pow2_le; lia). lra.
Qed.

Lemma SFleb_nonneg a b :
  nonneg a -> nonneg b -> (SFleb a b = true <-> SF2R a <= SF2R b).
Proof.
  intros Ha Hb. pose proof (SFcompare_nonneg a b Ha Hb) as H.
  unfold SFleb. destruct (SFcompare a b) as [[| |]|]; try tauto;
    split; intros; try lra; try done.
Qed.

(** **** The three operations *)

Lemma dig_pow2 k : (0 <= k)%Z -> dig (2 ^ k) = (k + 1)%Z.
Proof.
  intros Hk. apply dig_unique; [|lia].
  replace (k + 1 - 1)%Z with k by lia. split; [lia|].
  apply Z.pow_lt_mono_r; lia.
Qed.

Lemma dig_mul_ge a b :
  (0 < a)%Z -> (0 < b)%Z -> (dig a + dig b - 1 <= dig (a * b))%Z.
Proof.
  intros Ha Hb.
  destruct (dig_bounds a Ha) as [[Hla _] Hda].
  destruct (dig_bounds b Hb) as [[Hlb _] Hdb].
  assert (2 ^ (dig a + dig b - 2) <= a * b)%Z as Hlow.
  { replace (dig a + dig b - 2)%Z with ((dig a - 1) + (dig b - 1))%Z by lia.
    rewrite Z.pow_add_r by lia.
    pose proof (Z.pow_pos_nonneg 2 (dig a - 1) ltac:(lia) ltac:(lia)).
    pose proof (Z.pow_pos_nonneg 2 (dig b - 1) ltac:(lia) ltac:(lia)). nia. }
  pose proof (dig_mono (2 ^ (dig a + dig b - 2)) (a * b)) as Hmono.
  rewrite dig_pow2 in Hmono by lia.
  pose proof (Z.pow_pos_nonneg 2 (dig a + dig b - 2) ltac:(lia) ltac:(lia)). lia.
Qed.

Lemma normal_nonneg c : normal c -> nonneg c /\ 0 < SF2R c.
Proof.
  destruct c as [s|s| |[|] m e]; simpl; try tauto. intros [Hb Hd].
  split; [exact Hb|]. unfold F2R. pose proof (pow2_pos e).
  assert (0 < IZR (Z.pos m)) by (apply IZR_lt; lia). nra.
Qed.

Lemma SFmul_spec a c :
  nonneg a -> normal c ->
  exists v, inF v /\ nearest (SF2R a * SF2R c) v /\ result_is (SF64mul a c) v.
Proof.
  intros Ha Hc. destruct c as [s|s| |[|] mc ec]; simpl in Hc; try tauto.
  destruct Hc as [Hbc Hdc].
  destruct a as [s|s| |[|] ma ea]; simpl in Ha; try tauto.
  - exists 0. split; [by left|]. split.
    + intros g Hg. simpl. rewrite Rmult_0_l, Rminus_diag. rewrite Rabs_R0. apply Rabs_pos.
    + reflexivity.
  - unfold SF64mul, SFmul. cbn [xorb].
    apply binary_round_aux_spec.
    + lia.
    + simpl. unfold F2R. rewrite Pos2Z.inj_mul, mult_IZR, pow2_add. ring.
    + rewrite fexp_eq.
      pose proof (dig_mul_ge (Z.pos ma) (Z.pos mc) ltac:(lia) ltac:(lia)) as Hd.
      destruct (dig_bounds (Z.pos ma) ltac:(lia)) as [_ Hda].
      rewrite Pos2Z.inj_mul. lia.
Qed.

Lemma new_location_spec m2 r :
  (0 <= r < m2)%Z ->
  match new_location m2 r with
  | loc_Exact => r = 0%Z
  | loc_Inexact Lt => (0 < r)%Z /\ (2 * r < m2)%Z
  | loc_Inexact Eq => (0 < r)%Z /\ (2 * r = m2)%Z
  | loc_Inexact Gt => (0 < r)%Z /\ (m2 < 2 * r)%Z
  end.
Proof.
  intros Hr. unfold new_location, new_location_even, new_location_odd.
  destruct (Z.even m2) eqn:Heven; destruct (Z.eqb_spec r 0) as [->|Hne];
    try reflexivity.
  - destruct (Z.compare_spec (2 * r) m2); lia.
  - assert (Z.odd m2 = true) as Hodd by (rewrite <- Z.negb_even, Heven; reflexivity).
    apply Z.odd_spec in Hodd as [k ->].
    destruct (Z.compare_spec (2 * r + 1) (2 * k + 1)); lia.
Qed.

Lemma SFdiv_core_binary_spec m1 e1 m2 e2 :
  (0 < m1)%Z -> (0 < m2)%Z ->
  let q := fst (fst (SFdiv_core_binary prec emax m1 e1 m2 e2)) in
  let e := snd (fst (SFdiv_core_binary prec emax m1 e1 m2 e2)) in
  let l := snd (SFdiv_core_binary prec emax m1 e1 m2 e2) in
  (0 <= q)%Z /\ located (F2R m1 e1 / F2R m2 e2) q e l
  /\ (e <= fexp (dig q + e))%Z.
Proof.
  intros H1 H2. unfold SFdiv_core_binary. fold (dig m1) (dig m2).
  set (e' := Z.min (fexp (dig m1 + e1 - (dig m2 + e2))) (e1 - e2)).
  set (s := (e1 - e2 - e')%Z).
  assert (0 <= s)%Z as Hs by (unfold s, e'; lia).
  set (m' := match s with
             | 0%Z => m1
             | Z.pos _ => Z.shiftl m1 s
             | Z.neg _ => 0%Z
             end).
  assert (m' = m1 * 2 ^ s)%Z as Hm'.
  { unfold m'. destruct s as [|p|p] eqn:Es; [lia| |lia].
    apply Z.shiftl_mul_pow2. lia. }
  pose proof (Z.pow_pos_nonneg 2 s ltac:(lia) Hs) as Hpow.
  pose proof (Z_div_mod m' m2 ltac:(lia)) as Hdm.
  destruct (Z.div_eucl m' m2) as [q r]. destruct Hdm as [Hqr Hr].
  cbn [fst snd].
  assert (0 <= q)%Z as Hq by nia.
  split; [exact Hq|]. split.
  - (* the quotient locates the exact ratio *)
    assert (Hx : F2R m1 e1 / F2R m2 e2 = F2R q e' + IZR r / IZR m2 * pow2 e').
    { unfold F2R. replace e1 with (e' + s + e2)%Z by (unfold s; lia).
      rewrite !pow2_add, (pow2_IZR s Hs).
      assert (IZR m1 * IZR (2 ^ s) = IZR m2 * IZR q + IZR r) as Hreal.
      { rewrite <- !mult_IZR, <- plus_IZR. f_equal. lia. }
      pose proof (pow2_pos e2). pose proof (pow2_pos e').
      assert (0 < IZR m2) by (apply IZR_lt; lia).
      field_simplify_eq; [|lra]. nra. }
    rewrite Hx. pose proof (new_location_spec m2 r Hr) as Hloc.
    pose proof (pow2_pos e') as Hp.
    assert (0 < IZR m2) as HM by (apply IZR_lt; lia).
    set (t := IZR r / IZR m2).
    assert (t * IZR m2 = IZR r) as Ht by (unfold t; field; lra).
    clearbody t.
    destruct (new_location m2 r) as [|[| |]]; unfold located.
    + subst r. assert (t = 0) as -> by nra. lra.
    + destruct Hloc as [Hr0 Hr2]. apply (f_equal IZR) in Hr2. rewrite mult_IZR in Hr2.
      assert (t = / 2) as ->; [|lra].
      apply Rmult_eq_reg_r with (IZR m2); lra.
    + destruct Hloc as [Hr0 Hr2]. apply IZR_lt in Hr0, Hr2. rewrite mult_IZR in Hr2.
      assert (0 < t) by nra. assert (t < / 2) by nra. nra.
    + destruct Hloc as [Hr0 Hr2]. apply IZR_lt in Hr0, Hr2. rewrite mult_IZR in Hr2.
      assert (/ 2 < t) by nra.
      assert (t < 1) by (destruct Hr as [_ Hr]; apply IZR_lt in Hr; nra). nra.
  - (* the quotient has enough digits *)
    assert (dig m1 + s - dig m2 <= dig q)%Z as Hdq.
    { pose proof (dig_nonneg q Hq).
      destruct (Z_le_gt_dec (dig m1 + s - dig m2) 0) as [|Hk]; [lia|].
      destruct (dig_bounds m1 H1) as [[Hl1 _] Hd1].
      destruct (dig_bounds m2 H2) as [[_ Hu2] Hd2].
      set (k := (dig m1 + s - dig m2 - 1)%Z).
      assert (2 ^ k <= q)%Z as Hkq.
      { assert (q = m' / m2)%Z as -> by (apply Z.div_unique with r; lia).
        apply Z.div_le_lower_bound; [lia|].
        assert (2 ^ (k + dig m2) <= m')%Z.
        { rewrite Hm'. replace (k + dig m2)%Z with ((dig m1 - 1) + s)%Z by (unfold k; lia).
          rewrite Z.pow_add_r by lia. nia. }
        rewrite Z.pow_add_r in * by (unfold k; lia).
        pose proof (Z.pow_pos_nonneg 2 k ltac:(lia) ltac:(unfold k; lia)). nia. }
      pose proof (dig_mono (2 ^ k) q) as Hmono. rewrite dig_pow2 in Hmono by (unfold k; lia).
      pose proof (Z.pow_pos_nonneg 2 k ltac:(lia) ltac:(unfold k; lia)).
      unfold k in *. lia. }
    clear Hm' Hpow Hqr. clearbody m'. unfold s, e' in Hdq |- *.
    rewrite !fexp_eq in Hdq. rewrite !fexp_eq. lia.
Qed.

Lemma nearest_refl x : nearest x x.
Proof. intros g _. rewrite Rminus_diag, Rabs_R0. apply Rabs_pos. Qed.

Lemma SFdiv_spec a c :
  nonneg a -> normal c ->
  exists v, inF v /\ nearest (SF2R a / SF2R c) v /\ result_is (SF64div a c) v.
Proof.
  intros Ha Hc. destruct c as [s|s| |[|] mc ec]; unfold normal in Hc; try tauto.
  destruct a as [s|s| |[|] ma ea]; unfold nonneg in Ha; try tauto.
  - exists 0. split; [by left|]. split; [|reflexivity].
    cbn [SF2R]. replace (0 / _) with 0 by (unfold Rdiv; ring). apply nearest_refl.
  - unfold SF64div, SFdiv. cbn [xorb].
    destruct (SFdiv_core_binary_spec (Z.pos ma) ea (Z.pos mc) ec ltac:(lia) ltac:(lia))
      as (Hq & Hloc & Hpre).
    destruct (SFdiv_core_binary prec emax (Z.pos ma) ea (Z.pos mc) ec) as [[mz ez] lz].
    cbn [fst snd] in Hq, Hloc, Hpre.
    by apply binary_round_aux_spec.
Qed.

Lemma iter_xO m d : Z.pos (Pos.iter xO m d) = (Z.pos m * 2 ^ Z.pos d)%Z.
Proof.
  induction d as [|d IH] using Pos.peano_ind.
  - simpl. lia.
  - rewrite Pos.iter_succ, Pos2Z.inj_xO, IH, Pos2Z.inj_succ, Z.pow_succ_r by lia. lia.
Qed.

Lemma shl_align_spec mx ex ex' :
  let mz := fst (shl_align mx ex ex') in
  let ez := snd (shl_align mx ex ex') in
  F2R (Z.pos mz) ez = F2R (Z.pos mx) ex
  /\ (dig (Z.pos mz) + ez = dig (Z.pos mx) + ex)%Z
  /\ ((ex' <= ex)%Z -> ez = ex') /\ ((ex < ex')%Z -> ez = ex).
Proof.
  unfold shl_align. destruct (ex' - ex)%Z as [|d|d] eqn:Hd; cbn [fst snd].
  - repeat split; lia.
  - repeat split; lia.
  - rewrite iter_xO. replace ex with (ex' + Z.pos d)%Z by lia.
    rewrite F2R_shift, dig_mul_pow2 by lia. repeat split; lia.
Qed.

Lemma binary_round_spec m e :
  exists v, inF v /\ nearest (F2R (Z.pos m) e) v
            /\ result_is (binary_round prec emax false m e) v.
Proof.
  unfold binary_round. change (Z.pos (digits2_pos m)) with (dig (Z.pos m)).
  destruct (shl_align_spec m e (fexp (dig (Z.pos m) + e))) as (Hv & Hd & Hle & Hgt).
  destruct (shl_align m e (fexp (dig (Z.pos m) + e))) as [mz ez].
  cbn [fst snd] in Hv, Hd, Hle, Hgt.
  apply binary_round_aux_spec; [lia | symmetry; exact Hv |].
  rewrite Hd. destruct (Z_le_gt_dec (fexp (dig (Z.pos m) + e)) e); lia.
Qed.

Lemma SFadd_spec c a :
  normal c -> nonneg a ->
  exists v, inF v /\ nearest (SF2R c + SF2R a) v /\ result_is (SF64add c a) v.
Proof.
  intros Hc Ha. pose proof (normal_nonneg c Hc) as [Hcn _].
  destruct c as [s|s| |[|] mc ec]; unfold normal in Hc; try tauto.
  destruct a as [s|s| |[|] ma ea]; unfold nonneg in Ha; try tauto.
  - exists (SF2R (S754_finite false mc ec)). split; [by apply nonneg_inF|]. split.
    + cbn [SF2R]. rewrite Rplus_0_r. apply nearest_refl.
    + cbn. split; [reflexivity | exact Hcn].
  - unfold SF64add, SFadd. cbn [cond_Zopp].
    destruct (shl_align_spec mc ec (Z.min ec ea)) as (Hvc & _ & Hec & _).
    destruct (shl_align_spec ma ea (Z.min ec ea)) as (Hva & _ & Hea & _).
    destruct (shl_align mc ec (Z.min ec ea)) as [mc' ec'].
    destruct (shl_align ma ea (Z.min ec ea)) as [ma' ea'].
    cbn [fst snd] in *. specialize (Hec ltac:(lia)). specialize (Hea ltac:(lia)).
    subst ec' ea'. change (Z.pos mc' + Z.pos ma')%Z with (Z.pos (mc' + ma')).
    cbn [binary_normalize].
    assert (SF2R (S754_finite false mc ec) + SF2R (S754_finite false ma ea)
            = F2R (Z.pos (mc' + ma')) (Z.min ec ea)) as ->.
    { cbn [SF2R cond_Zopp]. rewrite <- Hvc, <- Hva. unfold F2R.
      rewrite Pos2Z.inj_add, plus_IZR. ring. }
    apply binary_round_spec.
Qed.

(** **** The opacity scale *)

Lemma Prim2SF_constants :
  Prim2SF 100 = c100 /\ Prim2SF 0x1.999999999999ap-2 = c04
  /\ Prim2SF 0x1.6666666666666p-2 = c035 /\ Prim2SF 0.75 = c075
  /\ Prim2SF 0 = S754_zero false.
Proof. repeat split; vm_compute; reflexivity. Qed.

Lemma normal_constants : normal c100 /\ normal c04 /\ normal c035 /\ normal c075.
Proof. repeat split; vm_compute; reflexivity. Qed.

Lemma SF2R_c100 : SF2R c100 = 100.
Proof.
  cbn [SF2R c100 cond_Zopp].
  change 7036874417766400%Z with (100 * 2 ^ 46)%Z.
  rewrite F2R_shift by lia. change (-46 + 46)%Z with 0%Z.
  unfold F2R. rewrite pow2_0. lra.
Qed.

Lemma SF2R_c075 : SF2R c035 + SF2R c04 = SF2R c075.
Proof.
  cbn [SF2R c035 c04 c075 cond_Zopp].
  replace (F2R 6755399441055744 (-53)) with (F2R (6755399441055744 * 2 ^ 1) (-54)).
  - unfold F2R. rewrite <- Rmult_plus_distr_r, <- plus_IZR. reflexivity.
  - rewrite F2R_shift by lia. reflexivity.
Qed.

Lemma inF_one : inF 1.
Proof.
  right. exists (2 ^ 52)%Z, (-52)%Z. split; [reflexivity|]. split; [reflexivity|].
  rewrite <- (Z.mul_1_l (2 ^ 52)), F2R_shift by lia. change (-52 + 52)%Z with 0%Z.
  unfold F2R. rewrite pow2_0. lra.
Qed.

Lemma normal_lt_one c :
  normal c -> (match c with S754_finite _ _ e => e <= -53 | _ => True end)%Z ->
  SF2R c < 1.
Proof.
  destruct c as [s|s| |[|] m e]; unfold normal; try tauto. intros [_ Hd] He.
  cbn [SF2R cond_Zopp]. pose proof (F2R_lt_pow2 (Z.pos m) e ltac:(lia)) as Hlt.
  assert (pow2 (dig (Z.pos m) + e) <= pow2 0) by (apply pow2_le; lia).
  rewrite pow2_0 in *. lra.
Qed.

Lemma one_lt_huge : 1 < pow2 1024.
Proof. rewrite <- pow2_0. apply pow2_lt. lia. Qed.

Lemma stage_mono (op : spec_float -> spec_float) (exact : R -> R) a1 a2 :
  (forall x y, x < y -> exact x < exact y) ->
  (forall s s', SF2R (op (S754_zero s)) = SF2R (op (S754_zero s'))) ->
  nonneg a1 -> nonneg a2 ->
  inF (SF2R (op a1)) -> nearest (exact (SF2R a1)) (SF2R (op a1)) ->
  inF (SF2R (op a2)) -> nearest (exact (SF2R a2)) (SF2R (op a2)) ->
  SF2R a1 <= SF2R a2 -> SF2R (op a1) <= SF2R (op a2).
Proof.
  intros Hexact Hzero Ha1 Ha2 Hf1 Hn1 Hf2 Hn2 [Hlt|Heq].
  - eapply nearest_mono; eauto.
  - destruct (nonneg_eq a1 a2 Ha1 Ha2 Heq) as [->|(s & s' & -> & ->)].
    + lra.
    + rewrite (Hzero s s'). lra.
Qed.

(** One stage: the operation applied to a non-negative float whose exact
    result does not exceed a number of the format below the overflow
    threshold. *)
Lemma stage_result r v x g :
  inF v -> nearest x v -> result_is r v -> inF g -> x <= g -> g <= 1 ->
  nonneg r /\ inF (SF2R r) /\ nearest x (SF2R r) /\ SF2R r <= g.
Proof.
  intros Hv Hn Hr Hg Hx Hg1.
  pose proof (nearest_le_upper x v g Hn Hg Hx) as Hle.
  pose proof one_lt_huge.
  destruct (result_nonneg r v Hr ltac:(lra)) as [Hnn ->]. done.
Qed.

Lemma opacity_stages a :
  nonneg a -> SF2R a <= 100 ->
  let d := SF64div a c100 in
  let t := SF64mul d c04 in
  let r := SF64add c035 t in
  (nonneg d /\ inF (SF2R d) /\ nearest (SF2R a / SF2R c100) (SF2R d) /\ SF2R d <= 1)
  /\ (nonneg t /\ inF (SF2R t) /\ nearest (SF2R d * SF2R c04) (SF2R t)
      /\ SF2R t <= SF2R c04)
  /\ (nonneg r /\ inF (SF2R r) /\ nearest (SF2R c035 + SF2R t) (SF2R r)
      /\ SF2R r <= SF2R c075)
  /\ SF2R c035 <= SF2R r.
Proof.
  intros Ha H100 d t r.
  destruct normal_constants as (N100 & N04 & N035 & N075).
  destruct (nonneg_inF a Ha) as [_ Ha0].
  destruct (normal_nonneg c04 N04) as [Hn04 Hp04].
  destruct (normal_nonneg c035 N035) as [Hn035 Hp035].
  destruct (normal_nonneg c075 N075) as [Hn075 _].
  pose proof (normal_lt_one c04 N04 ltac:(simpl; lia)) as H04.
  pose proof (normal_lt_one c075 N075 ltac:(simpl; lia)) as H075.
  (* division *)
  destruct (SFdiv_spec a c100 Ha N100) as (vd & Hvd & Hnd & Hrd).
  destruct (stage_result _ _ _ 1 Hvd Hnd Hrd inF_one) as (Hd1 & Hd2 & Hd3 & Hd4).
  { rewrite SF2R_c100. lra. }
  { lra. }
  fold d in Hd1, Hd2, Hd3, Hd4.
  destruct (nonneg_inF d Hd1) as [_ Hd0].
  (* multiplication *)
  destruct (SFmul_spec d c04 Hd1 N04) as (vt & Hvt & Hnt & Hrt).
  destruct (stage_result _ _ _ (SF2R c04) Hvt Hnt Hrt) as (Ht1 & Ht2 & Ht3 & Ht4).
  { by apply nonneg_inF. }
  { nra. }
  { lra. }
  fold t in Ht1, Ht2, Ht3, Ht4.
  destruct (nonneg_inF t Ht1) as [_ Ht0].
  (* addition *)
  destruct (SFadd_spec c035 t N035 Ht1) as (vr & Hvr & Hnr & Hrr).
  destruct (stage_result _ _ _ (SF2R c075) Hvr Hnr Hrr) as (Hr1 & Hr2 & Hr3 & Hr4).
  { by apply nonneg_inF. }
  { rewrite <- SF2R_c075. lra. }
  { lra. }
  fold r in Hr1, Hr2, Hr3, Hr4.
  repeat split; try assumption.
  eapply nearest_ge_lower; [exact Hr3 | by apply nonneg_inF | lra].
Qed.

Lemma opacitySF_mono a1 a2 :
  nonneg a1 -> nonneg a2 -> SF2R a1 <= SF2R a2 -> SF2R a2 <= 100 ->
  SF2R (opacitySF a1) <= SF2R (opacitySF a2).
Proof.
  intros Ha1 Ha2 Hle H100.
  destruct (opacity_stages a1 Ha1 ltac:(lra)) as ((Hd1 & Hfd1 & Hnd1 & _) & (Ht1 & Hft1 & Hnt1 & _) & (_ & Hfr1 & Hnr1 & _) & _).
  destruct (opacity_stages a2 Ha2 H100) as ((Hd2 & Hfd2 & Hnd2 & _) & (Ht2 & Hft2 & Hnt2 & _) & (_ & Hfr2 & Hnr2 & _) & _).
  destruct normal_constants as (N100 & N04 & N035 & _).
  destruct (normal_nonneg c100 N100) as [_ Hp100].
  destruct (normal_nonneg c04 N04) as [_ Hp04].
  assert (SF2R (SF64div a1 c100) <= SF2R (SF64div a2 c100)) as Hd.
  { apply (stage_mono (fun a => SF64div a c100) (fun x => x / SF2R c100));
      try assumption.
    - intros x y Hxy. apply Rmult_lt_compat_r; [|exact Hxy].
      by apply Rinv_0_lt_compat.
    - intros [|] [|]; reflexivity. }
  assert (SF2R (SF64mul (SF64div a1 c100) c04)
          <= SF2R (SF64mul (SF64div a2 c100) c04)) as Ht.
  { apply (stage_mono (fun d => SF64mul d c04) (fun x => x * SF2R c04));
      try assumption.
    - intros x y Hxy. by apply Rmult_lt_compat_r.
    - intros [|] [|]; reflexivity. }
  apply (stage_mono (fun t => SF64add c035 t) (fun x => SF2R c035 + x));
    try assumption.
  - intros x y Hxy. lra.
  - intros [|] [|]; reflexivity.
Qed.

Lemma percent_range P Q :
  valid_binary P = true -> valid_binary Q = true ->
  SFleb (S754_zero false) P = true -> SFleb P Q = true -> SFleb Q c100 = true ->
  nonneg P /\ nonneg Q /\ SF2R P <= SF2R Q /\ SF2R Q <= 100.
Proof.
  intros HvP HvQ H0P HPQ HQ100.
  destruct normal_constants as (N100 & _). destruct (normal_nonneg c100 N100) as [Hn100 _].
  assert (nonneg P /\ nonneg Q) as [HP HQ].
  { destruct P as [sp|[|]| |[|] mp ep], Q as [sq|[|]| |[|] mq eq];
      try (simpl in H0P; discriminate H0P);
      try (simpl in HPQ; discriminate HPQ);
      try (simpl in HQ100; discriminate HQ100);
      split; try exact I; assumption. }
  split; [exact HP|]. split; [exact HQ|]. split.
  - by apply SFleb_nonneg.
  - rewrite <- SF2R_c100. by apply SFleb_nonneg.
Qed.

Lemma Prim2SF_opacity p :
  Prim2SF (MapView.getSanitationOpacity p) = opacitySF (Prim2SF p).
Proof.
  destruct Prim2SF_constants as (E100 & E04 & E035 & _).
  unfold MapView.getSanitationOpacity, opacitySF.
  by rewrite add_spec, mul_spec, div_spec, E100, E04, E035.
Qed.


(** C8: on the doubles, the opacity is exactly the double of 0.35 at 0 and
    exactly 0.75 at 100, and for all percentages 0 <= p <= q <= 100 it is
    non-decreasing, and at each of them it lies between the double of 0.35
    and 0.75. *)
Theorem getSanitationOpacity_monotone_bounded :
  MapView.getSanitationOpacity 0 = 0x1.6666666666666p-2%float
  /\ MapView.getSanitationOpacity 100 = 0.75%float
  /\ (forall p q : float,
        (0 <=? p)%float = true -> (p <=? q)%float = true ->
        (q <=? 100)%float = true ->
        (MapView.getSanitationOpacity p <=? MapView.getSanitationOpacity q)%float = true
        /\ (0x1.6666666666666p-2 <=? MapView.getSanitationOpacity p)%float = true
        /\ (MapView.getSanitationOpacity p <=? 0.75)%float = true
        /\ (0x1.6666666666666p-2 <=? MapView.getSanitationOpacity q)%float = true
        /\ (MapView.getSanitationOpacity q <=? 0.75)%float = true).
Proof.
  split; [vm_compute; reflexivity|]. split; [vm_compute; reflexivity|].
  intros p q H0p Hpq Hq100.
  destruct Prim2SF_constants as (E100 & E04 & E035 & E075 & E0).
  rewrite leb_spec in H0p, Hpq, Hq100. rewrite E0 in H0p. rewrite E100 in Hq100.
  destruct (percent_range (Prim2SF p) (Prim2SF q) (Prim2SF_valid p) (Prim2SF_valid q)
              H0p Hpq Hq100) as (HP & HQ & Hle & H100).
  rewrite !leb_spec, !Prim2SF_opacity, E035, E075.
  destruct normal_constants as (_ & _ & N035 & N075).
  destruct (normal_nonneg c035 N035) as [Hn035 _].
  destruct (normal_nonneg c075 N075) as [Hn075 _].
  destruct (opacity_stages (Prim2SF p) HP ltac:(apply Rle_trans with (1 := Hle); exact H100))
    as (_ & _ & (Hrp & _ & _ & Hupp) & Hlowp).
  destruct (opacity_stages (Prim2SF q) HQ H100) as (_ & _ & (Hrq & _ & _ & Hupq) & Hlowq).
  fold (opacitySF (Prim2SF p)) in Hrp, Hlowp, Hupp.
  fold (opacitySF (Prim2SF q)) in Hrq, Hlowq, Hupq.
  split; [|repeat split; by apply SFleb_nonneg].
  apply SFleb_nonneg; [exact Hrp | exact Hrq |]. by apply opacitySF_mono.
Qed.

Lemma getSanitationOpacity_monotone_bounded_witness :
  (MapView.getSanitationOpacity 14.5 <=? MapView.getSanitationOpacity 90.5)%float = true
  /\ (0x1.6666666666666p-2 <=? MapView.getSanitationOpacity 14.5)%float = true
  /\ (MapView.getSanitationOpacity 90.5 <=? 0.75)%float = true.
Proof.
  destruct getSanitationOpacity_monotone_bounded as (_ & _ & H).
  destruct (H 14.5%float 90.5%float) as (Hmono & Hlow & _ & _ & Hup);
    [vm_compute; reflexivity .. |].
  split; [exact Hmono|]. split; [exact Hlow | exact Hup].
Defined.

End FloatRounding.

(** *** Keys of the API operations *)

Section ApiKeys.
Import Api ApiTables.

Ltac push_append_in H :=
  repeat (rewrite append_nil_l in H || rewrite append_cons_l in H).

(** X1: the five operations that go through the cache never share an
    entry: whatever their arguments, the keys of [fetchStates],
    [fetchMunicipios], [fetchBrazilGeoJSON], [fetchDiseaseData] and
    [fetchNationalOverview] are pairwise different. *)
Theorem cache_keys_of_operations_differ
    (ufId : string) (g : Z) (d : string) (ws we ys ye : Z) (d' : string) :
  states_key <> municipios_key ufId
  /\ states_key <> brazil_geo_key
  /\ states_key <> disease_key g d ws we ys ye
  /\ states_key <> national_key d'
  /\ municipios_key ufId <> brazil_geo_key
  /\ municipios_key ufId <> disease_key g d ws we ys ye
  /\ municipios_key ufId <> national_key d'
  /\ brazil_geo_key <> disease_key g d ws we ys ye
  /\ brazil_geo_key <> national_key d'
  /\ disease_key g d ws we ys ye <> national_key d'.
Proof.
  unfold states_key, municipios_key, brazil_geo_key, disease_key, national_key.
  rewrite !cacheKey_cons.
  repeat split; intros H; push_append_in H; discriminate H.
Qed.

Lemma pretty_N_go_no_delimiter (x : N) (s : string) :
  has_delimiter s = false -> has_delimiter (pretty_N_go x s) = false.
Proof.
  revert s. induction (N.lt_wf_0 x) as [x _ IH]; intros s Hs.
  destruct (decide (x = 0%N)) as [->|Hx]; [by rewrite pretty_N_go_0|].
  rewrite pretty_N_go_step by lia. apply IH.
  - apply N.div_lt; lia.
  - simpl. unfold pretty_N_char. by repeat case_match.
Qed.

(** The numeral of an integer holds no delimiter. *)
Lemma pretty_Z_no_delimiter (z : Z) : has_delimiter (pretty z) = false.
Proof.
  assert (Hpos : forall p : positive, has_delimiter (pretty p) = false).
  { intros p. unfold pretty, pretty_positive, pretty, pretty_N.
    case_decide; [done|]. by apply pretty_N_go_no_delimiter. }
  destruct z as [|p|p]; unfold pretty, pretty_Z; [done | apply Hpos |].
  rewrite has_delimiter_app. by apply orb_false_iff.
Qed.



End ApiKeys.

(** *** Case series *)

Section DiseaseSeries.
Import Api.
Implicit Types (r : AlertRecord) (l records : list AlertRecord) (c : ApiCache).

Lemma insert_by_SE_perm r l : insert_by_SE r l ≡ₚ r :: l.
Proof.
  induction l as [|x l IH]; simpl; [done|].
  destruct (SE r <=? SE x); [done|]. rewrite IH. apply Permutation_swap.
Qed.

Lemma sort_by_SE_perm l : sort_by_SE l ≡ₚ l.
Proof.
  induction l as [|x l IH]; simpl; [done|].
  fold (sort_by_SE l). by rewrite insert_by_SE_perm, IH.
Qed.

Lemma insert_by_SE_sorted r l :
  StronglySorted (fun a b => SE a <= SE b) l ->
  StronglySorted (fun a b => SE a <= SE b) (insert_by_SE r l).
Proof.
  induction 1 as [|x l Hl IH Hx]; simpl; [repeat constructor|].
  destruct (SE r <=? SE x) eqn:Hle.
  - apply Z.leb_le in Hle. constructor; [by constructor|].
    constructor; [exact Hle|]. eapply Forall_impl; [exact Hx|].
    intros y Hy. simpl in Hy. lia.
  - apply Z.leb_gt in Hle. constructor; [exact IH|].
    rewrite insert_by_SE_perm. constructor; [lia | exact Hx].
Qed.

Lemma sort_by_SE_sorted l : StronglySorted (fun a b => SE a <= SE b) (sort_by_SE l).
Proof.
  induction l as [|x l IH]; simpl; [constructor|].
  by apply insert_by_SE_sorted.
Qed.

(** Insertion keeps the order among the records of one week. *)
Lemma insert_by_SE_week r l (k : Z) :
  filter (fun x => SE x = k) (insert_by_SE r l) = filter (fun x => SE x = k) (r :: l).
Proof.
  induction l as [|x l IH]; simpl; [done|].
  destruct (SE r <=? SE x) eqn:Hle; [done|]. apply Z.leb_gt in Hle.
  rewrite (filter_cons _ x), IH, !filter_cons.
  repeat case_decide; try done; lia.
Qed.

Lemma sort_by_SE_week l (k : Z) :
  filter (fun x => SE x = k) (sort_by_SE l) = filter (fun x => SE x = k) l.
Proof.
  induction l as [|x l IH]; simpl; [done|]. fold (sort_by_SE l).
  by rewrite insert_by_SE_week, !filter_cons, IH.
Qed.

Lemma set_series_same c : set_series (series c) c = c.
Proof. by destruct c. Qed.

(** A call whose key has an entry resolves with it, whatever the
    network would answer. *)
Lemma fetchDiseaseData_hit net g d ws we ys ye c v :
  series c !! disease_key g d ws we ys ye = Some v ->
  fetchDiseaseData net g d ws we ys ye c = (c, Fulfilled v).
Proof.
  intros Hkey. unfold fetchDiseaseData, cachedFetch, cachedFetch_call.
  by rewrite Hkey.
Qed.



(** X4: when the key has no entry and the request fails (the network
    is down, the status is not ok, the body is not JSON, or it is JSON but
    not an array), [fetchDiseaseData] rejects and leaves the cache exactly
    as it was, so that the next call asks the service again; a status that
    is not ok is reported with the name of the disease. *)
Theorem fetchDiseaseData_failure_leaves_cache net g d ws we ys ye c :
  series c !! disease_key g d ws we ys ye = None ->
  (forall records, net g d ws we ys ye <> JsonArray records) ->
  exists reason,
    fetchDiseaseData net g d ws we ys ye c = (c, Rejected reason)
    /\ (net g d ws we ys ye = HttpError ->
        reason = ("Falha ao carregar dados de " ++ d)%string).
Proof.
  intros Hkey Hnet.
  unfold fetchDiseaseData, cachedFetch, cachedFetch_call, disease_fetcher.
  rewrite Hkey.
  destruct (net g d ws we ys ye) as [| | |records|] eqn:Hresp;
    try (eexists; simpl; rewrite set_series_same; split; [reflexivity|]; done).
  by destruct (Hnet records).
Qed.

Lemma fetchDiseaseData_failure_leaves_cache_witness :
  let net : Network := fun _ _ _ _ _ _ => HttpError in
  exists reason,
    fetchDiseaseData net 3550308 "zika" 1 52 2025 2025 empty_cache
    = (empty_cache, Rejected reason)
    /\ reason = "Falha ao carregar dados de zika"%string.
Proof.
  intros net.
  destruct (fetchDiseaseData_failure_leaves_cache net 3550308 "zika"%string 1 52 2025 2025
              empty_cache eq_refl) as (reason & Hrun & Hmsg).
  { intros records. discriminate. }
  exists reason. split; [exact Hrun | by apply Hmsg].
Defined.

(** X5: the weeks the national overview asks for. For a date [d] whole
    days after the first of January, the last week is at most 52, the
    first week is between 1 and 48, and at most five weeks are asked for:
    exactly the last five from the 29th day on. On the first of January
    itself the last week is 0 and the first is 1, so the request runs from
    week 1 to week 0. *)
Theorem overview_weeks (now : Clock) :
  0 <= dayOfYear now ->
  0 <= currentEW now <= 52
  /\ 1 <= startEW now <= 48
  /\ currentEW now - startEW now <= 4
  /\ (startEW now <= currentEW now <-> 1 <= dayOfYear now)
  /\ (29 <= dayOfYear now -> startEW now = currentEW now - 4)
  /\ (dayOfYear now = 0 -> currentEW now = 0 /\ startEW now = 1).
Proof.
  intros Hd. unfold startEW, currentEW.
  pose proof (Z.div_mod (dayOfYear now + 6) 7 ltac:(lia)) as Hdiv.
  pose proof (Z.mod_pos_bound (dayOfYear now + 6) 7 ltac:(lia)) as Hmod.
  set (q := (dayOfYear now + 6) / 7) in *.
  set (m := (dayOfYear now + 6) mod 7) in *.
  repeat split; lia.
Qed.

Lemma overview_weeks_witness :
  let today := {| currentYear := 2025; dayOfYear := 70 |} in
  currentEW today = 10 /\ startEW today = 6.
Proof.
  intros today.
  destruct (overview_weeks today ltac:(simpl; lia)) as (_ & _ & _ & _ & Hlate & _).
  specialize (Hlate ltac:(simpl; lia)).
  assert (Hcur : currentEW today = 10) by reflexivity.
  split; [exact Hcur | rewrite Hlate, Hcur; reflexivity].
Defined.

(** An entry of the series cache is never removed or replaced. *)
Lemma fetchDiseaseData_keeps_series net g d ws we ys ye c (k : string) v :
  series c !! k = Some v ->
  series (fetchDiseaseData net g d ws we ys ye c).1 !! k = Some v.
Proof.
  intros Hk. unfold fetchDiseaseData, cachedFetch, cachedFetch_call.
  destruct (series c !! disease_key g d ws we ys ye) as [v'|] eqn:Hkey; [done|].
  unfold disease_fetcher.
  destruct (net g d ws we ys ye); simpl; try done.
  rewrite lookup_insert_ne; [done | congruence].
Qed.

(** A fulfilled call leaves its result under its key. *)
Lemma fetchDiseaseData_stores net g d ws we ys ye c c1 v :
  fetchDiseaseData net g d ws we ys ye c = (c1, Fulfilled v) ->
  series c1 !! disease_key g d ws we ys ye = Some v.
Proof.
  unfold fetchDiseaseData, cachedFetch, cachedFetch_call.
  destruct (series c !! disease_key g d ws we ys ye) as [v'|] eqn:Hkey.
  - by intros [= <- <-].
  - unfold disease_fetcher.
    destruct (net g d ws we ys ye); simpl; intros [= <- <-].
    simpl. by rewrite lookup_insert_eq.
Qed.

Lemma allSettled_tasks_keeps_series net now d caps c (k : string) v :
  series c !! k = Some v ->
  series (allSettled_tasks net now d caps c).1 !! k = Some v.
Proof.
  revert c. induction caps as [|cap caps IH]; intros c Hk; simpl; [done|].
  destruct (capital_task net now d cap c) as [c1 r] eqn:Htask.
  specialize (IH c1). destruct (allSettled_tasks net now d caps c1) as [c2 rs].
  simpl in *. apply IH. unfold capital_task in Htask.
  pose proof (fetchDiseaseData_keeps_series net (geocode cap) d (startEW now)
                (currentEW now) (currentYear now) (currentYear now) c k v Hk) as Hkeep.
  destruct (fetchDiseaseData _ _ _ _ _ _ _ c) as [c0 o].
  by injection Htask as <- _.
Qed.

Lemma allSettled_tasks_caches net now d caps c e :
  Fulfilled e ∈ (allSettled_tasks net now d caps c).2 -> data e <> [] ->
  series (allSettled_tasks net now d caps c).1
    !! disease_key (geocode (capital e)) d (startEW now) (currentEW now)
         (currentYear now) (currentYear now) = Some (data e).
Proof.
  revert c. induction caps as [|cap caps IH]; intros c; simpl.
  { by intros ?%elem_of_nil. }
  destruct (capital_task net now d cap c) as [c1 r] eqn:Htask.
  pose proof (allSettled_tasks_keeps_series net now d caps c1) as Hkeep.
  specialize (IH c1). destruct (allSettled_tasks net now d caps c1) as [c2 rs].
  simpl in *. intros [Hr|Hin]%elem_of_cons Hdata; [subst r|by apply IH].
  apply Hkeep. unfold capital_task in Htask.
  destruct (fetchDiseaseData net (geocode cap) d (startEW now) (currentEW now)
              (currentYear now) (currentYear now) c) as [c0 o] eqn:Hfetch.
  destruct o as [records|reason]; injection Htask as <- <-; [|done].
  simpl. by apply fetchDiseaseData_stores in Hfetch.
Qed.

Lemma fulfilled_values_elem {A : Type} (x : A) (rs : list (Settled A)) :
  x ∈ fulfilled_values rs -> Fulfilled x ∈ rs.
Proof.
  induction rs as [|[v|reason] rs IH]; simpl.
  - by intros ?%elem_of_nil.
  - intros [->|Hin]%elem_of_cons; [left | right; by apply IH].
  - intros Hin. right. by apply IH.
Qed.



Lemma fetchDiseaseData_failed net g d ws we ys ye c :
  series c !! disease_key g d ws we ys ye = None ->
  (forall records, net g d ws we ys ye <> JsonArray records) ->
  exists reason, fetchDiseaseData net g d ws we ys ye c = (c, Rejected reason).
Proof.
  intros Hkey Hnet.
  unfold fetchDiseaseData, cachedFetch, cachedFetch_call, disease_fetcher.
  rewrite Hkey.
  destruct (net g d ws we ys ye) as [| | |records|] eqn:Hresp;
    try (eexists; simpl; by rewrite set_series_same).
  by destruct (Hnet records).
Qed.

Lemma allSettled_tasks_all_failed net now d caps c :
  (forall g ws we ys ye records, net g d ws we ys ye <> JsonArray records) ->
  series c = ∅ ->
  allSettled_tasks net now d caps c
  = (c, (fun cap => Fulfilled {| capital := cap; data := []; latest := None |}) <$> caps).
Proof.
  intros Hnet Hempty. induction caps as [|cap caps IH]; simpl; [done|].
  unfold capital_task.
  destruct (fetchDiseaseData_failed net (geocode cap) d (startEW now) (currentEW now)
              (currentYear now) (currentYear now) c) as [reason ->].
  - by rewrite Hempty, lookup_empty.
  - intros records. apply Hnet.
  - by rewrite IH.
Qed.



End DiseaseSeries.

(** *** Lookup tables *)

Section Tables.
Import ApiTables StateMap.

Lemma at_number_Some {A : Type} (table : list (Z * A)) (n : JsNumber) (a : A) :
  at_number table n = Some a -> exists z, (z, a) ∈ table /\ n = jsInt z.
Proof.
  unfold at_number. destruct (List.find _ table) as [[z a']|] eqn:Hfind; [|done].
  intros [= <-]. apply find_some in Hfind as [Hin Heq].
  exists z. split; [by apply list_elem_of_In|]. by apply bool_decide_eq_true in Heq.
Qed.

(** X7: [getUFAbbreviation] knows exactly the codes of [UF_IDS]: it
    returns a non-empty abbreviation for a number if and only if the
    number is one of the 27 codes (for every other number, NaN and the
    infinities included, it returns the empty string), and different
    codes have different abbreviations. *)
Theorem getUFAbbreviation_known_iff :
  (forall n : JsNumber,
      getUFAbbreviation n <> ""%string
      <-> exists ufId, ufId ∈ MapView.UF_IDS /\ n = jsInt ufId)
  /\ (forall a b, a ∈ MapView.UF_IDS -> b ∈ MapView.UF_IDS ->
        getUFAbbreviation (jsInt a) = getUFAbbreviation (jsInt b) -> a = b).
Proof.
  split.
  - intros n. split.
    + unfold getUFAbbreviation, str_or.
      destruct (at_number uf_abbreviations n) as [abbr|] eqn:Hat; [|done].
      intros _. apply at_number_Some in Hat as (z & Hin & ->).
      exists z. split; [|done].
      change MapView.UF_IDS with (uf_abbreviations.*1).
      apply list_elem_of_fmap. by exists (z, abbr).
    + intros (ufId & Hin & ->).
      assert (Hall : Forall (fun z => getUFAbbreviation (jsInt z) <> ""%string)
                       MapView.UF_IDS).
      { apply (bool_decide_unpack _). vm_compute. exact I. }
      rewrite Forall_forall in Hall. by apply Hall.
  - intros a b Ha Hb.
    assert (Hall : Forall (fun x => Forall (fun y =>
                      getUFAbbreviation (jsInt x) = getUFAbbreviation (jsInt y) -> x = y)
                      MapView.UF_IDS) MapView.UF_IDS).
    { apply (bool_decide_unpack _). vm_compute. exact I. }
    rewrite Forall_forall in Hall. specialize (Hall a Ha).
    rewrite Forall_forall in Hall. by apply Hall.
Qed.

Lemma state_abbreviation_known (abbr : string) :
  abbr ∈ state_abbreviations
  <-> exists ufId, ufId ∈ MapView.UF_IDS /\ abbr = getUFAbbreviation (jsInt ufId).
Proof.
  unfold state_abbreviations. rewrite list_elem_of_fmap. naive_solver.
Qed.

Lemma getRegionForUF_known (abbr : string) :
  getRegionForUF abbr <> "all"%string <-> abbr ∈ state_abbreviations.
Proof.
  split.
  - unfold getRegionForUF.
    destruct (List.find _ regions) as [entry|] eqn:Hfind; [|done].
    intros _. apply find_some in Hfind as [Hentry Hin].
    apply bool_decide_eq_true in Hin. apply list_elem_of_In in Hentry.
    assert (Hall : Forall (fun e => Forall (fun a => a ∈ state_abbreviations) e.2)
                     regions).
    { apply (bool_decide_unpack _). vm_compute. exact I. }
    rewrite Forall_forall in Hall. specialize (Hall entry Hentry).
    rewrite Forall_forall in Hall. by apply Hall.
  - revert abbr. apply Forall_forall.
    apply (bool_decide_unpack _). vm_compute. exact I.
Qed.

Lemma getSanitationData_known (abbr : string) :
  is_Some (getSanitationData !! abbr) <-> abbr ∈ state_abbreviations.
Proof.
  unfold getSanitationData.
  rewrite <- not_eq_None_Some, <- not_elem_of_list_to_map.
  assert (Hsame : Forall (fun a => a ∈ state_abbreviations) sanitation_rows.*1
                  /\ Forall (fun a => a ∈ sanitation_rows.*1) state_abbreviations).
  { split; apply (bool_decide_unpack _); vm_compute; exact I. }
  destruct Hsame as [H1 H2]. rewrite Forall_forall in H1, H2.
  split.
  - intros Hin. apply H1. by apply dec_stable.
  - intros Hin Hout. by apply Hout, H2.
Qed.

(** X8: the region table, the sanitation table and the abbreviation
    table cover the same 27 units. An abbreviation has a region other
    than 'all' exactly when it has a sanitation row, and exactly when it
    is the abbreviation of a code of [UF_IDS]; the region of a unit is the
    one its code starts with (1 norte, 2 nordeste, 3 sudeste, 4 sul,
    5 centro-oeste). A number that is no such code gets the empty
    abbreviation, hence the region 'all' and no sanitation row. *)
Theorem region_and_sanitation_cover_the_units :
  (forall abbr : string,
      (getRegionForUF abbr <> "all"%string
       <-> exists ufId, ufId ∈ MapView.UF_IDS /\ abbr = getUFAbbreviation (jsInt ufId))
      /\ (is_Some (getSanitationData !! abbr)
          <-> exists ufId, ufId ∈ MapView.UF_IDS /\ abbr = getUFAbbreviation (jsInt ufId)))
  /\ (forall ufId, ufId ∈ MapView.UF_IDS ->
        getRegionForUF (getUFAbbreviation (jsInt ufId))
        = match ufId / 10 with
          | 1 => "norte"
          | 2 => "nordeste"
          | 3 => "sudeste"
          | 4 => "sul"
          | _ => "centro-oeste"
          end%string)
  /\ (forall n : JsNumber,
        (forall ufId, ufId ∈ MapView.UF_IDS -> n <> jsInt ufId) ->
        getUFAbbreviation n = ""%string
        /\ getRegionForUF (getUFAbbreviation n) = "all"%string
        /\ getSanitationData !! getUFAbbreviation n = None).
Proof.
  split; [|split].
  - intros abbr.
    rewrite getRegionForUF_known, getSanitationData_known, state_abbreviation_known.
    done.
  - apply Forall_forall. apply (bool_decide_unpack _). vm_compute. exact I.
  - intros n Hn.
    assert (Hempty : getUFAbbreviation n = ""%string).
    { unfold getUFAbbreviation, str_or.
      destruct (at_number uf_abbreviations n) as [abbr|] eqn:Hat; [|done].
      apply at_number_Some in Hat as (z & Hin & ->).
      destruct (Hn z); [|done].
      change MapView.UF_IDS with (uf_abbreviations.*1).
      apply list_elem_of_fmap. by exists (z, abbr). }
    rewrite Hempty. split; [done|]. split; [reflexivity|]. by vm_compute.
Qed.

(** A literal with the keys 1 to 4, read at a level value. *)
Lemma at_level_four {A : Type} (a1 a2 a3 a4 : A) (nivel : JsLevel) :
  at_level [(1, a1); (2, a2); (3, a3); (4, a4)] nivel
  = if decide (nivel = levelInt 1) then Some a1
    else if decide (nivel = levelInt 2) then Some a2
    else if decide (nivel = levelInt 3) then Some a3
    else if decide (nivel = levelInt 4) then Some a4
    else None.
Proof.
  destruct nivel as [| |n]; try reflexivity.
  unfold at_level, at_number, levelInt. cbn [List.find fst].
  repeat case_bool_decide; repeat case_decide; try reflexivity; congruence.
Qed.

Lemma colors_four (nivel : JsLevel) :
  Api.colors nivel
  = if decide (nivel = levelInt 1) then Some "#22c55e"%string
    else if decide (nivel = levelInt 2) then Some "#eab308"%string
    else if decide (nivel = levelInt 3) then Some "#f97316"%string
    else if decide (nivel = levelInt 4) then Some "#ef4444"%string
    else None.
Proof.
  destruct nivel as [| |[| |q]]; try reflexivity.
  unfold Api.colors, levelInt, jsInt.
  repeat case_decide; try reflexivity; congruence.
Qed.

(** X9: the three places that present an alert level agree on every
    value. Whatever [nivel] is, the badge helper, the palette and the
    popups of the map all use the same one of the four levels: the level
    itself when it is 1, 2, 3 or 4, and level 1 for every other value; the
    label and the class of the popup are those of [getAlertLevel]. *)
Theorem alert_presentation_agrees (nivel : JsLevel) :
  exists (k : Z) (entry : AlertLevel),
    k ∈ [1; 2; 3; 4]
    /\ (nivel = levelInt k
        \/ k = 1 /\ forall j, j ∈ [1; 2; 3; 4] -> nivel <> levelInt j)
    /\ getAlertLevel nivel = Some entry
    /\ getAlertLevel (levelInt k) = Some entry
    /\ Api.getAlertColorHex nivel = Api.getAlertColorHex (levelInt k)
    /\ popup_label nivel = label entry
    /\ popup_class nivel = class entry.
Proof.
  unfold getAlertLevel, Api.getAlertColorHex, popup_label, popup_class,
    levels, alertInfo, alertClass.
  rewrite !at_level_four, !colors_four.
  destruct (decide (nivel = levelInt 1)) as [->|H1];
    [exists 1; eexists; repeat split; [set_solver | by left |..]; reflexivity|].
  destruct (decide (nivel = levelInt 2)) as [->|H2];
    [exists 2; eexists; repeat split; [set_solver | by left |..]; reflexivity|].
  destruct (decide (nivel = levelInt 3)) as [->|H3];
    [exists 3; eexists; repeat split; [set_solver | by left |..]; reflexivity|].
  destruct (decide (nivel = levelInt 4)) as [->|H4];
    [exists 4; eexists; repeat split; [set_solver | by left |..]; reflexivity|].
  exists 1. eexists. repeat split; [set_solver | | reflexivity..].
  right. split; [done|]. intros j Hj. set_solver.
Qed.

End Tables.

(** *** Style of the state layer *)

Section StateStyle.
Import Api ApiTables StateMap.
#[local] Set Warnings "-inexact-float".

Lemma getAlertColorHex_is_Some (nivel : JsLevel) : is_Some (getAlertColorHex nivel).
Proof.
  unfold getAlertColorHex. rewrite !colors_four.
  repeat case_decide; try done; eexists; vm_compute; reflexivity.
Qed.

(** On every row of the sanitation table and both sanitation layers, the
    opacity is within the scale. *)
Lemma sanitation_rows_opacity (abbr : string) (s : Sanitation) (layer : MapLayer) :
  getSanitationData !! abbr = Some s -> layer <> DiseaseLayer ->
  let val := or_zero (layer_value layer s) in
  (0.1 <=? MapView.getSanitationOpacity val)%float = true
  /\ (MapView.getSanitationOpacity val <=? 0.75)%float = true.
Proof.
  intros Hrow Hlayer.
  apply elem_of_list_to_map_2 in Hrow.
  assert (Hall : Forall (fun row =>
            forallb (fun l =>
              let val := or_zero (layer_value l row.2) in
              (0.1 <=? MapView.getSanitationOpacity val)%float
              && (MapView.getSanitationOpacity val <=? 0.75)%float)
              [ColetaEsgotoLayer; TratamentoEsgotoLayer] = true) sanitation_rows).
  { apply (bool_decide_unpack _). vm_compute. exact I. }
  rewrite Forall_forall in Hall. specialize (Hall _ Hrow). simpl in Hall.
  apply andb_prop in Hall as [H1 H2]. apply andb_prop in H2 as [H2 _].
  apply andb_prop in H1 as [? ?]. apply andb_prop in H2 as [? ?].
  by destruct layer.
Qed.

(** X10: the opacity of a state. Whatever the region filter, the layer
    shown, the capital data and the feature: at municipality zoom the
    state is drawn at 0.1; below it, a state outside the selected region
    is drawn at 0.15; the opacity is always between 0.1 and 0.75, and a
    fill colour is always defined. *)
Theorem state_style_opacity (currentRegion : string) (currentMapLayer : MapLayer)
    (byUF : gmap string OverviewEntry) (zoom : Z) (codarea : JsNumber) :
  let style := state_style currentRegion currentMapLayer byUF zoom codarea in
  (MapView.MUNICIPIO_ZOOM_THRESHOLD <= zoom -> fillOpacity style = 0.1%float)
  /\ (zoom < MapView.MUNICIPIO_ZOOM_THRESHOLD ->
      outside_region currentRegion (getRegionForUF (getUFAbbreviation codarea)) = true ->
      fillOpacity style = 0.15%float)
  /\ (0.1 <=? fillOpacity style)%float = true
  /\ (fillOpacity style <=? 0.75)%float = true
  /\ is_Some (fillColor style).
Proof.
  intros style. subst style. unfold state_style.
  set (abbr := getUFAbbreviation codarea).
  set (outside := outside_region currentRegion (getRegionForUF abbr)).
  case_bool_decide as Hzoom.
  { repeat split; try done; try lia.
    cbn [fillColor].
    destruct currentMapLayer; [|destruct (getSanitationData !! abbr); by eexists..].
    destruct (byUF !! abbr) as [capData|]; [|by eexists].
    destruct (latest capData); [apply getAlertColorHex_is_Some | by eexists]. }
  destruct currentMapLayer.
  - destruct (byUF !! abbr) as [capData|]; [destruct (latest capData)|];
      cbn [fillOpacity fillColor]; (split; [lia|]);
      (split; [by intros _ ->|]); destruct outside;
      repeat split; try reflexivity; try (by eexists);
      apply getAlertColorHex_is_Some.
  - destruct (getSanitationData !! abbr) as [s|] eqn:Hrow;
      cbn [fillOpacity fillColor]; (split; [lia|]);
      (split; [by intros _ ->|]); destruct outside;
      repeat split; try reflexivity; try (by eexists);
      by apply (sanitation_rows_opacity abbr s ColetaEsgotoLayer).
  - destruct (getSanitationData !! abbr) as [s|] eqn:Hrow;
      cbn [fillOpacity fillColor]; (split; [lia|]);
      (split; [by intros _ ->|]); destruct outside;
      repeat split; try reflexivity; try (by eexists);
      by apply (sanitation_rows_opacity abbr s TratamentoEsgotoLayer).
Qed.

Implicit Types (m : gmap string OverviewEntry) (e : OverviewEntry).

Lemma diseaseByUF_fold_inv (l : list OverviewEntry) m (k : string) e :
  fold_left diseaseByUF_each l m !! k = Some e ->
  (e ∈ l /\ uf (capital e) = k /\ is_Some (latest e)) \/ m !! k = Some e.
Proof.
  revert m. induction l as [|x l IH]; intros m; simpl; [by right|].
  intros [(Hin & Hk & Hl)|Hm]%IH; [left; split; [by right | done]|].
  unfold diseaseByUF_each in Hm. destruct (latest x) as [d|] eqn:Hx; [|by right].
  destruct (decide (uf (capital x) = k)) as [<-|Hne].
  - rewrite lookup_insert_eq in Hm. injection Hm as <-.
    left. split; [by left|]. split; [done | by eexists].
  - rewrite lookup_insert_ne in Hm by done. by right.
Qed.

Lemma diseaseByUF_fold_other (l : list OverviewEntry) m (k : string) :
  (forall x, x ∈ l -> uf (capital x) <> k) ->
  fold_left diseaseByUF_each l m !! k = m !! k.
Proof.
  revert m. induction l as [|x l IH]; intros m Hall; simpl; [done|].
  rewrite IH by (intros y Hy; apply Hall; by right).
  unfold diseaseByUF_each. destruct (latest x); [|done].
  apply lookup_insert_ne, Hall. by left.
Qed.

Lemma diseaseByUF_fold_own (l : list OverviewEntry) m e :
  NoDup ((fun x => uf (capital x)) <$> l) -> e ∈ l ->
  fold_left diseaseByUF_each l m !! uf (capital e)
  = match latest e with Some _ => Some e | None => m !! uf (capital e) end.
Proof.
  revert m. induction l as [|x l IH]; intros m Hnd Hin; [by apply elem_of_nil in Hin|].
  rewrite fmap_cons in Hnd. apply NoDup_cons in Hnd as [Hx Hnd].
  simpl. apply elem_of_cons in Hin as [->|Hin].
  - rewrite diseaseByUF_fold_other.
    + unfold diseaseByUF_each. destruct (latest x); [|done].
      by rewrite lookup_insert_eq.
    + intros y Hy Heq. apply Hx. apply list_elem_of_fmap. by exists y.
  - rewrite IH by done. destruct (latest e); [done|].
    unfold diseaseByUF_each. destruct (latest x); [|done].
    apply lookup_insert_ne. intros Heq. apply Hx.
    apply list_elem_of_fmap. by exists e.
Qed.

(** X11: how the national overview colours the states. For capital data
    with one entry per capital of the table, as [fetchNationalOverview]
    resolves with: the lookup by abbreviation holds exactly the entries
    that have a latest record, each under the abbreviation of its own
    capital; the capital lies in the unit whose code its geocode starts
    with, and on the disease layer that unit is filled with the palette
    colour of the capital's latest level. *)
Theorem overview_colours_states (entries : list OverviewEntry) :
  map capital entries = capitals ->
  (forall (k : string) e,
      diseaseByUF entries !! k = Some e
      <-> e ∈ entries /\ uf (capital e) = k /\ is_Some (latest e))
  /\ (forall e, e ∈ entries ->
        let ufId := geocode (capital e) / 100000 in
        ufId ∈ MapView.UF_IDS
        /\ getUFAbbreviation (jsInt ufId) = uf (capital e)
        /\ forall d currentRegion zoom,
             latest e = Some d ->
             fillColor (state_style currentRegion DiseaseLayer (diseaseByUF entries)
                          zoom (jsInt ufId))
             = getAlertColorHex (nivel d)).
Proof.
  intros Hcaps.
  assert (Hnd : NoDup ((fun x => uf (capital x)) <$> entries)).
  { replace ((fun x => uf (capital x)) <$> entries) with (uf <$> map capital entries)
      by (rewrite <- list_fmap_compose; reflexivity).
    rewrite Hcaps. apply (bool_decide_unpack _). vm_compute. exact I. }
  assert (Hown : forall e, e ∈ entries ->
            diseaseByUF entries !! uf (capital e)
            = match latest e with Some _ => Some e | None => None end).
  { intros e He. unfold diseaseByUF. rewrite diseaseByUF_fold_own by done.
    by destruct (latest e). }
  split.
  - intros k e. split.
    + intros [H|H]%diseaseByUF_fold_inv; [done | by rewrite lookup_empty in H].
    + intros (He & <- & [d Hd]). rewrite Hown by done. by rewrite Hd.
  - intros e He ufId. subst ufId.
    assert (Hcap : capital e ∈ capitals).
    { rewrite <- Hcaps. apply list_elem_of_In, in_map. by apply list_elem_of_In. }
    assert (Hall : Forall (fun cap =>
              geocode cap / 100000 ∈ MapView.UF_IDS
              /\ getUFAbbreviation (jsInt (geocode cap / 100000)) = uf cap) capitals).
    { apply (bool_decide_unpack _). vm_compute. exact I. }
    rewrite Forall_forall in Hall. destruct (Hall _ Hcap) as [Hin Habbr].
    split; [exact Hin|]. split; [exact Habbr|].
    intros d currentRegion zoom Hd. unfold state_style. rewrite Habbr.
    rewrite Hown by done. rewrite Hd. cbn. rewrite Hd. by case_bool_decide.
Qed.

Lemma overview_colours_states_witness :
  let entries :=
    (fun cap => {| capital := cap; data := [Scenario.record 202510 3];
                   latest := Some (Scenario.record 202510 3) |}) <$> capitals in
  fillColor (state_style "all" DiseaseLayer (diseaseByUF entries) 4 (jsInt 35))
  = Some "#f97316"%string.
Proof.
  intros entries.
  assert (Hcaps : map capital entries = capitals) by reflexivity.
  destruct (overview_colours_states entries Hcaps) as [_ Hstate].
  assert (Hin : {| capital := mkCapital "São Paulo" 3550308 "SP";
                   data := [Scenario.record 202510 3];
                   latest := Some (Scenario.record 202510 3) |} ∈ entries) by left.
  destruct (Hstate _ Hin) as (_ & _ & Hcolour).
  exact (Hcolour _ "all"%string 4 eq_refl).
Defined.

End StateStyle.

(** *** Cards and national summary *)

Section CardsAggregates.
Import Api ApiTables Cards.
Implicit Types (a b c : JsNumber) (M v : JsLevel) (cap : OverviewEntry).

Ltac js_cases a b c :=
  destruct a as [|[|]|?p], b as [|[|]|?q], c as [|[|]|?r]; simpl; try done.

Lemma js_lt_trans a b c :
  js_lt a b = Some true -> js_lt b c = Some true -> js_lt a c = Some true.
Proof.
  js_cases a b c. intros [= H1%bool_decide_eq_true] [= H2%bool_decide_eq_true].
  f_equal. apply bool_decide_eq_true. by eapply Qclt_trans.
Qed.

(** [x <= y] is read as [js_lt y x = Some false]. *)
Lemma js_le_trans a b c :
  js_lt b a = Some false -> js_lt c b = Some false -> js_lt c a = Some false.
Proof.
  js_cases a b c. intros [= H1%bool_decide_eq_false] [= H2%bool_decide_eq_false].
  f_equal. apply bool_decide_eq_false. apply Qcle_not_lt.
  eapply Qcle_trans; by apply Qcnot_lt_le.
Qed.

Lemma js_le_lt_trans a b c :
  js_lt b a = Some false -> js_lt b c = Some true -> js_lt c a = Some false.
Proof.
  js_cases a b c. intros [= H1%bool_decide_eq_false] [= H2%bool_decide_eq_true].
  f_equal. apply bool_decide_eq_false. apply Qcle_not_lt.
  apply Qclt_le_weak. eapply Qcle_lt_trans; [by apply Qcnot_lt_le | done].
Qed.

Lemma js_lt_irrefl a : js_lt a a <> Some true.
Proof.
  destruct a as [|[|]|p]; simpl; try done. intros [= H%bool_decide_eq_true].
  by apply (Qcle_not_lt p p (Qcle_refl p)).
Qed.

Lemma js_lt_Some a b r : js_lt a b = Some r -> a <> JNaN /\ b <> JNaN.
Proof. by destruct a, b. Qed.

Lemma js_lt_is_Some a b : a <> JNaN -> b <> JNaN -> is_Some (js_lt a b).
Proof. destruct a, b; simpl; try done; by eexists. Qed.

Lemma js_gt_true v M :
  js_gt v M = true <-> js_lt (toNumber M) (toNumber v) = Some true.
Proof. unfold js_gt. by destruct (js_lt _ _) as [[|]|]. Qed.

Lemma js_ge_true v M :
  js_ge v M = true <-> js_lt (toNumber v) (toNumber M) = Some false.
Proof. unfold js_ge. by destruct (js_lt _ _) as [[|]|]. Qed.

Lemma aggregates_agree_step seen M n cap :
  aggregates_agree seen M n ->
  aggregates_agree (seen ++ [cap]) (maxLevel_each M cap) (alertCities_each n cap).
Proof.
  intros (Hone & Hmax & Hatt & Hcount).
  unfold maxLevel_each, alertCities_each.
  destruct (latest cap) as [d|] eqn:Hd.
  2:{ repeat split; try tauto.
      - intros cap' d' [Hin|Hin]%elem_of_app Hd'; [eauto|].
        apply list_elem_of_singleton in Hin. congruence.
      - destruct Hatt as [?|(cap' & d' & ? & ? & ?)]; [by left|].
        right. exists cap', d'. set_solver. }
  set (v := nivel d).
  destruct (js_gt v M) eqn:Hgt.
  - apply js_gt_true in Hgt.
    assert (Hv3 : is_Some (js_lt (toNumber v) (jsInt 3))).
    { apply js_lt_is_Some; [exact (proj2 (js_lt_Some _ _ _ Hgt)) | done]. }
    repeat split.
    + by apply (js_le_lt_trans _ (toNumber M)).
    + intros cap' d' [Hin|Hin]%elem_of_app Hd';
        [|apply list_elem_of_singleton in Hin; subst cap'].
      * destruct (js_gt (nivel d') v) eqn:Hgt'; [|done].
        apply js_gt_true in Hgt'.
        rewrite <- (Hmax cap' d' Hin Hd'). symmetry. apply js_gt_true.
        by apply (js_lt_trans _ (toNumber v)).
      * assert (d' = d) as -> by congruence. fold v.
        destruct (js_gt v v) eqn:Hvv; [|done].
        apply js_gt_true in Hvv. by apply js_lt_irrefl in Hvv.
    + right. exists cap, d. set_solver.
    + destruct (js_ge v (levelInt 3)) eqn:Hge; [done|]. intros Hn.
      apply Hcount in Hn. apply js_ge_true in Hn.
      destruct Hv3 as [[|] Hv3].
      * pose proof (js_lt_trans _ _ _ Hgt Hv3) as Hlt. simpl in Hn. congruence.
      * apply (js_ge_true v (levelInt 3)) in Hv3. congruence.
    + destruct (js_ge v (levelInt 3)) eqn:Hge; [lia|congruence].
  - repeat split.
    + done.
    + intros cap' d' [Hin|Hin]%elem_of_app Hd'; [eauto|].
      apply list_elem_of_singleton in Hin. subst cap'.
      by assert (d' = d) as -> by congruence.
    + destruct Hatt as [?|(cap' & d' & ? & ? & ?)]; [by left|].
      right. exists cap', d'. set_solver.
    + destruct (js_ge v (levelInt 3)) eqn:Hge; [|tauto]. intros _.
      apply js_ge_true in Hge. apply js_ge_true.
      assert (Hdef : is_Some (js_lt (toNumber M) (toNumber v))).
      { apply js_lt_is_Some;
          [exact (proj1 (js_lt_Some _ _ _ Hone)) | exact (proj1 (js_lt_Some _ _ _ Hge))]. }
      destruct Hdef as [[|] Hdef]; [apply js_gt_true in Hdef; congruence|].
      by apply (js_le_trans _ (toNumber v)).
    + destruct (js_ge v (levelInt 3)) eqn:Hge; [lia|tauto].
Qed.

Lemma aggregates_agree_fold rest seen M n :
  aggregates_agree seen M n ->
  aggregates_agree (seen ++ rest) (fold_left maxLevel_each rest M)
    (fold_left alertCities_each rest n).
Proof.
  revert seen M n. induction rest as [|cap rest IH]; intros seen M n Hagree; simpl.
  - by rewrite app_nil_r.
  - rewrite (cons_middle cap seen rest), app_assoc.
    by apply IH, aggregates_agree_step.
Qed.

(** X12: the badge of the cards and the count of the summary. The level
    the badge is looked up with is 1 or the level of some capital's latest
    record, it is at least 1, and no latest level exceeds it; it is at
    least 3 exactly when the summary counts a city in alert. Without data
    the level is 1. *)
Theorem cards_badge_is_highest_level (caps : list OverviewEntry) :
  let M := maxLevel (Some caps) in
  (M = levelInt 1 \/ exists cap d, cap ∈ caps /\ latest cap = Some d /\ M = nivel d)
  /\ js_ge M (levelInt 1) = true
  /\ (forall cap d, cap ∈ caps -> latest cap = Some d -> js_gt (nivel d) M = false)
  /\ (js_ge M (levelInt 3) = true
      <-> exists n, alertCities (Some caps) = Some n /\ (0 < n)%nat)
  /\ card_badge (Some caps) = getAlertLevel M
  /\ maxLevel None = levelInt 1
  /\ maxLevel (Some []) = levelInt 1.
Proof.
  intros M. subst M.
  assert (Hinit : aggregates_agree [] (levelInt 1) O).
  { repeat split; try done; try lia.
    - by intros ? ? ?%elem_of_nil.
    - by left. }
  apply (aggregates_agree_fold caps) in Hinit. simpl in Hinit.
  destruct Hinit as (Hone & Hmax & Hatt & Hcount).
  split; [exact Hatt|]. split; [by apply js_ge_true|]. split; [exact Hmax|].
  split; [|done].
  unfold alertCities. destruct caps as [|cap caps]; [naive_solver lia|].
  rewrite <- Hcount. naive_solver.
Qed.

End CardsAggregates.

(** *** Main chart *)

Section MainChart.
Import Api Charts.
Implicit Types (entries shown : list (string * list AlertRecord)) (acc : Loop).

Lemma drawn_app seen entries : drawn (seen ++ entries) = drawn seen ++ drawn entries.
Proof. apply filter_app. Qed.

Lemma loop_after_step seen acc (entry : string * list AlertRecord) :
  loop_after seen acc -> loop_after (seen ++ [entry]) (main_each acc entry).
Proof.
  intros (Hds & Hls & Hidx). destruct entry as [name [|d series]].
  { unfold loop_after. rewrite drawn_app. unfold drawn at 2 4 6.
    rewrite filter_cons_False by (simpl; tauto). rewrite filter_nil, app_nil_r. done. }
  unfold loop_after. rewrite drawn_app. unfold drawn at 2 4 6.
  rewrite filter_cons_True by done. rewrite filter_nil. fold (drawn seen).
  unfold main_each. cbn [datasets labels colorIdx]. split; [|split].
  - rewrite imap_app. cbn [imap]. rewrite Hds, Hidx, length_imap.
    unfold dataset_of, compose. cbn [fst snd]. rewrite Nat.add_0_r.
    change (length CHART_COLORS) with 10%nat. done.
  - rewrite Hls. destruct (drawn seen) as [|[name0 series0] rest] eqn:Hseen; [done|].
    assert (Hne : series0 <> []).
    { assert (Hin : (name0, series0) ∈ drawn seen) by (rewrite Hseen; left).
      unfold drawn in Hin. apply list_elem_of_filter in Hin. tauto. }
    cbn [labels_of fst snd app]. rewrite bool_decide_eq_false_2; [done|].
    rewrite length_fmap. by destruct series0.
  - rewrite length_app, Hidx. simpl. lia.
Qed.

Lemma loop_after_fold entries seen acc :
  loop_after seen acc -> loop_after (seen ++ entries) (fold_left main_each entries acc).
Proof.
  revert seen acc. induction entries as [|entry entries IH]; intros seen acc Hacc; simpl.
  - by rewrite app_nil_r.
  - rewrite (cons_middle entry seen entries), app_assoc.
    by apply IH, loop_after_step.
Qed.

Lemma CHART_COLORS_lookup_inj (i j : nat) :
  (i < 10)%nat -> (j < 10)%nat -> CHART_COLORS !! i = CHART_COLORS !! j -> i = j.
Proof.
  intros Hi Hj Heq.
  destruct (CHART_COLORS !! i) as [c|] eqn:Hc.
  - eapply NoDup_lookup; [|exact Hc|by rewrite Heq].
    apply (bool_decide_unpack _). vm_compute. exact I.
  - apply lookup_ge_None in Hc. change (length CHART_COLORS) with 10%nat in Hc. lia.
Qed.

(** X13: what [renderMainChart] draws. The series that are not empty
    are drawn in the order of the map, one dataset each, and no chart is
    made when there is none. The [i]-th dataset carries the name and the
    case counts of its series, the colour [i mod 10] of the palette, and
    alone the first one is filled, so that an empty series uses up no
    colour and two datasets share a colour exactly when their positions
    differ by a multiple of 10; the labels are the weeks of the first
    drawn series. *)
Theorem renderMainChart_datasets entries :
  let shown := filter (fun entry => entry.2 <> []) entries in
  (renderMainChart (Some entries) = None <-> shown = [])
  /\ (forall labels datasets,
        renderMainChart (Some entries) = Some (labels, datasets) ->
        datasets
        = imap (fun i entry =>
                  {| label := entry.1; data := casos_or_zero <$> entry.2;
                     borderColor := CHART_COLORS !! (i mod 10)%nat;
                     fill := bool_decide (i = O) |}) shown
        /\ (exists name series rest,
              shown = (name, series) :: rest
              /\ labels = (fun d => formatSEShort (SE d)) <$> series)
        /\ (forall i j di dj,
              datasets !! i = Some di -> datasets !! j = Some dj ->
              is_Some (borderColor di)
              /\ (borderColor di = borderColor dj <-> (i mod 10 = j mod 10)%nat))).
Proof.
  intros shown. subst shown. fold (drawn entries).
  assert (Hloop : loop_after entries
            (fold_left main_each entries {| datasets := []; labels := []; colorIdx := O |})).
  { by apply (loop_after_fold entries []). }
  destruct Hloop as (Hds & Hls & _).
  assert (Hrun : renderMainChart (Some entries)
                 = match drawn entries with
                   | [] => None
                   | _ :: _ => Some (labels_of (drawn entries),
                                     imap dataset_of (drawn entries))
                   end).
  { unfold renderMainChart. destruct entries as [|entry entries]; [done|].
    rewrite Hds, Hls. by destruct (drawn (entry :: entries)). }
  rewrite Hrun. clear Hrun Hds Hls.
  destruct (drawn entries) as [|[name series] rest]; [split; [done|]; by intros ? ? ?|].
  split; [done|].
  intros labels datasets Hsome.
  assert (datasets = imap dataset_of ((name, series) :: rest)
          /\ labels = labels_of ((name, series) :: rest)) as [-> ->].
  { by injection Hsome as <- <-. }
  clear Hsome. split; [done|]. split; [by exists name, series, rest|].
  intros i j di dj Hi Hj.
  apply list_lookup_imap_Some in Hi as (ei & _ & ->).
  apply list_lookup_imap_Some in Hj as (ej & _ & ->).
  cbn [borderColor dataset_of].
  assert (Hi : (i mod 10 < 10)%nat) by (apply Nat.mod_upper_bound; lia).
  assert (Hj : (j mod 10 < 10)%nat) by (apply Nat.mod_upper_bound; lia).
  split.
  - apply lookup_lt_is_Some_2. by change (length CHART_COLORS) with 10%nat.
  - split; [by apply CHART_COLORS_lookup_inj | by intros ->].
Qed.

End MainChart.

(** *** Week labels *)

Section WeekLabels.
Import Charts.

Ltac push_append_in H :=
  repeat (rewrite append_nil_l in H || rewrite append_cons_l in H).

Lemma holds_app (c : ascii) (a b : string) :
  holds c (a ++ b) = holds c a || holds c b.
Proof.
  induction a as [|x a IH]; simpl; [reflexivity|].
  destruct (Ascii.eqb x c); [reflexivity | exact IH].
Qed.

(** A part that does not hold the separator is recovered from the whole. *)
Lemma separated_inj (c : ascii) (a b x y : string) :
  holds c a = false -> holds c b = false ->
  (a ++ String c x = b ++ String c y)%string -> a = b /\ x = y.
Proof.
  revert b. induction a as [|p a IH]; intros [|q b] Ha Hb Heq;
    push_append_in Heq; simpl in Ha, Hb.
  - by injection Heq as ->.
  - injection Heq as <- _. by rewrite Ascii.eqb_refl in Hb.
  - injection Heq as -> _. by rewrite Ascii.eqb_refl in Ha.
  - injection Heq as -> Heq.
    destruct (Ascii.eqb q c); [discriminate|].
    by destruct (IH b Ha Hb Heq) as [-> ->].
Qed.

Lemma pretty_N_go_no_slash (x : N) (s : string) :
  holds "/" s = false -> holds "/" (pretty_N_go x s) = false.
Proof.
  revert s. induction (N.lt_wf_0 x) as [x _ IH]; intros s Hs.
  destruct (decide (x = 0%N)) as [->|Hx]; [by rewrite pretty_N_go_0|].
  rewrite pretty_N_go_step by lia. apply IH.
  - apply N.div_lt; lia.
  - simpl. unfold pretty_N_char. by repeat case_match.
Qed.

Lemma pretty_Z_no_slash (z : Z) : holds "/" (pretty z) = false.
Proof.
  assert (Hpos : forall p : positive, holds "/" (pretty p) = false).
  { intros p. unfold pretty, pretty_positive, pretty, pretty_N.
    case_decide; [done|]. by apply pretty_N_go_no_slash. }
  destruct z as [|p|p]; unfold pretty, pretty_Z; [done | apply Hpos |].
  rewrite holds_app. by apply orb_false_iff.
Qed.

(** The year and the week of [formatSE] determine the code. *)
Lemma year_week_inj (se se' : Z) :
  se / 100 = se' / 100 -> Z.rem se 100 = Z.rem se' 100 -> se = se'.
Proof.
  intros Hy Hw. Z.to_euclidean_division_equations. lia.
Qed.


End WeekLabels.

(** *** Municipality layers on the map *)

Section LayerInvariants.
Import MapView LayerNotions.
Context {Bounds GeoJSON : Type}.
Variable intersects : Bounds -> Bounds -> option bool.
Variable MAJOR_CITIES_BY_UF : Z -> option (list Z).
Variable renders : GeoJSON -> bool.

Local Abbreviation State := (@State Bounds GeoJSON).
Local Abbreviation call := (@loadMunicipioLayer_call Bounds GeoJSON MAJOR_CITIES_BY_UF).
Local Abbreviation resume := (@loadMunicipioLayer_resume Bounds GeoJSON renders).
Local Abbreviation handle := (handleZoomChange intersects MAJOR_CITIES_BY_UF).
Local Abbreviation step := (step intersects MAJOR_CITIES_BY_UF renders).
Local Abbreviation run := (run intersects MAJOR_CITIES_BY_UF renders).
Local Abbreviation consistent := (@consistent Bounds GeoJSON).
Local Abbreviation tracked := (@tracked Bounds GeoJSON).
Implicit Types (s : State) (ufId : Z).

(** **** What each operation leaves alone *)

Lemma call_layers s ufId :
  loadedMunicipioLayers (call s ufId) = loadedMunicipioLayers s
  /\ onMap (call s ufId) = onMap s
  /\ nextStamp (call s ufId) = nextStamp s
  /\ currentDisease (call s ufId) = currentDisease s
  /\ municipioAlertCache (call s ufId) = municipioAlertCache s.
Proof.
  unfold loadMunicipioLayer_call.
  destruct (_ || _); [done|]. by destruct (MAJOR_CITIES_BY_UF ufId).
Qed.

Lemma fold_call_layers ufIds s :
  loadedMunicipioLayers (fold_left call ufIds s) = loadedMunicipioLayers s
  /\ onMap (fold_left call ufIds s) = onMap s
  /\ nextStamp (fold_left call ufIds s) = nextStamp s
  /\ currentDisease (fold_left call ufIds s) = currentDisease s
  /\ municipioAlertCache (fold_left call ufIds s) = municipioAlertCache s.
Proof.
  revert s. induction ufIds as [|u ufIds IH]; intros s; simpl; [done|].
  destruct (IH (call s u)) as (-> & -> & -> & -> & ->). apply call_layers.
Qed.

Lemma tracked_same s s' :
  loadedMunicipioLayers s' = loadedMunicipioLayers s -> onMap s' = onMap s ->
  nextStamp s' = nextStamp s -> tracked s -> tracked s'.
Proof. unfold LayerNotions.tracked. by intros -> -> ->. Qed.

Lemma remove_layer_nextStamp s k : nextStamp (remove_layer s k) = nextStamp s.
Proof. unfold remove_layer. by destruct (loadedMunicipioLayers s !! k). Qed.

Lemma tracked_remove_layer s k : tracked s -> tracked (remove_layer s k).
Proof.
  intros (Hmap & Hold & Hone). unfold remove_layer.
  destruct (loadedMunicipioLayers s !! k) as [layer|] eqn:Hk; [|done].
  unfold LayerNotions.tracked. simpl. split; [|split].
  - intros n. rewrite elem_of_difference, elem_of_singleton, Hmap. split.
    + intros [(u & l & Hu & <-) Hne]. exists u, l. split; [|done].
      rewrite lookup_delete_ne; [done|]. intros <-. congruence.
    + intros (u & l & [Hne Hu]%lookup_delete_Some & <-). split; [by exists u, l|].
      intros Heq. by apply Hne, (Hone k u layer l).
  - intros u l [_ Hu]%lookup_delete_Some. by apply (Hold u).
  - intros u1 u2 l1 l2 [_ H1]%lookup_delete_Some [_ H2]%lookup_delete_Some.
    by apply Hone.
Qed.

Lemma tracked_fold_remove_layer keys s :
  tracked s -> tracked (fold_left remove_layer keys s).
Proof.
  revert s. induction keys as [|k keys IH]; intros s Hs; simpl; [done|].
  by apply IH, tracked_remove_layer.
Qed.

Lemma tracked_clear_unit s k : tracked s -> tracked (clear_unit s k).
Proof.
  intros Hs. unfold clear_unit.
  by apply (tracked_same (remove_layer s k)), tracked_remove_layer.
Qed.

Lemma tracked_fold_clear_unit keys s :
  tracked s -> tracked (fold_left clear_unit keys s).
Proof.
  revert s. induction keys as [|k keys IH]; intros s Hs; simpl; [done|].
  by apply IH, tracked_clear_unit.
Qed.

Lemma tracked_handle s : tracked s -> tracked (handle s).
Proof.
  intros Hs. unfold handleZoomChange. case_bool_decide.
  - destruct (fold_call_layers (getVisibleUFs intersects (viewport s) (geoLayer s)) s)
      as (Hl & Ho & Hn & _).
    by apply (tracked_same s).
  - by apply tracked_fold_remove_layer.
Qed.

Lemma tracked_resume s p outcome :
  loadedMunicipioLayers s !! s_ufId p = None -> tracked s ->
  tracked (resume p outcome s).
Proof.
  intros Hfree (Hmap & Hold & Hone). unfold loadMunicipioLayer_resume.
  destruct outcome as [[gj am]|reason]; [destruct (renders gj)|]; try done.
  unfold LayerNotions.tracked. simpl. split; [|split].
  - intros n. rewrite elem_of_union, elem_of_singleton, Hmap. split.
    + intros [->|(u & l & Hu & <-)].
      * eexists (s_ufId p), _. by rewrite lookup_insert_eq.
      * exists u, l. split; [|done]. rewrite lookup_insert_ne; [done|]. congruence.
    + intros (u & l & Hu & <-).
      apply lookup_insert_Some in Hu as [[_ <-]|[_ Hu]]; [by left | right; eauto].
  - intros u l [[_ <-]|[_ Hu]]%lookup_insert_Some; simpl; [lia|].
    apply Hold in Hu. lia.
  - intros u1 u2 l1 l2 [[<- <-]|[Hn1 H1]]%lookup_insert_Some
      [[<- <-]|[Hn2 H2]]%lookup_insert_Some; simpl; try done.
    + intros Heq. apply Hold in H2. lia.
    + intros Heq. apply Hold in H1. lia.
    + by apply Hone.
Qed.

Lemma tracked_step s ev : consistent s -> tracked s -> tracked (step s ev).
Proof.
  intros Hcons Hs. destruct ev as [z b|d|layers|i outcome]; simpl.
  - apply tracked_handle. by apply (tracked_same s).
  - unfold setMapDisease.
    assert (tracked (fold_left clear_unit (loaded_keys (set_currentDisease d s))
                       (set_currentDisease d s))) as Hs2.
    { apply tracked_fold_clear_unit. by apply (tracked_same s). }
    case_bool_decide; [by apply tracked_handle | exact Hs2].
  - by apply (tracked_same s).
  - destruct (suspended s !! i) as [p|] eqn:Hi; [|exact Hs].
    apply tracked_resume; [|by apply (tracked_same s)].
    simpl. destruct Hcons as (_ & Hiff & Hfree). apply Hfree, Hiff.
    apply list_elem_of_fmap. exists p. split; [done|]. by eapply list_elem_of_lookup_2.
Qed.

Lemma tracked_init (b : Bounds) : tracked (init b).
Proof.
  unfold LayerNotions.tracked. simpl. split; [|split].
  - intros n. split; [set_solver|]. intros (u & l & Hu & _).
    by rewrite lookup_empty in Hu.
  - intros u l Hu. by rewrite lookup_empty in Hu.
  - intros u1 u2 l1 l2 Hu. by rewrite lookup_empty in Hu.
Qed.

Lemma tracked_run evs s :
  consistent s -> tracked s -> consistent (run s evs) /\ tracked (run s evs).
Proof.
  revert s. induction evs as [|ev evs IH]; intros s Hc Hs; simpl; [done|].
  apply IH; [by apply consistent_step | by apply tracked_step].
Qed.

Lemma clear_unit_loaded s k :
  loadedMunicipioLayers (clear_unit s k) = loadedMunicipioLayers (remove_layer s k).
Proof. reflexivity. Qed.

Lemma fold_clear_unit_loaded keys s ufId :
  loadedMunicipioLayers (fold_left clear_unit keys s) !! ufId
  = if decide (ufId ∈ keys) then None else loadedMunicipioLayers s !! ufId.
Proof.
  revert s. induction keys as [|k keys IH]; intros s; simpl; [done|].
  rewrite IH, clear_unit_loaded, remove_layer_loaded.
  repeat case_decide; try done; set_solver.
Qed.

Lemma setMapDisease_loaded d s :
  loadedMunicipioLayers (setMapDisease intersects MAJOR_CITIES_BY_UF d s) = ∅.
Proof.
  unfold setMapDisease.
  set (s1 := set_currentDisease d s).
  assert (Hcleared : loadedMunicipioLayers (fold_left clear_unit (loaded_keys s1) s1) = ∅).
  { apply map_empty. intros u. rewrite fold_clear_unit_loaded.
    case_decide as Hin; [done|].
    destruct (loadedMunicipioLayers s1 !! u) eqn:Hu; [|done].
    exfalso. apply Hin, loaded_keys_spec. by eexists. }
  case_bool_decide; [|exact Hcleared].
  unfold handleZoomChange. rewrite bool_decide_eq_true_2 by done.
  by destruct (fold_call_layers
                 (getVisibleUFs intersects (viewport (fold_left clear_unit (loaded_keys s1) s1))
                    (geoLayer (fold_left clear_unit (loaded_keys s1) s1)))
                 (fold_left clear_unit (loaded_keys s1) s1)) as (-> & _).
Qed.

Lemma tracked_empty s : tracked s -> loadedMunicipioLayers s = ∅ -> onMap s = ∅.
Proof.
  intros (Hmap & _) Hempty. apply elem_of_equiv_empty_L. intros n Hn.
  apply Hmap in Hn as (u & l & Hu & _). by rewrite Hempty, lookup_empty in Hu.
Qed.

(** X15: no municipality layer is left behind on the map. After any
    sequence of turns from the initial state, the municipality layers on
    the map are exactly the layers of the table; hence a view change that
    leaves the zoom below the threshold, and any disease switch, leave no
    municipality layer on the map. *)
Theorem municipality_layers_are_tracked (b : Bounds) (evs : list Event) :
  let s := run (init b) evs in
  (forall n, n ∈ onMap s
             <-> exists ufId layer,
                   loadedMunicipioLayers s !! ufId = Some layer /\ stamp layer = n)
  /\ (forall z b', z < MUNICIPIO_ZOOM_THRESHOLD ->
        loadedMunicipioLayers (step s (ViewChange z b')) = ∅
        /\ onMap (step s (ViewChange z b')) = ∅)
  /\ (forall d,
        loadedMunicipioLayers (step s (SetDisease d)) = ∅
        /\ onMap (step s (SetDisease d)) = ∅).
Proof.
  intros s.
  destruct (tracked_run evs (init b) (consistent_init b) (tracked_init b))
    as [Hcons Htracked]. fold s in Hcons, Htracked.
  split; [apply Htracked|]. split.
  - intros z b' Hz.
    assert (Hempty : loadedMunicipioLayers (step s (ViewChange z b')) = ∅).
    { simpl. unfold handleZoomChange. simpl. rewrite bool_decide_eq_false_2 by lia.
      apply (removeMunicipioLayers_loaded MAJOR_CITIES_BY_UF). }
    split; [exact Hempty|]. apply tracked_empty; [|exact Hempty].
    by apply tracked_step.
  - intros d.
    assert (Hempty : loadedMunicipioLayers (step s (SetDisease d)) = ∅).
    { apply setMapDisease_loaded. }
    split; [exact Hempty|]. apply tracked_empty; [|exact Hempty].
    by apply tracked_step.
Qed.

(** **** Suspended calls *)

Local Abbreviation cities_known := (@cities_known Bounds GeoJSON MAJOR_CITIES_BY_UF).
Local Abbreviation for_current_disease := (@for_current_disease Bounds GeoJSON).

Lemma call_suspended s ufId :
  suspended (call s ufId) = suspended s
  \/ exists cities,
       MAJOR_CITIES_BY_UF ufId = Some cities
       /\ suspended (call s ufId)
          = suspended s ++ [{| s_ufId := ufId; s_cities := cities;
                               s_disease := currentDisease s |}].
Proof.
  unfold loadMunicipioLayer_call.
  destruct (_ || _); [by left|].
  destruct (MAJOR_CITIES_BY_UF ufId) as [cities|]; [|by left].
  right. by exists cities.
Qed.

Lemma clear_unit_frame s k :
  suspended (clear_unit s k) = suspended s
  /\ currentDisease (clear_unit s k) = currentDisease s
  /\ zoom (clear_unit s k) = zoom s.
Proof.
  unfold clear_unit. simpl.
  by destruct (remove_layer_frame s k) as (_ & _ & -> & _ & -> & -> & _).
Qed.

Lemma fold_clear_unit_frame keys s :
  suspended (fold_left clear_unit keys s) = suspended s
  /\ currentDisease (fold_left clear_unit keys s) = currentDisease s
  /\ zoom (fold_left clear_unit keys s) = zoom s.
Proof.
  revert s. induction keys as [|k keys IH]; intros s; simpl; [done|].
  destruct (IH (clear_unit s k)) as (-> & -> & ->). apply clear_unit_frame.
Qed.

(** A property of the suspended calls that every new call has is kept by
    the zoom handler. *)
Lemma handle_suspended (P : State -> Suspended -> Prop) s :
  (forall s1 s2 p, currentDisease s2 = currentDisease s1 -> P s1 p -> P s2 p) ->
  (forall s1 u cities,
      MAJOR_CITIES_BY_UF u = Some cities ->
      P s1 {| s_ufId := u; s_cities := cities; s_disease := currentDisease s1 |}) ->
  (forall p, p ∈ suspended s -> P s p) ->
  forall p, p ∈ suspended (handle s) -> P (handle s) p.
Proof.
  intros Hframe Hnew. unfold handleZoomChange. case_bool_decide as Hz.
  - clear Hz.
    generalize (getVisibleUFs intersects (viewport s) (geoLayer s)). intros ufIds.
    revert s. induction ufIds as [|u ufIds IH]; intros s Hs; simpl; [done|].
    apply IH. intros p Hp.
    destruct (call_layers s u) as (_ & _ & _ & Hd & _).
    destruct (call_suspended s u) as [Heq|(cities & Hc & Heq)]; rewrite Heq in Hp.
    + apply (Hframe s); [done | by apply Hs].
    + apply elem_of_app in Hp as [Hp|Hp%list_elem_of_singleton].
      * apply (Hframe s); [done | by apply Hs].
      * subst p. apply (Hframe s); [done | by apply Hnew].
  - unfold removeMunicipioLayers.
    destruct (fold_remove_layer_frame MAJOR_CITIES_BY_UF (loaded_keys s) s)
      as (_ & _ & Hsusp & _ & Hd & _).
    intros Hs p. rewrite Hsusp. intros Hp. apply (Hframe s); [done | by apply Hs].
Qed.

Lemma cities_known_handle s : cities_known s -> cities_known (handle s).
Proof.
  intros Hs.
  exact (handle_suspended
           (fun _ p => MAJOR_CITIES_BY_UF (s_ufId p) = Some (s_cities p)) s
           (fun _ _ _ _ H => H) (fun _ _ _ H => H) Hs).
Qed.

Lemma cities_known_step s ev : cities_known s -> cities_known (step s ev).
Proof.
  intros Hs. destruct ev as [z b|d|layers|i outcome]; simpl.
  - by apply cities_known_handle.
  - unfold setMapDisease.
    set (s2 := fold_left clear_unit _ _).
    assert (Hs2 : cities_known s2).
    { intros p. unfold s2.
      destruct (fold_clear_unit_frame (loaded_keys (set_currentDisease d s))
                  (set_currentDisease d s)) as (-> & _). apply Hs. }
    case_bool_decide; [by apply cities_known_handle | exact Hs2].
  - exact Hs.
  - destruct (suspended s !! i) as [p|] eqn:Hi; [|exact Hs].
    intros q Hq. apply Hs.
    assert (Hsub : suspended (resume p outcome (set_suspended (delete i (suspended s)) s))
                   = delete i (suspended s)).
    { unfold loadMunicipioLayer_resume.
      destruct outcome as [[gj am]|reason]; [destruct (renders gj)|]; reflexivity. }
    unfold LayerNotions.cities_known in Hq. rewrite Hsub in Hq.
    by apply list_elem_of_delete_inv in Hq.
Qed.

Lemma cities_known_run evs s : cities_known s -> cities_known (run s evs).
Proof.
  revert s. induction evs as [|ev evs IH]; intros s Hs; simpl; [done|].
  by apply IH, cities_known_step.
Qed.

Lemma cities_known_init (b : Bounds) : cities_known (init b).
Proof. by intros p ?%elem_of_nil. Qed.

(** X16: a load that fails is given up cleanly and tried again. After
    any sequence of turns from the initial state, when a suspended call
    resumes with a rejection, the table of layers, the alert cache and the
    map are left as they were and the unit is neither loaded nor loading,
    so that the next call for the unit issues both requests again, for the
    disease then current. The same holds when the requests succeed but
    the layer cannot be built, except that the alert cache by then holds
    the alerts received. *)
Theorem failed_load_is_retried (b : Bounds) (evs : list Event) (i : nat) (p : Suspended) :
  let s := run (init b) evs in
  suspended s !! i = Some p ->
  (forall reason,
      let s' := step s (Settle i (Rejected reason)) in
      loadedMunicipioLayers s' = loadedMunicipioLayers s
      /\ municipioAlertCache s' = municipioAlertCache s
      /\ onMap s' = onMap s
      /\ loadedMunicipioLayers s' !! s_ufId p = None
      /\ (s_ufId p ∉ loadingStates s')
      /\ requests (call s' (s_ufId p))
         = (requests s' ++ [StateGeoJSON (s_ufId p);
                            BulkMunicipioAlerts (s_cities p) (currentDisease s')]))
  /\ (forall gj am, renders gj = false ->
        let s' := step s (Settle i (Fulfilled (gj, am))) in
        loadedMunicipioLayers s' = loadedMunicipioLayers s
        /\ municipioAlertCache s' = <[s_ufId p := am]> (municipioAlertCache s)
        /\ onMap s' = onMap s
        /\ loadedMunicipioLayers s' !! s_ufId p = None
        /\ (s_ufId p ∉ loadingStates s')
        /\ requests (call s' (s_ufId p))
           = (requests s' ++ [StateGeoJSON (s_ufId p);
                              BulkMunicipioAlerts (s_cities p) (currentDisease s')])).
Proof.
  intros s Hi.
  destruct (tracked_run evs (init b) (consistent_init b) (tracked_init b))
    as [(_ & Hiff & Hfree) _]. fold s in Hiff, Hfree.
  pose proof (cities_known_run evs (init b) (cities_known_init b) p) as Hcities.
  fold s in Hcities.
  assert (Hp : p ∈ suspended s) by (by eapply list_elem_of_lookup_2).
  specialize (Hcities Hp).
  assert (Hnone : loadedMunicipioLayers s !! s_ufId p = None).
  { apply Hfree, Hiff. apply list_elem_of_fmap. by exists p. }
  assert (Hretry : forall s' : State,
            loadedMunicipioLayers s' !! s_ufId p = None ->
            s_ufId p ∉ loadingStates s' ->
            requests (call s' (s_ufId p))
            = requests s' ++ [StateGeoJSON (s_ufId p);
                              BulkMunicipioAlerts (s_cities p) (currentDisease s')]).
  { intros s' Hl Hg. unfold loadMunicipioLayer_call.
    rewrite bool_decide_eq_false_2 by (rewrite Hl; by intros [? ?]).
    rewrite bool_decide_eq_false_2 by done. simpl. by rewrite Hcities. }
  split.
  - intros reason s'. subst s'. simpl. rewrite Hi. simpl.
    repeat split; try done; [set_solver|].
    match goal with |- requests (call ?x _) = _ => apply (Hretry x) end;
      simpl; [done | set_solver].
  - intros gj am Hrender s'. subst s'. simpl. rewrite Hi.
    unfold loadMunicipioLayer_resume. rewrite Hrender. simpl.
    repeat split; try done; [set_solver|].
    match goal with |- requests (call ?x _) = _ => apply (Hretry x) end;
      simpl; [done | set_solver].
Qed.

(** **** Layers and the current disease *)

Lemma for_current_disease_handle s :
  for_current_disease s -> for_current_disease (handle s).
Proof.
  intros [Hlayers Hcalls]. split.
  - unfold handleZoomChange. case_bool_decide.
    + destruct (fold_call_layers (getVisibleUFs intersects (viewport s) (geoLayer s)) s)
        as (-> & _ & _ & -> & _). exact Hlayers.
    + unfold removeMunicipioLayers. intros u layer.
      rewrite (fold_remove_layer_loaded MAJOR_CITIES_BY_UF).
      destruct (fold_remove_layer_frame MAJOR_CITIES_BY_UF (loaded_keys s) s)
        as (_ & _ & _ & _ & -> & _).
      case_decide; [done | apply Hlayers].
  - exact (handle_suspended (fun s0 p => s_disease p = currentDisease s0) s
             (fun _ _ _ Hd H => eq_trans H (eq_sym Hd)) (fun _ _ _ _ => eq_refl) Hcalls).
Qed.

Lemma for_current_disease_step s ev :
  consistent s ->
  match ev with SetDisease _ => suspended s = [] | _ => True end ->
  for_current_disease s -> for_current_disease (step s ev).
Proof.
  intros Hcons Hquiet [Hlayers Hcalls].
  destruct ev as [z b|d|layers|i outcome]; simpl.
  - by apply for_current_disease_handle.
  - unfold setMapDisease.
    set (s1 := set_currentDisease d s).
    set (s2 := fold_left clear_unit (loaded_keys s1) s1).
    assert (Hs2 : for_current_disease s2).
    { destruct (fold_clear_unit_frame (loaded_keys s1) s1) as (Hsusp & Hd & _).
      split.
      - intros u layer. unfold s2. rewrite fold_clear_unit_loaded.
        case_decide as Hin; [done|]. intros Hu. exfalso.
        apply Hin, loaded_keys_spec. by eexists.
      - intros p. unfold s2. rewrite Hsusp. simpl. rewrite Hquiet.
        by intros ?%elem_of_nil. }
    case_bool_decide; [by apply for_current_disease_handle | exact Hs2].
  - by split.
  - destruct (suspended s !! i) as [p|] eqn:Hi; [|by split].
    assert (Hp : s_disease p = currentDisease s).
    { apply Hcalls. by eapply list_elem_of_lookup_2. }
    assert (Hnone : loadedMunicipioLayers s !! s_ufId p = None).
    { destruct Hcons as (_ & Hiff & Hfree). apply Hfree, Hiff.
      apply list_elem_of_fmap. exists p. split; [done|].
      by eapply list_elem_of_lookup_2. }
    unfold loadMunicipioLayer_resume.
    destruct outcome as [[gj am]|reason]; [destruct (renders gj)|];
      (split; simpl;
       [|intros q Hq; apply Hcalls; by apply list_elem_of_delete_inv in Hq]);
      try exact Hlayers.
    intros u layer [[_ <-]|[_ Hu]]%lookup_insert_Some; [exact Hp | by apply (Hlayers u)].
Qed.

Lemma for_current_disease_run evs s :
  consistent s -> for_current_disease s ->
  quiet_switches intersects MAJOR_CITIES_BY_UF renders s evs ->
  for_current_disease (run s evs).
Proof.
  revert s. induction evs as [|ev evs IH]; intros s Hcons Hs Hquiet; simpl; [done|].
  destruct Hquiet as [Hq Hquiet].
  apply IH; [by apply consistent_step | by apply for_current_disease_step | exact Hquiet].
Qed.

(** X17: when the disease is switched only while no load is in flight,
    the map never shows a municipality layer of another disease. After
    such a sequence of turns from the initial state, every layer of the
    table was requested for the current disease, and so was every request
    still in flight. *)
Theorem quiet_switch_keeps_layers_current (b : Bounds) (evs : list Event) :
  quiet_switches intersects MAJOR_CITIES_BY_UF renders (init b) evs ->
  let s := run (init b) evs in
  (forall ufId layer,
      loadedMunicipioLayers s !! ufId = Some layer -> styledFor layer = currentDisease s)
  /\ (forall p, p ∈ suspended s -> s_disease p = currentDisease s).
Proof.
  intros Hquiet s. apply for_current_disease_run; [apply consistent_init | | exact Hquiet].
  split.
  - intros u layer Hu. simpl in Hu. by rewrite lookup_empty in Hu.
  - by intros p ?%elem_of_nil.
Qed.

End LayerInvariants.

Lemma failed_load_is_retried_witness :
  let s' := Scenario.step' Scenario.zoomed_in (MapView.Settle 0 (Rejected "Failed to fetch")) in
  MapView.requests (MapView.loadMunicipioLayer_call Scenario.major_cities s' 35)
  = [MapView.StateGeoJSON 35; MapView.BulkMunicipioAlerts [3550308; 3509502] "dengue";
     MapView.StateGeoJSON 35; MapView.BulkMunicipioAlerts [3550308; 3509502] "dengue"].
Proof.
  intros s'.
  destruct (failed_load_is_retried Scenario.box_intersects Scenario.major_cities
              Scenario.renders_all Scenario.brazil
              [MapView.StateLayerBuilt Scenario.states; MapView.ViewChange 7 Scenario.over_sp]
              0 {| MapView.s_ufId := 35; MapView.s_cities := [3550308; 3509502];
                   MapView.s_disease := "dengue" |} eq_refl) as [Hfail _].
  destruct (Hfail "Failed to fetch"%string) as (_ & _ & _ & _ & _ & Hretry).
  exact Hretry.
Defined.

Lemma quiet_switch_keeps_layers_current_witness :
  let evs :=
    [MapView.StateLayerBuilt Scenario.states; MapView.ViewChange 7 Scenario.over_sp;
     MapView.Settle 0 (Fulfilled (Scenario.sp_geojson, Scenario.dengue_alerts));
     MapView.SetDisease "zika";
     MapView.Settle 0 (Fulfilled (Scenario.sp_geojson, Scenario.dengue_alerts))] in
  let s := Scenario.run' (MapView.init Scenario.brazil) evs in
  exists layer,
    MapView.loadedMunicipioLayers s !! 35 = Some layer
    /\ MapView.styledFor layer = "zika"%string.
Proof.
  intros evs s.
  destruct (MapView.loadedMunicipioLayers s !! 35) as [layer|] eqn:Hlayer;
    [|by vm_compute in Hlayer].
  exists layer. split; [reflexivity|].
  assert (Hquiet : LayerNotions.quiet_switches Scenario.box_intersects Scenario.major_cities
                     Scenario.renders_all (MapView.init Scenario.brazil) evs).
  { vm_compute. tauto. }
  destruct (quiet_switch_keeps_layers_current Scenario.box_intersects
              Scenario.major_cities Scenario.renders_all Scenario.brazil evs Hquiet)
    as [Hlayers _].
  exact (Hlayers 35 layer Hlayer).
Defined.

(** *** What the zoom handler asks for *)

Section VisibleUnits.
Import MapView LayerNotions.
Context {Bounds GeoJSON : Type}.
Variable intersects : Bounds -> Bounds -> option bool.
Variable MAJOR_CITIES_BY_UF : Z -> option (list Z).
Variable renders : GeoJSON -> bool.

Local Abbreviation State := (@State Bounds GeoJSON).
Local Abbreviation call := (@loadMunicipioLayer_call Bounds GeoJSON MAJOR_CITIES_BY_UF).
Local Abbreviation handle := (handleZoomChange intersects MAJOR_CITIES_BY_UF).
Local Abbreviation step := (step intersects MAJOR_CITIES_BY_UF renders).
Local Abbreviation run := (run intersects MAJOR_CITIES_BY_UF renders).
Implicit Types (s : State) (ufId : Z) (layer : @StateLayer Bounds).

Lemma UF_IDS_includes_own ufId :
  ufId ∈ UF_IDS -> UF_IDS_includes (jsInt ufId) = Some ufId.
Proof.
  revert ufId. apply Forall_forall.
  apply (bool_decide_unpack _). vm_compute. exact I.
Qed.

Lemma pushed_length bounds layer : (length (pushed intersects bounds layer) <= 1)%nat.
Proof.
  unfold pushed, visible_each, visible_try. repeat case_match; simpl; lia.
Qed.

Lemma concat_pushed_length bounds (layers : list StateLayer) :
  (length (concat (pushed intersects bounds <$> layers)) <= length layers)%nat.
Proof.
  induction layers as [|layer layers IH]; [simpl; lia|].
  rewrite fmap_cons. cbn [concat length]. rewrite length_app.
  pose proof (pushed_length bounds layer). lia.
Qed.

(** X18: the resolver misses no visible state. Every drawn feature
    whose code is one of the 27 UF codes and whose bounding box intersects
    the viewport has its code in the result; a layer contributes at most
    one code, so the result is no longer than the list of layers. *)
Theorem getVisibleUFs_complete (bounds : Bounds) (layers : list StateLayer) :
  (forall layer ufId layerBounds,
      layer ∈ layers -> ufId ∈ UF_IDS ->
      feature layer = Some (Properties (jsInt ufId)) ->
      getBounds layer = GetBoundsReturns layerBounds ->
      intersects bounds layerBounds = Some true ->
      ufId ∈ getVisibleUFs intersects bounds (Some layers))
  /\ (length (getVisibleUFs intersects bounds (Some layers)) <= length layers)%nat.
Proof.
  cbn [getVisibleUFs]. rewrite fold_visible_each. cbn [app]. split.
  - intros layer ufId lb Hin Hcode Hfeat Hgb Hint.
    apply list_elem_of_In, in_concat. exists [ufId]. split; [|by left].
    apply list_elem_of_In, list_elem_of_fmap. exists layer. split; [|done].
    unfold pushed, visible_each, visible_try.
    by rewrite Hfeat, Hgb, Hint, UF_IDS_includes_own.
  - apply concat_pushed_length.
Qed.

(** A call either returns at once or issues the two requests of its
    unit. *)
Lemma call_cases s ufId :
  call s ufId = s
  \/ exists cities,
       MAJOR_CITIES_BY_UF ufId = Some cities
       /\ loadedMunicipioLayers s !! ufId = None
       /\ (ufId ∉ loadingStates s)
       /\ requests (call s ufId)
          = requests s ++ [StateGeoJSON ufId;
                           BulkMunicipioAlerts cities (currentDisease s)]
       /\ suspended (call s ufId)
          = suspended s ++ [{| s_ufId := ufId; s_cities := cities;
                               s_disease := currentDisease s |}]
       /\ loadingStates (call s ufId) = {[ufId]} ∪ loadingStates s
       /\ loadedMunicipioLayers (call s ufId) = loadedMunicipioLayers s
       /\ currentDisease (call s ufId) = currentDisease s.
Proof.
  unfold loadMunicipioLayer_call.
  destruct (bool_decide (is_Some (loadedMunicipioLayers s !! ufId))) eqn:Hl;
    [by left|].
  destruct (bool_decide (ufId ∈ loadingStates s)) eqn:Hg; [by left|].
  destruct (MAJOR_CITIES_BY_UF ufId) as [cities|]; [|by left].
  right. exists cities. apply bool_decide_eq_false in Hl, Hg.
  repeat split; try done. by apply eq_None_not_Some.
Qed.

Lemma fold_call_requests ufIds s :
  exists new,
    requests (fold_left call ufIds s) = requests s ++ new
    /\ forall r, r ∈ new ->
         exists u cities,
           u ∈ ufIds /\ MAJOR_CITIES_BY_UF u = Some cities
           /\ loadedMunicipioLayers s !! u = None /\ (u ∉ loadingStates s)
           /\ (r = StateGeoJSON u \/ r = BulkMunicipioAlerts cities (currentDisease s)).
Proof.
  revert s. induction ufIds as [|k ufIds IH]; intros s; simpl.
  { exists []. split; [by rewrite app_nil_r | by intros r ?%elem_of_nil]. }
  destruct (IH (call s k)) as (new & Hreq & Hnew).
  destruct (call_cases s k)
    as [Hsame|(cities & Hc & Hl & Hg & Hr & _ & Hload & Hlayers & Hd)].
  - rewrite Hsame in *. exists new. split; [done|].
    intros r Hr. destruct (Hnew r Hr) as (u & cs & Hu & ?). exists u, cs.
    split; [by right | done].
  - exists ([StateGeoJSON k; BulkMunicipioAlerts cities (currentDisease s)] ++ new).
    split; [by rewrite Hreq, Hr, <- app_assoc|].
    intros r [Hin|Hin]%elem_of_app.
    + exists k, cities. repeat split; try done; [by left|]. set_solver.
    + destruct (Hnew r Hin) as (u & cs & Hu & Hcs & Hul & Hug & Hcase).
      exists u, cs. rewrite Hlayers in Hul. rewrite Hd in Hcase.
      repeat split; try done; [by right|]. set_solver.
Qed.

(** X19: what a view change at municipality zoom asks for. When the
    zoom is at or above the threshold, the evaluation issues requests
    only for visible states that have curated cities and were neither
    loaded nor loading, each for the current disease, and afterwards every
    visible state with curated cities is loaded or loading. The
    evaluation itself adds no layer and removes none, so the layer of a
    state that has left the view stays until the zoom drops below the
    threshold. *)
Theorem handleZoomChange_requests_visible s :
  MUNICIPIO_ZOOM_THRESHOLD <= zoom s ->
  let visible := getVisibleUFs intersects (viewport s) (geoLayer s) in
  (forall u, u ∈ visible -> is_Some (MAJOR_CITIES_BY_UF u) ->
      is_Some (loadedMunicipioLayers (handle s) !! u) \/ u ∈ loadingStates (handle s))
  /\ (exists new,
        requests (handle s) = requests s ++ new
        /\ forall r, r ∈ new ->
             exists u cities,
               u ∈ visible /\ MAJOR_CITIES_BY_UF u = Some cities
               /\ loadedMunicipioLayers s !! u = None /\ (u ∉ loadingStates s)
               /\ (r = StateGeoJSON u
                   \/ r = BulkMunicipioAlerts cities (currentDisease s)))
  /\ loadedMunicipioLayers (handle s) = loadedMunicipioLayers s
  /\ onMap (handle s) = onMap s.
Proof.
  intros Hzoom visible. unfold handleZoomChange.
  rewrite bool_decide_eq_true_2 by done. fold visible. split; [|split].
  - intros u Hu [cities Hc].
    destruct (fold_call_skipped MAJOR_CITIES_BY_UF visible s u) as [?|[?|?]];
      [by right | by left | by right | congruence].
  - apply fold_call_requests.
  - by destruct (fold_call_layers MAJOR_CITIES_BY_UF visible s) as (-> & -> & _).
Qed.

Lemma call_grows s k :
  (forall p, p ∈ suspended s -> p ∈ suspended (call s k))
  /\ (forall u, u ∈ loadingStates s -> u ∈ loadingStates (call s k))
  /\ (forall r, r ∈ requests s -> r ∈ requests (call s k)).
Proof.
  destruct (call_cases s k) as [->|(cities & _ & _ & _ & -> & -> & -> & _)]; [done|].
  repeat split; set_solver.
Qed.

Lemma fold_call_grows ufIds s :
  (forall p, p ∈ suspended s -> p ∈ suspended (fold_left call ufIds s))
  /\ (forall u, u ∈ loadingStates s -> u ∈ loadingStates (fold_left call ufIds s))
  /\ (forall r, r ∈ requests s -> r ∈ requests (fold_left call ufIds s)).
Proof.
  revert s. induction ufIds as [|k ufIds IH]; intros s; simpl; [done|].
  destruct (IH (call s k)) as (H1 & H2 & H3).
  destruct (call_grows s k) as (G1 & G2 & G3). repeat split; auto.
Qed.

(** A unit of the list that is free when the loop starts has its call
    suspended and its requests issued when the loop ends. *)
Lemma fold_call_pending ufIds s u cities :
  u ∈ ufIds -> MAJOR_CITIES_BY_UF u = Some cities ->
  loadedMunicipioLayers s !! u = None -> u ∉ loadingStates s ->
  {| s_ufId := u; s_cities := cities; s_disease := currentDisease s |}
    ∈ suspended (fold_left call ufIds s)
  /\ u ∈ loadingStates (fold_left call ufIds s)
  /\ StateGeoJSON u ∈ requests (fold_left call ufIds s)
  /\ BulkMunicipioAlerts cities (currentDisease s) ∈ requests (fold_left call ufIds s).
Proof.
  revert s. induction ufIds as [|k ufIds IH]; intros s Hin Hc Hl Hg;
    [by apply elem_of_nil in Hin|].
  simpl. destruct (decide (k = u)) as [->|Hne].
  - destruct (fold_call_grows ufIds (call s u)) as (G1 & G2 & G3).
    assert (Hcall : call s u
              = set_requests
                  (requests s ++ [StateGeoJSON u;
                                  BulkMunicipioAlerts cities (currentDisease s)])
                  (set_suspended
                     (suspended s ++ [{| s_ufId := u; s_cities := cities;
                                         s_disease := currentDisease s |}])
                     (set_loading ({[u]} ∪ loadingStates s) s))).
    { unfold loadMunicipioLayer_call.
      rewrite bool_decide_eq_false_2 by (rewrite Hl; by intros [? ?]).
      rewrite bool_decide_eq_false_2 by done. simpl. by rewrite Hc. }
    split; [|split; [|split]].
    + apply G1. rewrite Hcall. simpl. set_solver.
    + apply G2. rewrite Hcall. simpl. set_solver.
    + apply G3. rewrite Hcall. simpl. set_solver.
    + apply G3. rewrite Hcall. simpl. set_solver.
  - apply elem_of_cons in Hin as [->|Hin]; [done|].
    destruct (call_layers MAJOR_CITIES_BY_UF s k) as (Hlayers & _ & _ & Hd & _).
    rewrite <- Hd. apply IH; try done; [by rewrite Hlayers|].
    destruct (call_cases s k) as [->|(cs & _ & _ & _ & _ & _ & -> & _)]; [done|].
    set_solver.
Qed.

Lemma fold_clear_unit_view keys s :
  viewport (fold_left clear_unit keys s) = viewport s
  /\ geoLayer (fold_left clear_unit keys s) = geoLayer s
  /\ loadingStates (fold_left clear_unit keys s) = loadingStates s.
Proof.
  revert s. induction keys as [|k keys IH]; intros s; simpl; [done|].
  destruct (IH (clear_unit s k)) as (-> & -> & ->). unfold clear_unit. simpl.
  by destruct (remove_layer_frame s k) as (_ & -> & _ & _ & _ & _ & -> & -> & _).
Qed.

(** X20: a disease switch at municipality zoom reloads what is in
    view. After any sequence of turns from the initial state, when no
    load is in flight and the zoom is at or above the threshold, switching
    the disease empties the table of layers and leaves, for every visible
    state with curated cities, a suspended call and both requests for the
    new disease. *)
Theorem disease_switch_reloads_visible (b : Bounds) (evs : list Event) (d : string) :
  let s := run (init b) evs in
  suspended s = [] -> MUNICIPIO_ZOOM_THRESHOLD <= zoom s ->
  let s' := step s (SetDisease d) in
  currentDisease s' = d
  /\ loadedMunicipioLayers s' = ∅
  /\ forall u cities,
       u ∈ getVisibleUFs intersects (viewport s) (geoLayer s) ->
       MAJOR_CITIES_BY_UF u = Some cities ->
       {| s_ufId := u; s_cities := cities; s_disease := d |} ∈ suspended s'
       /\ u ∈ loadingStates s'
       /\ StateGeoJSON u ∈ requests s'
       /\ BulkMunicipioAlerts cities d ∈ requests s'.
Proof.
  intros s Hquiet Hzoom s'.
  pose proof (consistent_run intersects MAJOR_CITIES_BY_UF renders evs (init b)
                (consistent_init b)) as (_ & Hiff & _). fold s in Hiff.
  assert (Hidle : forall u, u ∉ loadingStates s).
  { intros u Hu. apply Hiff in Hu. rewrite Hquiet in Hu. by apply elem_of_nil in Hu. }
  subst s'. simpl. unfold setMapDisease.
  set (s1 := set_currentDisease d s).
  set (s2 := fold_left clear_unit (loaded_keys s1) s1).
  destruct (fold_clear_unit_frame (loaded_keys s1) s1) as (_ & Hd2 & Hz2).
  destruct (fold_clear_unit_view (loaded_keys s1) s1) as (Hv2 & Hg2 & Hl2).
  fold s2 in Hd2, Hz2, Hv2, Hg2, Hl2. simpl in Hd2, Hz2, Hv2, Hg2, Hl2.
  assert (Hempty : loadedMunicipioLayers s2 = ∅).
  { apply map_empty. intros u. unfold s2.
    rewrite (fold_clear_unit_loaded MAJOR_CITIES_BY_UF).
    case_decide as Hin; [done|].
    destruct (loadedMunicipioLayers s1 !! u) eqn:Hu; [|done].
    exfalso. apply Hin, loaded_keys_spec. by eexists. }
  rewrite bool_decide_eq_true_2 by lia.
  unfold handleZoomChange. rewrite bool_decide_eq_true_2 by lia.
  rewrite Hv2, Hg2.
  set (visible := getVisibleUFs intersects (viewport s) (geoLayer s)).
  destruct (fold_call_layers MAJOR_CITIES_BY_UF visible s2) as (Hl & _ & _ & Hd & _).
  split; [by rewrite Hd|]. split; [by rewrite Hl|].
  intros u cities Hu Hc. rewrite <- Hd2.
  apply fold_call_pending; try done.
  - by rewrite Hempty, lookup_empty.
  - rewrite Hl2. apply Hidle.
Qed.

End VisibleUnits.

Lemma handleZoomChange_requests_visible_witness :
  let s := MapView.set_view 7 Scenario.over_sp
             (Scenario.run' (MapView.init Scenario.brazil)
                [MapView.StateLayerBuilt Scenario.states]) in
  is_Some (MapView.loadedMunicipioLayers
             (MapView.handleZoomChange Scenario.box_intersects Scenario.major_cities s)
             !! 35)
  \/ 35 ∈ MapView.loadingStates
            (MapView.handleZoomChange Scenario.box_intersects Scenario.major_cities s).
Proof.
  intros s.
  destruct (handleZoomChange_requests_visible Scenario.box_intersects Scenario.major_cities
              s ltac:(vm_compute; discriminate)) as [Hloads _].
  apply Hloads.
  - apply (bool_decide_unpack _). vm_compute. exact I.
  - by eexists.
Defined.

Lemma disease_switch_reloads_visible_witness :
  let s := Scenario.loaded_35 in
  let s' := Scenario.step' s (MapView.SetDisease "zika") in
  MapView.BulkMunicipioAlerts [3550308; 3509502] "zika" ∈ MapView.requests s'.
Proof.
  intros s s'.
  destruct (disease_switch_reloads_visible Scenario.box_intersects Scenario.major_cities
              Scenario.renders_all Scenario.brazil
              [MapView.StateLayerBuilt Scenario.states;
               MapView.ViewChange 7 Scenario.over_sp;
               MapView.Settle 0 (Fulfilled (Scenario.sp_geojson, Scenario.dengue_alerts))]
              "zika"%string eq_refl ltac:(vm_compute; discriminate))
    as (_ & _ & Hreload).
  destruct (Hreload 35 [3550308; 3509502]) as (_ & _ & _ & Hbulk).
  - apply (bool_decide_unpack _). vm_compute. exact I.
  - reflexivity.
  - exact Hbulk.
Defined.

(** *** A load that succeeds *)

Section SuccessfulLoad.
Import MapView LayerNotions.
Context {Bounds GeoJSON : Type}.
Variable intersects : Bounds -> Bounds -> option bool.
Variable MAJOR_CITIES_BY_UF : Z -> option (list Z).
Variable renders : GeoJSON -> bool.

Local Abbreviation step := (step intersects MAJOR_CITIES_BY_UF renders).
Local Abbreviation run := (run intersects MAJOR_CITIES_BY_UF renders).

(** X23: a load that succeeds adds exactly one layer. After any
    sequence of turns from the initial state, when a suspended call
    resumes with both answers and the layer can be built, its unit had no
    layer, and now has one, built from the geometry and the alerts
    received and put on the map under a stamp that was not there; the
    layers of the other units and what else is on the map are unchanged,
    the alert cache holds the alerts of the unit, and the unit has left
    the loading set. *)
Theorem successful_load_adds_one_layer (b : Bounds) (evs : list Event)
    (i : nat) (p : Suspended) (gj : GeoJSON) (am : AlertMap) :
  let s := run (init b) evs in
  suspended s !! i = Some p -> renders gj = true ->
  let s' := step s (Settle i (Fulfilled (gj, am))) in
  exists layer,
    loadedMunicipioLayers s !! s_ufId p = None
    /\ loadedMunicipioLayers s' = <[s_ufId p := layer]> (loadedMunicipioLayers s)
    /\ geojson layer = gj /\ alertMap layer = am /\ styledFor layer = s_disease p
    /\ (stamp layer ∉ onMap s)
    /\ onMap s' = {[stamp layer]} ∪ onMap s
    /\ municipioAlertCache s' = <[s_ufId p := am]> (municipioAlertCache s)
    /\ (s_ufId p ∉ loadingStates s').
Proof.
  intros s Hi Hrender s'.
  destruct (tracked_run intersects MAJOR_CITIES_BY_UF renders evs (init b)
              (consistent_init b) (tracked_init b))
    as [(_ & Hiff & Hfree) (Hmap & Hold & _)].
  fold s in Hiff, Hfree, Hmap, Hold.
  assert (Hnone : loadedMunicipioLayers s !! s_ufId p = None).
  { apply Hfree, Hiff. apply list_elem_of_fmap. exists p. split; [done|].
    by eapply list_elem_of_lookup_2. }
  subst s'. simpl. rewrite Hi. unfold loadMunicipioLayer_resume. rewrite Hrender.
  eexists. split; [exact Hnone|]. simpl. repeat split; try reflexivity.
  - simpl. intros Hin. apply Hmap in Hin as (u & layer & Hu & Hstamp).
    apply Hold in Hu. lia.
  - set_solver.
Qed.

End SuccessfulLoad.

Lemma successful_load_adds_one_layer_witness :
  exists layer,
    MapView.loadedMunicipioLayers Scenario.loaded_35
    = <[35 := layer]> (MapView.loadedMunicipioLayers Scenario.zoomed_in)
    /\ MapView.alertMap layer = Scenario.dengue_alerts
    /\ MapView.onMap Scenario.loaded_35
       = {[MapView.stamp layer]} ∪ MapView.onMap Scenario.zoomed_in.
Proof.
  destruct (successful_load_adds_one_layer Scenario.box_intersects Scenario.major_cities
              Scenario.renders_all Scenario.brazil
              [MapView.StateLayerBuilt Scenario.states;
               MapView.ViewChange 7 Scenario.over_sp]
              0 {| MapView.s_ufId := 35; MapView.s_cities := [3550308; 3509502];
                   MapView.s_disease := "dengue" |}
              Scenario.sp_geojson Scenario.dengue_alerts eq_refl eq_refl)
    as (layer & _ & Hloaded & _ & Halerts & _ & _ & Hmap & _).
  exists layer. split; [exact Hloaded|]. split; [exact Halerts | exact Hmap].
Defined.

(** *** Drawing the state layer *)

Section StateLayer.
Import StateLayerLoader.
Context {GeoJSON : Type}.
Variable renders : GeoJSON -> bool.

Local Abbreviation Loader := (@Loader).
Local Abbreviation step := (@loader_step GeoJSON renders).
Local Abbreviation run := (@loader_run GeoJSON renders).
Implicit Types (s : Loader).

Lemma single_layer_step s (ev : LoaderEvent) : single_layer s -> single_layer (step s ev).
Proof.
  unfold single_layer. intros Hs. destruct ev as [data|layer|data|i outcome]; simpl.
  - exact Hs.
  - unfold setMapLayer. simpl. destruct (geoLayer s) eqn:Hg; simpl; rewrite ?Hg; exact Hs.
  - unfold updateMapColors. destruct (geoLayer s) eqn:Hg; simpl; rewrite ?Hg; exact Hs.
  - destruct (pending s !! i) as [data|]; [|exact Hs].
    unfold loadGeoJSON_resume. simpl.
    destruct outcome as [gj|reason]; [|exact Hs].
    destruct (renders gj); simpl.
    + intros n [->%elem_of_singleton|Hn]%elem_of_union; [by eexists|].
      exfalso. destruct (geoLayer s) as [[old data0]|] eqn:Hg.
      * apply elem_of_difference in Hn as [Hn Hne].
        destruct (Hs n Hn) as (data1 & [= -> _]). set_solver.
      * destruct (Hs n Hn) as (data1 & [=]).
    + intros n Hn. destruct (geoLayer s) as [[old data0]|] eqn:Hg.
      * apply elem_of_difference in Hn as [Hn Hne].
        destruct (Hs n Hn) as (data1 & [= -> _]). set_solver.
      * destruct (Hs n Hn) as (data1 & [=]).
Qed.

Lemma single_layer_run (evs : list LoaderEvent) s :
  single_layer s -> single_layer (run s evs).
Proof.
  revert s. induction evs as [|ev evs IH]; intros s Hs; simpl; [done|].
  by apply IH, single_layer_step.
Qed.

(** X21: redrawing never stacks state layers. After any sequence of
    calls of [loadGeoJSON], [setMapLayer] and [updateMapColors] and of
    resumptions in any order, at most one state layer is on the map, and
    it is the layer [geoLayer] refers to; before the first layer is drawn,
    [setMapLayer] and [updateMapColors] start no load. *)
Theorem state_layer_is_single (evs : list LoaderEvent) :
  let s := run init evs in
  (forall n, n ∈ onMap s -> exists capitalData, geoLayer s = Some (n, capitalData))
  /\ (forall n m, n ∈ onMap s -> m ∈ onMap s -> n = m)
  /\ (geoLayer s = None ->
      forall layer capitalData,
        pending (step s (SetMapLayer layer)) = pending s
        /\ pending (step s (UpdateMapColors capitalData)) = pending s).
Proof.
  intros s.
  assert (Hs : single_layer s).
  { apply single_layer_run. intros n Hn. simpl in Hn. set_solver. }
  split; [exact Hs|]. split.
  - intros n m Hn Hm. destruct (Hs n Hn) as (d1 & H1). destruct (Hs m Hm) as (d2 & H2).
    congruence.
  - intros Hnone layer data. simpl. unfold setMapLayer, updateMapColors. simpl.
    by rewrite Hnone.
Qed.

End StateLayer.

(** *** Instances on the concrete session *)

Lemma state_style_opacity_witness :
  StateMap.fillOpacity
    (StateMap.state_style "sul" StateMap.ColetaEsgotoLayer ∅ 4 (jsInt 35))
  = 0x1.3333333333333p-3%float.
Proof.
  destruct (state_style_opacity "sul" StateMap.ColetaEsgotoLayer ∅ 4 (jsInt 35))
    as (_ & Hdim & _).
  apply Hdim; reflexivity.
Defined.

Lemma cards_badge_is_highest_level_witness :
  let quiet := {| Api.capital := Api.mkCapital "Palmas" 1721000 "TO";
                  Api.data := [Scenario.record 202510 2];
                  Api.latest := Some (Scenario.record 202510 2) |} in
  let alert := {| Api.capital := Api.mkCapital "Natal" 2408102 "RN";
                  Api.data := [Scenario.record 202510 3];
                  Api.latest := Some (Scenario.record 202510 3) |} in
  js_gt (levelInt 2) (Cards.maxLevel (Some [quiet; alert])) = false.
Proof.
  intros quiet alert.
  destruct (cards_badge_is_highest_level [quiet; alert]) as (_ & _ & Hmax & _).
  apply (Hmax quiet (Scenario.record 202510 2)); [left | reflexivity].
Defined.

Lemma renderMainChart_datasets_witness :
  let entries := [("Palmas, TO", []); ("Natal, RN", [Scenario.record 202510 3])]%string in
  exists labels datasets,
    Charts.renderMainChart (Some entries) = Some (labels, datasets)
    /\ datasets = [ {| Charts.label := "Natal, RN"; Charts.data := [10];
                       Charts.borderColor := Some "#38bdf8"%string;
                       Charts.fill := true |} ].
Proof.
  intros entries.
  destruct (Charts.renderMainChart (Some entries)) as [[labels datasets]|] eqn:Hrun;
    [|by vm_compute in Hrun].
  exists labels, datasets. split; [reflexivity|].
  destruct (renderMainChart_datasets entries) as [_ Hshape].
  destruct (Hshape labels datasets Hrun) as (-> & _). reflexivity.
Defined.


Lemma municipality_layers_are_tracked_witness :
  MapView.onMap Scenario.zoomed_out = ∅.
Proof.
  destruct (municipality_layers_are_tracked Scenario.box_intersects Scenario.major_cities
              Scenario.renders_all Scenario.brazil
              [MapView.StateLayerBuilt Scenario.states;
               MapView.ViewChange 7 Scenario.over_sp;
               MapView.Settle 0 (Fulfilled (Scenario.sp_geojson, Scenario.dengue_alerts))])
    as (_ & Hout & _).
  destruct (Hout 4 Scenario.brazil ltac:(reflexivity)) as [_ Hmap]. exact Hmap.
Defined.

Lemma getVisibleUFs_complete_witness :
  35 ∈ MapView.getVisibleUFs Scenario.box_intersects Scenario.over_sp
         (Some Scenario.states).
Proof.
  destruct (getVisibleUFs_complete Scenario.box_intersects Scenario.over_sp
              Scenario.states) as [Hall _].
  apply (Hall (Scenario.state_layer 35 Scenario.sp_box) 35 Scenario.sp_box);
    try reflexivity; [left|].
  apply (bool_decide_unpack _). vm_compute. exact I.
Defined.

Lemma state_layer_is_single_witness :
  let evs :=
    [StateLayerLoader.LoadGeoJSON []; StateLayerLoader.Resume 0 (Fulfilled tt);
     StateLayerLoader.UpdateMapColors []; StateLayerLoader.SetMapLayer StateMap.ColetaEsgotoLayer;
     StateLayerLoader.Resume 1 (Fulfilled tt); StateLayerLoader.Resume 0 (Fulfilled tt)] in
  let s := StateLayerLoader.loader_run (fun _ : unit => true) StateLayerLoader.init evs in
  exists capitalData, StateLayerLoader.geoLayer s = Some (2%nat, capitalData).
Proof.
  intros evs s.
  destruct (state_layer_is_single (fun _ : unit => true) evs) as (Hone & _).
  apply (Hone 2%nat). apply (bool_decide_unpack _). vm_compute. exact I.
Defined.
